(** * The LLCP engine of the upper link layer (ull_llcp.c)

    A shallow embedding of [subsys/bluetooth/controller/ll_sw/ull_llcp.c]:
    the three memory pools, the version-exchange codec, the local and the
    remote procedure FSMs, the two request-lane FSMs and the public API,
    followed by the properties of the engine. *)

From Stdlib Require Import ZArith Lia Bool.
From stdpp Require Import base list.

Local Open Scope Z_scope.

(** ** Enumerations

    The C enums are anonymous and their values are stored in [u8_t] fields;
    the two procedure FSMs number their states differently, and
    [create_procedure] writes a local-FSM value into contexts of either
    lane, so the states are kept as the integers of the source. *)

(* LLCP Local Procedure Common FSM states *)
Definition LP_COMMON_STATE_IDLE : Z := 0.
Definition LP_COMMON_STATE_WAIT_TX : Z := 1.
Definition LP_COMMON_STATE_WAIT_RX : Z := 2.
Definition LP_COMMON_STATE_WAIT_NTF : Z := 3.

(* LLCP Local Procedure Common FSM events *)
Definition LP_COMMON_EVT_RUN : Z := 0.
Definition LP_COMMON_EVT_RESPONSE : Z := 1.
Definition LP_COMMON_EVT_REJECT : Z := 2.
Definition LP_COMMON_EVT_UNKNOWN : Z := 3.
Definition LP_COMMON_EVT_COLLISION : Z := 4.

(* LLCP Remote Procedure Common FSM states *)
Definition RP_COMMON_STATE_IDLE : Z := 0.
Definition RP_COMMON_STATE_WAIT_RX : Z := 1.
Definition RP_COMMON_STATE_WAIT_TX : Z := 2.
Definition RP_COMMON_STATE_WAIT_NTF : Z := 3.

(* LLCP Remote Procedure Common FSM events *)
Definition RP_COMMON_EVT_RUN : Z := 0.
Definition RP_COMMON_EVT_REQUEST : Z := 1.

(* LLCP Procedure *)
Definition PROC_UNKNOWN : Z := 0.
Definition PROC_VERSION_EXCHANGE : Z := 1.

(* LLCP Local Request FSM State *)
Definition LR_STATE_IDLE : Z := 0.
Definition LR_STATE_ACTIVE : Z := 1.
Definition LR_STATE_DISCONNECT : Z := 2.

(* LLCP Local Request FSM Event *)
Definition LR_EVT_RUN : Z := 0.
Definition LR_EVT_COMPLETE : Z := 1.
Definition LR_EVT_CONNECT : Z := 2.
Definition LR_EVT_DISCONNECT : Z := 3.

(* LLCP Remote Request FSM State *)
Definition RR_STATE_IDLE : Z := 0.
Definition RR_STATE_ACTIVE : Z := 1.
Definition RR_STATE_DISCONNECT : Z := 2.

(* LLCP Remote Request FSM Event *)
Definition RR_EVT_RUN : Z := 0.
Definition RR_EVT_COMPLETE : Z := 1.
Definition RR_EVT_CONNECT : Z := 2.
Definition RR_EVT_DISCONNECT : Z := 3.

(** Modelled from the spec: pdu.h is not part of the file.  Section 6, wire
    format: LLID = 0b11 (Control). *)
Definition PDU_DATA_LLID_CTRL : Z := 0x03.

(** Modelled from the spec: pdu.h is not part of the file.  Section 6, wire
    format: opcode of LL_VERSION_IND = 0x0C. *)
Definition PDU_DATA_LLCTRL_TYPE_VERSION_IND : Z := 0x0C.

(** Modelled from the spec: bluetooth/hci.h is not part of the file.
    Section 7: a numeric HCI-style status; the values are the HCI error
    codes for success and for a disallowed command. *)
Definition BT_HCI_ERR_SUCCESS : Z := 0x00.
Definition BT_HCI_ERR_CMD_DISALLOWED : Z := 0x0C.

(** Modelled from the spec: pdu.h is not part of the file.  Section 4.2 and
    section 6: the length is the header offset, the one opcode octet that
    stands for [offsetof(struct pdu_data_llctrl, version_ind)], plus the
    payload size, the 5 octets (u8, u16, u16) of
    [sizeof(struct pdu_data_llctrl_version_ind)]. *)
Definition offsetof_llctrl_version_ind : Z := 1.
Definition sizeof_version_ind : Z := 5.

(** ** Data model *)

(* struct proc_ctx, without the list node *)
Record proc_ctx := {
  proc : Z;       (* PROC_ *)
  state : Z;      (* LP_STATE_ *)
  opcode : Z;     (* Expected opcode to be received next *)
  collision : Z;  (* Instant collision *)
  pause : Z       (* Procedure pause *)
}.

(** Modelled from the spec: [struct pdu_data_llctrl_version_ind] of pdu.h
    is not part of the file.  Section 6: payload = version_number: u8,
    company_id: u16, sub_version: u16; the members are named as the source
    uses them. *)
Record version_ind := {
  version_number : Z;
  company_id : Z;
  sub_version_number : Z
}.

(** Modelled from the spec: [struct pdu_data] of pdu.h is not part of the
    file.  Section 4.2: a control PDU has an LLID, a length, an opcode and a
    payload; only the members the source reads or writes are kept, and the
    payload is seen through its [version_ind] view. *)
Record pdu_data := {
  ll_id : Z;
  len : Z;
  llctrl_opcode : Z;
  llctrl_version_ind : version_ind
}.

(** Modelled from the spec: [struct ull_cp_conn] of ull_llcp.h and
    [sys_slist_t] of sys/slist.h are not part of the file.  Section 3: a
    request lane holds a state and an ordered sequence of pending procedure
    contexts.  [lane_state] is the member [state] of [conn->local] and
    [conn->remote]; the list holds context pointers, as indices into the
    context pool. *)
Record lane := {
  lane_state : Z;
  pend_proc_list : list nat
}.

(** Modelled from the spec: [conn->vex] of ull_llcp.h is not part of the
    file.  Section 3: a valid flag, a sent flag and the cached record; the
    flags are kept as the integers the source assigns and tests. *)
Record vex_t := {
  sent : Z;
  valid : Z;
  cached : version_ind
}.

(** Modelled from the spec: [struct ull_cp_conn] of ull_llcp.h is not part
    of the file.  Section 3: the connection owns the local lane, the remote
    lane, the cached peer state and a handle to the transmit queue, which
    the engine writes and the radio reads. *)
Record ull_cp_conn := {
  local : lane;
  remote : lane;
  vex : vex_t;
  tx_q : list pdu_data
}.

(** The file-scope state ([mem_ctx], [mem_tx], [mem_ntf]), the host queue
    [ll_rx_q] of the unit-test build, and the connection worked on.  The
    context pool is an arena: [mem_ctx_pool] is [buffer_mem_ctx], a context
    pointer is an index into it, and [mem_ctx_free] is the free list.  A
    block keeps its contents while it is free, as [create_procedure] does
    not write every member.  Transmit and notification nodes are written
    completely by the encoders before they are handed over, so only the
    number of free nodes is kept. *)
Record engine := {
  mem_ctx_pool : list proc_ctx;
  mem_ctx_free : list nat;
  mem_tx_free : nat;
  mem_ntf_free : nat;
  ll_rx_q : list pdu_data;
  conn : ull_cp_conn
}.

(** Build-time configuration: the pool capacities, the identity values
    written into an outgoing LL_VERSION_IND, the byte order of the CPU and
    whether [ULL_LLCP_UNITTEST] is defined. *)
Record config := {
  TX_CTRL_BUF_NUM : nat;
  NTF_BUF_NUM : nat;
  PROC_CTX_BUF_NUM : nat;
  LL_VERSION_NUMBER : Z;
  ll_settings_company_id : Z;
  ll_settings_subversion_number : Z;
  BIG_ENDIAN : bool;
  ULL_LLCP_UNITTEST : bool
}.

(** *** Member updates *)

Definition set_proc (v : Z) (c : proc_ctx) : proc_ctx :=
  {| proc := v; state := state c; opcode := opcode c;
     collision := collision c; pause := pause c |}.
Definition set_state (v : Z) (c : proc_ctx) : proc_ctx :=
  {| proc := proc c; state := v; opcode := opcode c;
     collision := collision c; pause := pause c |}.
Definition set_opcode (v : Z) (c : proc_ctx) : proc_ctx :=
  {| proc := proc c; state := state c; opcode := v;
     collision := collision c; pause := pause c |}.
Definition set_collision (v : Z) (c : proc_ctx) : proc_ctx :=
  {| proc := proc c; state := state c; opcode := opcode c;
     collision := v; pause := pause c |}.
Definition set_pause (v : Z) (c : proc_ctx) : proc_ctx :=
  {| proc := proc c; state := state c; opcode := opcode c;
     collision := collision c; pause := v |}.

Definition set_lane_state (v : Z) (l : lane) : lane :=
  {| lane_state := v; pend_proc_list := pend_proc_list l |}.
Definition set_pend_proc_list (q : list nat) (l : lane) : lane :=
  {| lane_state := lane_state l; pend_proc_list := q |}.

Definition set_sent (v : Z) (x : vex_t) : vex_t :=
  {| sent := v; valid := valid x; cached := cached x |}.
Definition set_valid (v : Z) (x : vex_t) : vex_t :=
  {| sent := sent x; valid := v; cached := cached x |}.
Definition set_cached (r : version_ind) (x : vex_t) : vex_t :=
  {| sent := sent x; valid := valid x; cached := r |}.

Definition upd_local (f : lane -> lane) (c : ull_cp_conn) : ull_cp_conn :=
  {| local := f (local c); remote := remote c; vex := vex c; tx_q := tx_q c |}.
Definition upd_remote (f : lane -> lane) (c : ull_cp_conn) : ull_cp_conn :=
  {| local := local c; remote := f (remote c); vex := vex c; tx_q := tx_q c |}.
Definition upd_vex (f : vex_t -> vex_t) (c : ull_cp_conn) : ull_cp_conn :=
  {| local := local c; remote := remote c; vex := f (vex c); tx_q := tx_q c |}.
Definition upd_tx_q (f : list pdu_data -> list pdu_data) (c : ull_cp_conn) : ull_cp_conn :=
  {| local := local c; remote := remote c; vex := vex c; tx_q := f (tx_q c) |}.

Definition upd_conn (f : ull_cp_conn -> ull_cp_conn) (e : engine) : engine :=
  {| mem_ctx_pool := mem_ctx_pool e; mem_ctx_free := mem_ctx_free e;
     mem_tx_free := mem_tx_free e; mem_ntf_free := mem_ntf_free e;
     ll_rx_q := ll_rx_q e; conn := f (conn e) |}.
Definition set_mem_ctx_pool (p : list proc_ctx) (e : engine) : engine :=
  {| mem_ctx_pool := p; mem_ctx_free := mem_ctx_free e;
     mem_tx_free := mem_tx_free e; mem_ntf_free := mem_ntf_free e;
     ll_rx_q := ll_rx_q e; conn := conn e |}.
Definition set_mem_ctx_free (fl : list nat) (e : engine) : engine :=
  {| mem_ctx_pool := mem_ctx_pool e; mem_ctx_free := fl;
     mem_tx_free := mem_tx_free e; mem_ntf_free := mem_ntf_free e;
     ll_rx_q := ll_rx_q e; conn := conn e |}.
Definition set_mem_tx_free (n : nat) (e : engine) : engine :=
  {| mem_ctx_pool := mem_ctx_pool e; mem_ctx_free := mem_ctx_free e;
     mem_tx_free := n; mem_ntf_free := mem_ntf_free e;
     ll_rx_q := ll_rx_q e; conn := conn e |}.
Definition set_mem_ntf_free (n : nat) (e : engine) : engine :=
  {| mem_ctx_pool := mem_ctx_pool e; mem_ctx_free := mem_ctx_free e;
     mem_tx_free := mem_tx_free e; mem_ntf_free := n;
     ll_rx_q := ll_rx_q e; conn := conn e |}.
Definition set_ll_rx_q (q : list pdu_data) (e : engine) : engine :=
  {| mem_ctx_pool := mem_ctx_pool e; mem_ctx_free := mem_ctx_free e;
     mem_tx_free := mem_tx_free e; mem_ntf_free := mem_ntf_free e;
     ll_rx_q := q; conn := conn e |}.

(** ** The engine monad

    Every function of the file works on the file-scope pools and on the
    connection it is given, and may stop in [LL_ASSERT]; a computation is a
    state transformer that either returns or ends in a fault. *)

Inductive fault :=
  | LL_ASSERT_failed  (* LL_ASSERT(0): fatal, does not return *)
  | Bad_pointer       (* a NULL or dangling context or PDU pointer is read *)
  | Unresolved_call.  (* a forward declaration that was never bound *)

Inductive result (A : Type) :=
  | Ok (a : A)
  | Fatal (f : fault).
Arguments Ok {A} a.
Arguments Fatal {A} f.

Definition M (A : Type) : Type := engine -> result (A * engine).

#[export] Instance M_ret : MRet M := fun A a e => Ok (a, e).
#[export] Instance M_bind : MBind M := fun A B k m e =>
  match m e with
  | Ok (a, e') => k a e'
  | Fatal f => Fatal f
  end.

Definition fatal {A} (f : fault) : M A := fun _ => Fatal f.
Definition gets {A} (f : engine -> A) : M A := fun e => Ok (f e, e).
Definition modify (f : engine -> engine) : M unit := fun e => Ok (tt, f e).

(** Modelled from the spec: [LL_ASSERT] of hal/debug.h is not part of the
    file.  Section 7: a failed assertion is fatal and aborts; it does not
    return to the caller. *)
Definition LL_ASSERT (cond : bool) : M unit :=
  if cond then mret tt else fatal LL_ASSERT_failed.

(* reading through a pointer that may be NULL *)
Definition deref {A} (p : option A) : M A :=
  match p with
  | Some a => mret a
  | None => fatal Bad_pointer
  end.

(* ctx->member, read and written through a context pointer *)
Definition ctx_get (ctx : nat) : M proc_ctx :=
  fun e => match mem_ctx_pool e !! ctx with
           | Some c => Ok (c, e)
           | None => Fatal Bad_pointer
           end.
Definition ctx_upd (ctx : nat) (f : proc_ctx -> proc_ctx) : M unit :=
  fun e => match mem_ctx_pool e !! ctx with
           | Some c => Ok (tt, set_mem_ctx_pool (<[ctx := f c]> (mem_ctx_pool e)) e)
           | None => Fatal Bad_pointer
           end.


(** ** LLCP Resource Management *)

(** Modelled from the spec: [mem_init] of util/mem.h is not part of the
    file.  Section 3: a pool is a fixed array of blocks plus a free-list
    head; section 6: init initializes the pools, so that every block is
    free.  The result is the free list of a pool of [mem_count] blocks. *)
Definition mem_init_free_list (mem_count : nat) : list nat := seq 0 mem_count.

(** Modelled from the spec: [mem_acquire] of util/mem.h is not part of the
    file.  Section 4.1: acquire returns an unused block, or a null indicator
    if the pool is empty; the block comes off the free-list head. *)
Definition mem_acquire (mem_head : list nat) : option nat * list nat :=
  match mem_head with
  | [] => (None, [])
  | blk :: rest => (Some blk, rest)
  end.

(** Modelled from the spec: [mem_release] of util/mem.h is not part of the
    file.  Section 4.1: release returns a block to the pool. *)
Definition mem_release (blk : nat) (mem_head : list nat) : list nat := blk :: mem_head.

(** Modelled from the spec: [mem_free_count_get] of util/mem.h is not part
    of the file.  Section 4.1: peek tells whether at least one block is
    free without acquiring it; the count it is computed from is the number
    of free blocks. *)
Definition mem_free_count_get (free_count : nat) : nat := free_count.

(** A transmit or notification node fresh from its pool; every member kept
    in [pdu_data] is overwritten by the encoder that follows. *)
Definition pdu_blank : pdu_data :=
  {| ll_id := 0; len := 0; llctrl_opcode := 0;
     llctrl_version_ind := {| version_number := 0; company_id := 0; sub_version_number := 0 |} |}.

Definition proc_ctx_acquire : M (option nat) :=
  fun e =>
    let '(ctx, rest) := mem_acquire (mem_ctx_free e) in
    Ok (ctx, set_mem_ctx_free rest e).

Definition proc_ctx_release (ctx : nat) : M unit :=
  modify (fun e => set_mem_ctx_free (mem_release ctx (mem_ctx_free e)) e).

Definition tx_alloc_peek : M bool :=
  gets (fun e => Nat.ltb 0 (mem_free_count_get (mem_tx_free e))).

Definition tx_alloc : M (option pdu_data) :=
  fun e =>
    match mem_tx_free e with
    | O => Ok (None, e)
    | S n => Ok (Some pdu_blank, set_mem_tx_free n e)
    end.

Definition ntf_alloc_peek : M bool :=
  gets (fun e => Nat.ltb 0 (mem_free_count_get (mem_ntf_free e))).

Definition ntf_alloc : M (option pdu_data) :=
  fun e =>
    match mem_ntf_free e with
    | O => Ok (None, e)
    | S n => Ok (Some pdu_blank, set_mem_ntf_free n e)
    end.

(** ** ULL -> LLL Interface *)

(** Modelled from the spec: [ull_tx_q_enqueue_ctrl] of ull_tx_queue.h is not
    part of the file.  Section 6: enqueue_ctrl(queue, tx_node) hands a
    filled control PDU to the radio; the queue is ordered. *)
Definition ull_tx_q_enqueue_ctrl (q : list pdu_data) (tx : pdu_data) : list pdu_data :=
  q ++ [tx].

Definition ull_tx_enqueue (tx : pdu_data) : M unit :=
  modify (upd_conn (upd_tx_q (fun q => ull_tx_q_enqueue_ctrl q tx))).

(** ** Byte order *)

(* conversion to [u8_t] and to [u16_t] *)
Definition u8 (x : Z) : Z := x mod 2 ^ 8.
Definition u16 (x : Z) : Z := x mod 2 ^ 16.

(* the two octets of a [u16_t] exchanged *)
Definition bswap_16 (x : Z) : Z :=
  Z.lor (Z.land (Z.shiftr x 8) 0xff) (Z.shiftl (Z.land x 0xff) 8).

Section byteorder.
Context (cfg : config).

(** Modelled from the spec: [sys_cpu_to_le16] of sys/byteorder.h is not part
    of the file.  Section 4.2: multi-byte fields on the wire are
    little-endian and the codec converts at the boundary, so the conversion
    is the identity on a little-endian CPU and a swap of the two octets on a
    big-endian one. *)
Definition sys_cpu_to_le16 (x : Z) : Z :=
  if BIG_ENDIAN cfg then bswap_16 x else x.

(** Modelled from the spec: [sys_le16_to_cpu] of sys/byteorder.h is not part
    of the file.  Section 4.2: the decoder converts from little-endian to
    host order, by the same rule. *)
Definition sys_le16_to_cpu (x : Z) : Z :=
  if BIG_ENDIAN cfg then bswap_16 x else x.

(** The two octets of a [u16_t] member as they lie in memory, lowest
    address first; they go on the wire in this order. *)
Definition u16_octets (x : Z) : list Z :=
  if BIG_ENDIAN cfg
  then [Z.shiftr x 8; Z.land x 0xff]
  else [Z.land x 0xff; Z.shiftr x 8].

(** The payload of an LL_VERSION_IND as it lies in the packed struct. *)
Definition version_ind_octets (p : version_ind) : list Z :=
  version_number p :: u16_octets (company_id p) ++ u16_octets (sub_version_number p).
End byteorder.

Section llcp.
Context (cfg : config).

(** ** ULL -> LL Interface *)

(* Without ULL_LLCP_UNITTEST the body is empty; with it the node is
   appended to [ll_rx_q]. *)
Definition ll_rx_enqueue (rx : pdu_data) : M unit :=
  if ULL_LLCP_UNITTEST cfg
  then modify (fun e => set_ll_rx_q (ll_rx_q e ++ [rx]) e)
  else mret tt.

(** ** LLCP Procedure Creation *)

Definition create_procedure (proc : Z) : M (option nat) :=
  ctx ← proc_ctx_acquire;
  match ctx with
  | None => mret None
  | Some i =>
      ctx_upd i (set_proc proc);;
      (* TODO: Fix the initial state *)
      ctx_upd i (set_state LP_COMMON_STATE_IDLE);;
      ctx_upd i (set_collision 0);;
      ctx_upd i (set_pause 0);;
      mret (Some i)
  end.

(** ** Version Exchange Procedure Helper *)

Definition pdu_encode_version_ind (pdu : pdu_data) : pdu_data :=
  let cid := sys_cpu_to_le16 cfg (u16 (ll_settings_company_id cfg)) in
  let svn := sys_cpu_to_le16 cfg (u16 (ll_settings_subversion_number cfg)) in
  {| ll_id := PDU_DATA_LLID_CTRL;
     len := offsetof_llctrl_version_ind + sizeof_version_ind;
     llctrl_opcode := PDU_DATA_LLCTRL_TYPE_VERSION_IND;
     llctrl_version_ind :=
       {| version_number := u8 (LL_VERSION_NUMBER cfg);
          company_id := cid;
          sub_version_number := svn |} |}.

Definition ntf_encode_version_ind (c : ull_cp_conn) (pdu : pdu_data) : pdu_data :=
  {| ll_id := PDU_DATA_LLID_CTRL;
     len := offsetof_llctrl_version_ind + sizeof_version_ind;
     llctrl_opcode := PDU_DATA_LLCTRL_TYPE_VERSION_IND;
     llctrl_version_ind :=
       {| version_number := version_number (cached (vex c));
          company_id := sys_cpu_to_le16 cfg (company_id (cached (vex c)));
          sub_version_number := sys_cpu_to_le16 cfg (sub_version_number (cached (vex c))) |} |}.

Definition pdu_decode_version_ind (pdu : pdu_data) : M unit :=
  modify (upd_conn (upd_vex (set_valid 1)));;
  modify (upd_conn (upd_vex (fun x => set_cached
    {| version_number := version_number (llctrl_version_ind pdu);
       company_id := sys_le16_to_cpu cfg (company_id (llctrl_version_ind pdu));
       sub_version_number := sys_le16_to_cpu cfg (sub_version_number (llctrl_version_ind pdu)) |} x))).

(** ** LLCP Local Procedure Common FSM and LLCP Local Request FSM *)

Section local_request.
(* static void lr_complete(struct ull_cp_conn *conn); *)
Variable lr_complete : M unit.

Definition lp_comm_tx (ctx : nat) : M unit :=
  (* Allocate tx node *)
  tx ← tx_alloc;
  LL_ASSERT (bool_decide (is_Some tx));;
  pdu ← deref tx;
  (* Encode LL Control PDU *)
  c ← ctx_get ctx;
  pdu ← (if proc c =? PROC_VERSION_EXCHANGE then
           ctx_upd ctx (set_opcode PDU_DATA_LLCTRL_TYPE_VERSION_IND);;
           mret (pdu_encode_version_ind pdu)
         else
           (* Unknown procedure *)
           fatal LL_ASSERT_failed);
  (* Enqueue LL Control PDU towards LLL *)
  ull_tx_enqueue pdu.

Definition lp_comm_ntf (ctx : nat) : M unit :=
  (* Allocate ntf node *)
  ntf ← ntf_alloc;
  LL_ASSERT (bool_decide (is_Some ntf));;
  pdu ← deref ntf;
  c ← ctx_get ctx;
  pdu ← (if proc c =? PROC_VERSION_EXCHANGE then
           cn ← gets conn;
           mret (ntf_encode_version_ind cn pdu)
         else
           (* Unknown procedure *)
           fatal LL_ASSERT_failed);
  (* Enqueue notification towards LL *)
  ll_rx_enqueue pdu.

Definition lp_comm_complete (ctx : nat) (evt : Z) (param : option pdu_data) : M unit :=
  c ← ctx_get ctx;
  if proc c =? PROC_VERSION_EXCHANGE then
    free ← ntf_alloc_peek;
    if negb free then
      ctx_upd ctx (set_state LP_COMMON_STATE_WAIT_NTF)
    else
      lp_comm_ntf ctx;;
      lr_complete;;
      ctx_upd ctx (set_state LP_COMMON_STATE_IDLE)
  else
    (* Unknown procedure *)
    fatal LL_ASSERT_failed.

Definition lp_comm_send_req (ctx : nat) (evt : Z) (param : option pdu_data) : M unit :=
  c ← ctx_get ctx;
  if proc c =? PROC_VERSION_EXCHANGE then
    (* The Link Layer shall only queue for transmission a maximum of
       one LL_VERSION_IND PDU during a connection. *)
    s ← gets (fun e => sent (vex (conn e)));
    if s =? 0 then
      free ← tx_alloc_peek;
      if negb free || negb (pause c =? 0) then
        ctx_upd ctx (set_state LP_COMMON_STATE_WAIT_TX)
      else
        lp_comm_tx ctx;;
        modify (upd_conn (upd_vex (set_sent 1)));;
        ctx_upd ctx (set_state LP_COMMON_STATE_WAIT_RX)
    else
      lp_comm_complete ctx evt param
  else
    (* Unknown procedure *)
    fatal LL_ASSERT_failed.

Definition lp_comm_st_idle (ctx : nat) (evt : Z) (param : option pdu_data) : M unit :=
  if evt =? LP_COMMON_EVT_RUN then
    c ← ctx_get ctx;
    if negb (pause c =? 0) then
      ctx_upd ctx (set_state LP_COMMON_STATE_WAIT_TX)
    else
      lp_comm_send_req ctx evt param
  else
    (* Ignore other evts *)
    mret tt.

Definition lp_comm_st_wait_tx (ctx : nat) (evt : Z) (param : option pdu_data) : M unit :=
  (* TODO *)
  mret tt.

Definition lp_comm_rx_decode (pdu : pdu_data) : M unit :=
  if llctrl_opcode pdu =? PDU_DATA_LLCTRL_TYPE_VERSION_IND then
    pdu_decode_version_ind pdu
  else
    (* Unknown opcode *)
    fatal LL_ASSERT_failed.

Definition lp_comm_st_wait_rx (ctx : nat) (evt : Z) (param : option pdu_data) : M unit :=
  if evt =? LP_COMMON_EVT_RESPONSE then
    pdu ← deref param;
    lp_comm_rx_decode pdu;;
    lp_comm_complete ctx evt param
  else
    (* Ignore other evts *)
    mret tt.

Definition lp_comm_st_wait_ntf (ctx : nat) (evt : Z) (param : option pdu_data) : M unit :=
  (* TODO *)
  mret tt.

Definition lp_comm_execute_fsm (ctx : nat) (evt : Z) (param : option pdu_data) : M unit :=
  c ← ctx_get ctx;
  if state c =? LP_COMMON_STATE_IDLE then lp_comm_st_idle ctx evt param
  else if state c =? LP_COMMON_STATE_WAIT_TX then lp_comm_st_wait_tx ctx evt param
  else if state c =? LP_COMMON_STATE_WAIT_RX then lp_comm_st_wait_rx ctx evt param
  else if state c =? LP_COMMON_STATE_WAIT_NTF then lp_comm_st_wait_ntf ctx evt param
  else
    (* Unknown state *)
    fatal LL_ASSERT_failed.

Definition lr_enqueue (ctx : nat) : M unit :=
  modify (upd_conn (upd_local (fun l => set_pend_proc_list (pend_proc_list l ++ [ctx]) l))).

(* sys_slist_get: remove and return the head, NULL on an empty list *)
Definition lr_dequeue : M (option nat) :=
  q ← gets (fun e => pend_proc_list (local (conn e)));
  match q with
  | [] => mret None
  | ctx :: rest =>
      modify (upd_conn (upd_local (set_pend_proc_list rest)));;
      mret (Some ctx)
  end.

Definition lr_peek : M (option nat) :=
  gets (fun e => head (pend_proc_list (local (conn e)))).

Definition lr_rx (ctx : nat) (rx : pdu_data) : M unit :=
  lp_comm_execute_fsm ctx LP_COMMON_EVT_RESPONSE (Some rx).

Definition lr_act_run : M unit :=
  p ← lr_peek;
  ctx ← deref p;
  c ← ctx_get ctx;
  (if proc c =? PROC_VERSION_EXCHANGE then
     (* TODO *)
     mret tt
   else
     (* Unknown procedure *)
     fatal LL_ASSERT_failed);;
  lp_comm_execute_fsm ctx LP_COMMON_EVT_RUN None.

Definition lr_act_complete : M unit :=
  (* Dequeue pending request that just completed *)
  _ ← lr_dequeue;
  mret tt.

Definition lr_act_connect : M unit :=
  (* TODO *)
  mret tt.

Definition lr_act_disconnect : M unit :=
  _ ← lr_dequeue;
  mret tt.

Definition lr_set_state (s : Z) : M unit :=
  modify (upd_conn (upd_local (set_lane_state s))).

Definition lr_st_disconnect (evt : Z) (param : option pdu_data) : M unit :=
  if evt =? LR_EVT_CONNECT then
    lr_act_connect;;
    lr_set_state LR_STATE_IDLE
  else
    (* Ignore other evts *)
    mret tt.

Definition lr_st_idle (evt : Z) (param : option pdu_data) : M unit :=
  if evt =? LR_EVT_RUN then
    p ← lr_peek;
    if bool_decide (is_Some p) then
      lr_act_run;;
      lr_set_state LR_STATE_ACTIVE
    else mret tt
  else if evt =? LR_EVT_DISCONNECT then
    lr_act_disconnect;;
    lr_set_state LR_STATE_DISCONNECT
  else
    (* Ignore other evts *)
    mret tt.

Definition lr_st_active (evt : Z) (param : option pdu_data) : M unit :=
  if evt =? LR_EVT_COMPLETE then
    lr_act_complete;;
    lr_set_state LR_STATE_IDLE
  else if evt =? LR_EVT_DISCONNECT then
    lr_act_disconnect;;
    lr_set_state LR_STATE_DISCONNECT
  else
    (* Ignore other evts *)
    mret tt.

Definition lr_execute_fsm (evt : Z) (param : option pdu_data) : M unit :=
  s ← gets (fun e => lane_state (local (conn e)));
  if s =? LR_STATE_DISCONNECT then lr_st_disconnect evt param
  else if s =? LR_STATE_IDLE then lr_st_idle evt param
  else if s =? LR_STATE_ACTIVE then lr_st_active evt param
  else
    (* Unknown state *)
    fatal LL_ASSERT_failed.
End local_request.

(** [lr_complete] is declared ahead of the local procedure FSM and
    defined after [lr_execute_fsm], which in turn reaches the procedure
    FSM through [lr_act_run].  The Complete event never takes that branch,
    so the forward declaration is bound by one unfolding;
    [lr_complete_unfold] below is the equation of the source. *)
Definition lr_complete : M unit :=
  lr_execute_fsm (fatal Unresolved_call) LR_EVT_COMPLETE None.

Definition lr_run : M unit := lr_execute_fsm lr_complete LR_EVT_RUN None.
Definition lr_connect : M unit := lr_execute_fsm lr_complete LR_EVT_CONNECT None.
Definition lr_disconnect : M unit := lr_execute_fsm lr_complete LR_EVT_DISCONNECT None.

(** ** LLCP Remote Procedure Common FSM and LLCP Remote Request FSM *)

Section remote_request.
(* static void rr_complete(struct ull_cp_conn *conn); *)
Variable rr_complete : M unit.

Definition rp_comm_rx_decode (pdu : pdu_data) : M unit :=
  if llctrl_opcode pdu =? PDU_DATA_LLCTRL_TYPE_VERSION_IND then
    pdu_decode_version_ind pdu
  else
    (* Unknown opcode *)
    fatal LL_ASSERT_failed.

Definition rp_comm_tx (ctx : nat) : M unit :=
  (* Allocate tx node *)
  tx ← tx_alloc;
  LL_ASSERT (bool_decide (is_Some tx));;
  pdu ← deref tx;
  (* Encode LL Control PDU *)
  c ← ctx_get ctx;
  pdu ← (if proc c =? PROC_VERSION_EXCHANGE then
           ctx_upd ctx (set_opcode PDU_DATA_LLCTRL_TYPE_VERSION_IND);;
           mret (pdu_encode_version_ind pdu)
         else
           (* Unknown procedure *)
           fatal LL_ASSERT_failed);
  (* Enqueue LL Control PDU towards LLL *)
  ull_tx_enqueue pdu.

Definition rp_comm_st_idle (ctx : nat) (evt : Z) (param : option pdu_data) : M unit :=
  if evt =? RP_COMMON_EVT_RUN then
    ctx_upd ctx (set_state RP_COMMON_STATE_WAIT_RX)
  else
    (* Ignore other evts *)
    mret tt.

Definition rp_comm_send_rsp (ctx : nat) (evt : Z) (param : option pdu_data) : M unit :=
  c ← ctx_get ctx;
  if proc c =? PROC_VERSION_EXCHANGE then
    (* The Link Layer shall only queue for transmission a maximum of
       one LL_VERSION_IND PDU during a connection. *)
    s ← gets (fun e => sent (vex (conn e)));
    if s =? 0 then
      free ← tx_alloc_peek;
      if negb free || negb (pause c =? 0) then
        ctx_upd ctx (set_state RP_COMMON_STATE_WAIT_TX)
      else
        rp_comm_tx ctx;;
        modify (upd_conn (upd_vex (set_sent 1)));;
        rr_complete;;
        ctx_upd ctx (set_state RP_COMMON_STATE_IDLE)
    else
      (* Protocol Error.
         A procedure already sent a LL_VERSION_IND and received a
         LL_VERSION_IND. *)
      (* TODO *)
      fatal LL_ASSERT_failed
  else
    (* Unknown procedure *)
    fatal LL_ASSERT_failed.

Definition rp_comm_st_wait_rx (ctx : nat) (evt : Z) (param : option pdu_data) : M unit :=
  if evt =? RP_COMMON_EVT_REQUEST then
    pdu ← deref param;
    rp_comm_rx_decode pdu;;
    c ← ctx_get ctx;
    if negb (pause c =? 0) then
      ctx_upd ctx (set_state RP_COMMON_STATE_WAIT_TX)
    else
      rp_comm_send_rsp ctx evt param
  else
    (* Ignore other evts *)
    mret tt.

Definition rp_comm_st_wait_tx (ctx : nat) (evt : Z) (param : option pdu_data) : M unit :=
  (* TODO *)
  mret tt.

Definition rp_comm_st_wait_ntf (ctx : nat) (evt : Z) (param : option pdu_data) : M unit :=
  (* TODO *)
  mret tt.

Definition rp_comm_execute_fsm (ctx : nat) (evt : Z) (param : option pdu_data) : M unit :=
  c ← ctx_get ctx;
  if state c =? RP_COMMON_STATE_IDLE then rp_comm_st_idle ctx evt param
  else if state c =? RP_COMMON_STATE_WAIT_RX then rp_comm_st_wait_rx ctx evt param
  else if state c =? RP_COMMON_STATE_WAIT_TX then rp_comm_st_wait_tx ctx evt param
  else if state c =? RP_COMMON_STATE_WAIT_NTF then rp_comm_st_wait_ntf ctx evt param
  else
    (* Unknown state *)
    fatal LL_ASSERT_failed.

Definition rr_enqueue (ctx : nat) : M unit :=
  modify (upd_conn (upd_remote (fun l => set_pend_proc_list (pend_proc_list l ++ [ctx]) l))).

(* sys_slist_get: remove and return the head, NULL on an empty list *)
Definition rr_dequeue : M (option nat) :=
  q ← gets (fun e => pend_proc_list (remote (conn e)));
  match q with
  | [] => mret None
  | ctx :: rest =>
      modify (upd_conn (upd_remote (set_pend_proc_list rest)));;
      mret (Some ctx)
  end.

Definition rr_peek : M (option nat) :=
  gets (fun e => head (pend_proc_list (remote (conn e)))).

Definition rr_rx (ctx : nat) (rx : pdu_data) : M unit :=
  rp_comm_execute_fsm ctx RP_COMMON_EVT_REQUEST (Some rx).

Definition rr_act_run : M unit :=
  p ← rr_peek;
  ctx ← deref p;
  c ← ctx_get ctx;
  (if proc c =? PROC_VERSION_EXCHANGE then
     (* TODO *)
     mret tt
   else
     (* Unknown procedure *)
     fatal LL_ASSERT_failed);;
  rp_comm_execute_fsm ctx RP_COMMON_EVT_RUN None.

Definition rr_act_complete : M unit :=
  (* Dequeue pending request that just completed *)
  _ ← rr_dequeue;
  mret tt.

Definition rr_act_connect : M unit :=
  (* TODO *)
  mret tt.

Definition rr_act_disconnect : M unit :=
  _ ← rr_dequeue;
  mret tt.

Definition rr_set_state (s : Z) : M unit :=
  modify (upd_conn (upd_remote (set_lane_state s))).

Definition rr_st_disconnect (evt : Z) (param : option pdu_data) : M unit :=
  if evt =? RR_EVT_CONNECT then
    rr_act_connect;;
    rr_set_state RR_STATE_IDLE
  else
    (* Ignore other evts *)
    mret tt.

Definition rr_st_idle (evt : Z) (param : option pdu_data) : M unit :=
  if evt =? RR_EVT_RUN then
    p ← rr_peek;
    if bool_decide (is_Some p) then
      rr_act_run;;
      rr_set_state RR_STATE_ACTIVE
    else mret tt
  else if evt =? RR_EVT_DISCONNECT then
    rr_act_disconnect;;
    rr_set_state RR_STATE_DISCONNECT
  else
    (* Ignore other evts *)
    mret tt.

Definition rr_st_active (evt : Z) (param : option pdu_data) : M unit :=
  if evt =? RR_EVT_COMPLETE then
    rr_act_complete;;
    rr_set_state RR_STATE_IDLE
  else if evt =? RR_EVT_DISCONNECT then
    rr_act_disconnect;;
    rr_set_state RR_STATE_DISCONNECT
  else
    (* Ignore other evts *)
    mret tt.

Definition rr_execute_fsm (evt : Z) (param : option pdu_data) : M unit :=
  s ← gets (fun e => lane_state (remote (conn e)));
  if s =? RR_STATE_DISCONNECT then rr_st_disconnect evt param
  else if s =? RR_STATE_IDLE then rr_st_idle evt param
  else if s =? RR_STATE_ACTIVE then rr_st_active evt param
  else
    (* Unknown state *)
    fatal LL_ASSERT_failed.
End remote_request.

(** The forward declaration of [rr_complete] is bound like that of
    [lr_complete]; see [rr_complete_unfold]. *)
Definition rr_complete : M unit :=
  rr_execute_fsm (fatal Unresolved_call) RR_EVT_COMPLETE None.

Definition rr_run : M unit := rr_execute_fsm rr_complete RR_EVT_RUN None.
Definition rr_connect : M unit := rr_execute_fsm rr_complete RR_EVT_CONNECT None.
Definition rr_disconnect : M unit := rr_execute_fsm rr_complete RR_EVT_DISCONNECT None.

Definition rr_new (rx : pdu_data) : M unit :=
  proc ← (if llctrl_opcode rx =? PDU_DATA_LLCTRL_TYPE_VERSION_IND then
            mret PROC_VERSION_EXCHANGE
          else
            (* Unknown opcode *)
            fatal LL_ASSERT_failed);
  ctx ← create_procedure proc;
  match ctx with
  | None => mret tt
  | Some i =>
      (* Enqueue procedure *)
      rr_enqueue i;;
      (* Prepare procedure *)
      rr_run;;
      (* Handle PDU *)
      p ← rr_peek;
      ctx ← deref p;
      rr_rx rr_complete ctx rx
  end.

(** ** LLCP Public API *)

(* mem_init makes every block of a pool free.  The arena of contexts is
   left as it is: what mem_init writes into free blocks is overwritten by
   create_procedure before a context is used.  A call made while contexts
   are still queued is outside what the arena describes. *)
Definition ull_cp_init : M unit :=
  modify (set_mem_ctx_free (mem_init_free_list (PROC_CTX_BUF_NUM cfg)));;
  modify (set_mem_tx_free (TX_CTRL_BUF_NUM cfg));;
  modify (set_mem_ntf_free (NTF_BUF_NUM cfg)).

Definition ull_cp_conn_init : M unit :=
  (* Reset local request fsm *)
  modify (upd_conn (upd_local (set_lane_state LR_STATE_DISCONNECT)));;
  modify (upd_conn (upd_local (set_pend_proc_list [])));;
  (* Reset remote request fsm *)
  modify (upd_conn (upd_remote (set_lane_state RR_STATE_DISCONNECT)));;
  modify (upd_conn (upd_remote (set_pend_proc_list [])));;
  (* Reset the cached version Information (PROC_VERSION_EXCHANGE) *)
  modify (upd_conn (upd_vex (fun _ =>
    {| sent := 0; valid := 0;
       cached := {| version_number := 0; company_id := 0; sub_version_number := 0 |} |}))).

Definition ull_cp_run : M unit :=
  rr_run;;
  lr_run.

Definition ull_cp_connect : M unit :=
  rr_connect;;
  lr_connect.

Definition ull_cp_disconnect : M unit :=
  rr_disconnect;;
  lr_disconnect.

Definition ull_cp_version_exchange : M Z :=
  ctx ← create_procedure PROC_VERSION_EXCHANGE;
  match ctx with
  | None => mret BT_HCI_ERR_CMD_DISALLOWED
  | Some i =>
      lr_enqueue i;;
      mret BT_HCI_ERR_SUCCESS
  end.

(* the test [ctx && ctx->opcode == pdu->llctrl.opcode] *)
Definition ctx_awaits (p : option nat) (pdu : pdu_data) : M bool :=
  match p with
  | None => mret false
  | Some ctx =>
      c ← ctx_get ctx;
      mret (opcode c =? llctrl_opcode pdu)
  end.

Definition ull_cp_rx (rx : pdu_data) : M unit :=
  p ← lr_peek;
  hit ← ctx_awaits p rx;
  if hit : bool then
    (* Response on local procedure *)
    ctx ← deref p;
    lr_rx lr_complete ctx rx
  else
    p ← rr_peek;
    hit ← ctx_awaits p rx;
    if hit : bool then
      (* Response on remote procedure *)
      ctx ← deref p;
      rr_rx rr_complete ctx rx
    else
      (* New remote request *)
      rr_new rx.
End llcp.

(** ** Vocabulary of the properties *)

(** The engine as the loader leaves it: static storage is zero, the free
    lists are NULL until [ull_cp_init] runs. *)
Definition proc_ctx_zero : proc_ctx :=
  {| proc := 0; state := 0; opcode := 0; collision := 0; pause := 0 |}.

Definition engine_boot (cfg : config) : engine :=
  {| mem_ctx_pool := replicate (PROC_CTX_BUF_NUM cfg) proc_ctx_zero;
     mem_ctx_free := [];
     mem_tx_free := 0;
     mem_ntf_free := 0;
     ll_rx_q := [];
     conn := {| local := {| lane_state := 0; pend_proc_list := [] |};
                remote := {| lane_state := 0; pend_proc_list := [] |};
                vex := {| sent := 0; valid := 0;
                          cached := {| version_number := 0; company_id := 0;
                                       sub_version_number := 0 |} |};
                tx_q := [] |} |}.

(** The entry points of the public API, and a sequence of calls made from
    the one thread of control that drives the engine. *)
Inductive api_call :=
  | Init
  | Conn_init
  | Connect
  | Disconnect
  | Run
  | Version_exchange
  | Rx (rx : pdu_data).

Definition api_step (cfg : config) (call : api_call) : M unit :=
  match call with
  | Init => ull_cp_init cfg
  | Conn_init => ull_cp_conn_init
  | Connect => ull_cp_connect cfg
  | Disconnect => ull_cp_disconnect cfg
  | Run => ull_cp_run cfg
  | Version_exchange => _ ← ull_cp_version_exchange; mret tt
  | Rx rx => ull_cp_rx cfg rx
  end.

Fixpoint api_run (cfg : config) (calls : list api_call) : M unit :=
  match calls with
  | [] => mret tt
  | call :: rest => api_step cfg call;; api_run cfg rest
  end.

Definition is_conn_init (call : api_call) : bool :=
  match call with
  | Conn_init => true
  | _ => false
  end.

(** A sequence of events handed to one procedure FSM. *)
Fixpoint deliver (fsm : Z -> option pdu_data -> M unit)
    (evts : list (Z * option pdu_data)) : M unit :=
  match evts with
  | [] => mret tt
  | (evt, param) :: rest => fsm evt param;; deliver fsm rest
  end.

(** Blocks of the context pool that are out of the free list, and contexts
    held by the two lanes. *)
Definition ctx_acquired (e : engine) : nat :=
  (length (mem_ctx_pool e) - length (mem_ctx_free e))%nat.

Definition ctx_queued (e : engine) : nat :=
  (length (pend_proc_list (local (conn e))) +
   length (pend_proc_list (remote (conn e))))%nat.

(** Every context pointer kept by the engine points into the pool. *)
Definition engine_wf (e : engine) : Prop :=
  Forall (fun i => (i < length (mem_ctx_pool e))%nat) (mem_ctx_free e) /\
  Forall (fun i => (i < length (mem_ctx_pool e))%nat) (pend_proc_list (local (conn e))) /\
  Forall (fun i => (i < length (mem_ctx_pool e))%nat) (pend_proc_list (remote (conn e))).

(** The opcode awaited by the head context of a lane, if the lane has one. *)
Definition awaited (l : lane) (e : engine) : option Z :=
  match head (pend_proc_list l) with
  | Some ctx => opcode <$> mem_ctx_pool e !! ctx
  | None => None
  end.

(** [post m R]: whenever [m] returns, the engines before and after are
    related by [R]. *)
Definition post {A} (m : M A) (R : engine -> engine -> Prop) : Prop :=
  forall e a e', m e = Ok (a, e') -> R e e'.

(** What one call may do to the version-exchange bookkeeping of the
    connection: nothing, or raise [sent] from 0 to 1 while handing exactly
    one LL_VERSION_IND to the transmit queue. *)
Definition vex_same (e e' : engine) : Prop :=
  sent (vex (conn e')) = sent (vex (conn e)) /\
  tx_q (conn e') = tx_q (conn e).

Definition vex_advance (cfg : config) (e e' : engine) : Prop :=
  vex_same e e' \/
  (sent (vex (conn e)) = 0 /\ sent (vex (conn e')) = 1 /\
   tx_q (conn e') = tx_q (conn e) ++ [pdu_encode_version_ind cfg pdu_blank]).

(** A postcondition that only looks at the connection holds for whatever
    works on the pools and the host queue alone. *)
Definition conn_only (R : engine -> engine -> Prop) : Prop :=
  forall e e', conn e' = conn e -> R e e'.

(** What [lp_comm_tx] and [rp_comm_tx] do to the connection: exactly one
    LL_VERSION_IND goes to the transmit queue and [vex.sent] is left alone. *)
Definition tx_one (cfg : config) (e e' : engine) : Prop :=
  sent (vex (conn e')) = sent (vex (conn e)) /\
  tx_q (conn e') = tx_q (conn e) ++ [pdu_encode_version_ind cfg pdu_blank].

Create HintDb conn_db.
Create HintDb post_db.

(** The arena has the size the build gives it and every pointer is inside;
    [wf_keep] says that a computation does not break this. *)
Definition wf_cfg (cfg : config) (e : engine) : Prop :=
  length (mem_ctx_pool e) = PROC_CTX_BUF_NUM cfg /\ engine_wf e.

Definition wf_keep (cfg : config) (e e' : engine) : Prop :=
  wf_cfg cfg e -> wf_cfg cfg e'.

Create HintDb wf_db.

(** The context pool keeps its size and its free list only loses blocks. *)
Definition free_shrinks (e e' : engine) : Prop :=
  length (mem_ctx_pool e') = length (mem_ctx_pool e) /\
  mem_ctx_free e' `suffix_of` mem_ctx_free e.

Create HintDb free_db.

(** A build used to exercise the engine: little-endian CPU, unit-test host
    queue, one transmit and one notification node, [nctx] contexts. *)
Definition cfg_sample (nctx : nat) : config :=
  {| TX_CTRL_BUF_NUM := 1; NTF_BUF_NUM := 1; PROC_CTX_BUF_NUM := nctx;
     LL_VERSION_NUMBER := 0x09;
     ll_settings_company_id := 0x05F1;
     ll_settings_subversion_number := 0xFFFF;
     BIG_ENDIAN := false; ULL_LLCP_UNITTEST := true |}.

(** The same identity on a big-endian CPU. *)
Definition cfg_sample_be : config :=
  {| TX_CTRL_BUF_NUM := 1; NTF_BUF_NUM := 1; PROC_CTX_BUF_NUM := 1;
     LL_VERSION_NUMBER := 0x09;
     ll_settings_company_id := 0x05F1;
     ll_settings_subversion_number := 0xFFFF;
     BIG_ENDIAN := true; ULL_LLCP_UNITTEST := true |}.

(** The peer's LL_VERSION_IND [{0x0A, 0x1234, 0x5678}] as received. *)
Definition peer_version_ind : pdu_data :=
  {| ll_id := PDU_DATA_LLID_CTRL; len := 6;
     llctrl_opcode := PDU_DATA_LLCTRL_TYPE_VERSION_IND;
     llctrl_version_ind := {| version_number := 0x0A; company_id := 0x1234;
                              sub_version_number := 0x5678 |} |}.

(** A control PDU with an opcode the engine has no procedure for
    (LL_FEATURE_REQ). *)
Definition peer_feature_req : pdu_data :=
  {| ll_id := PDU_DATA_LLID_CTRL; len := 9;
     llctrl_opcode := 0x08;
     llctrl_version_ind := {| version_number := 0; company_id := 0;
                              sub_version_number := 0 |} |}.

(** The engine reached from boot by a sequence of calls that returns. *)
Definition api_final (cfg : config) (calls : list api_call) : engine :=
  match api_run cfg calls (engine_boot cfg) with
  | Ok (_, e) => e
  | Fatal _ => engine_boot cfg
  end.

(** The connection of the sample build once it is connected, and once a
    version exchange has been submitted on it, which takes the only
    context of the pool. *)
Definition engine_connected : engine :=
  Eval vm_compute in api_final (cfg_sample 1) [Init; Conn_init; Connect].

Definition engine_submitted : engine :=
  Eval vm_compute in
    api_final (cfg_sample 1) [Init; Conn_init; Connect; Version_exchange].

(** The same connection after [ull_cp_run] has sent our LL_VERSION_IND:
    the head context of the local lane awaits the peer's. *)
Definition engine_requested : engine :=
  Eval vm_compute in
    api_final (cfg_sample 1) [Init; Conn_init; Connect; Version_exchange; Run].

(** The connected engine after the peer's LL_VERSION_IND arrived while the
    radio held the only transmit node: the remote procedure is parked in
    WaitTx at the head of the remote lane. *)
Definition engine_remote_parked : engine :=
  Eval vm_compute in
    match ull_cp_rx (cfg_sample 1) peer_version_ind (set_mem_tx_free 0 engine_connected) with
    | Ok (_, e) => e
    | Fatal _ => engine_connected
    end.

(** A control PDU with opcode 0x00 (LL_CONNECTION_UPDATE_IND), the value a
    context of the zeroed pool awaits before anything is written to it. *)
Definition peer_conn_update_ind : pdu_data :=
  {| ll_id := PDU_DATA_LLID_CTRL; len := 12;
     llctrl_opcode := 0x00;
     llctrl_version_ind := {| version_number := 0; company_id := 0;
                              sub_version_number := 0 |} |}.

(** The connection of a build with two contexts after a local version
    exchange has run to its end: [vex.sent] is set, both lanes are Idle with
    empty queues and one context is still free. *)
Definition engine_exchanged : engine :=
  Eval vm_compute in
    api_final (cfg_sample 2)
      [Init; Conn_init; Connect; Version_exchange; Run; Rx peer_version_ind].

(** The connected engine after a version exchange has been submitted and
    run while the radio held the only transmit node: the local procedure is
    parked in WaitTx at the head of the Active local lane. *)
Definition engine_tx_parked : engine :=
  Eval vm_compute in
    match api_run (cfg_sample 1) [Version_exchange; Run]
            (set_mem_tx_free 0 engine_connected) with
    | Ok (_, e) => e
    | Fatal _ => engine_connected
    end.

(** What a computation on the connection may do to the transmit side: the
    transmit queue only grows at its tail, by control PDUs of length 6 with
    opcode LL_VERSION_IND that carry the identity of the build, and every
    PDU appended took one node from the transmit pool. *)
Definition tx_extends (cfg : config) (e e' : engine) : Prop :=
  exists l,
    tx_q (conn e') = tx_q (conn e) ++ l /\
    mem_tx_free e = (mem_tx_free e' + length l)%nat /\
    Forall (fun pdu =>
              ll_id pdu = PDU_DATA_LLID_CTRL /\
              len pdu = 6 /\
              llctrl_opcode pdu = PDU_DATA_LLCTRL_TYPE_VERSION_IND /\
              llctrl_version_ind pdu =
                {| version_number := u8 (LL_VERSION_NUMBER cfg);
                   company_id := sys_cpu_to_le16 cfg (u16 (ll_settings_company_id cfg));
                   sub_version_number :=
                     sys_cpu_to_le16 cfg (u16 (ll_settings_subversion_number cfg)) |}) l.

(** The same for the host side of a unit-test build: the host queue only
    grows at its tail, by LL_VERSION_IND notifications, and every
    notification took one node from the notification pool. *)
Definition ntf_extends (e e' : engine) : Prop :=
  exists l,
    ll_rx_q e' = ll_rx_q e ++ l /\
    mem_ntf_free e = (mem_ntf_free e' + length l)%nat /\
    Forall (fun pdu => ll_id pdu = PDU_DATA_LLID_CTRL /\
                       llctrl_opcode pdu = PDU_DATA_LLCTRL_TYPE_VERSION_IND) l.

Create HintDb tx_db.
Create HintDb ntf_db.

(** A context as the engine makes and keeps it: a version exchange, in one
    of the four states of its procedure FSM, with no collision and no
    pause. *)
Definition ctx_good (c : proc_ctx) : Prop :=
  proc c = PROC_VERSION_EXCHANGE /\ 0 <= state c <= 3 /\
  collision c = 0 /\ pause c = 0.

Definition queue_good (e : engine) (q : list nat) : Prop :=
  Forall (fun i => exists c, mem_ctx_pool e !! i = Some c /\ ctx_good c) q.

(** The invariant of the engine: the pool has the size of the build, the
    free list points into it, every queued context is a good one, and both
    lanes are in one of their three states. *)
Definition engine_inv (cfg : config) (e : engine) : Prop :=
  length (mem_ctx_pool e) = PROC_CTX_BUF_NUM cfg /\
  Forall (fun i => (i < length (mem_ctx_pool e))%nat) (mem_ctx_free e) /\
  queue_good e (pend_proc_list (local (conn e))) /\
  queue_good e (pend_proc_list (remote (conn e))) /\
  0 <= lane_state (local (conn e)) <= 2 /\
  0 <= lane_state (remote (conn e)) <= 2.

Definition inv_keep (cfg : config) (e e' : engine) : Prop :=
  engine_inv cfg e -> engine_inv cfg e'.

Create HintDb inv_db.

(** How a computation ended: it returned, or it stopped in an LL_ASSERT
    and [cause] holds.  What this excludes is a stop at a NULL or dangling
    pointer, or at a forward declaration that was never bound. *)
Definition returns_or_asserts {A} (r : result (A * engine)) (cause : Prop) : Prop :=
  match r with
  | Ok _ => True
  | Fatal f => f = LL_ASSERT_failed /\ cause
  end.

(** The calls of the public API other than [ull_cp_rx]. *)
Definition is_rx (call : api_call) : bool :=
  match call with
  | Rx _ => true
  | _ => false
  end.

(** A build whose three pools hold at least one block each, and no more
    than the 16-bit block count of a pool can say.  The properties of whole
    runs below are stated for such builds and for programs that initialise
    the pools once, with [ull_cp_init], and then the connection, with
    [ull_cp_conn_init], before anything else: the free list of a pool lives
    in its free blocks, so an [ull_cp_init] made while contexts are queued
    would hand them out again and write over them. *)
Definition build_ok (cfg : config) : Prop :=
  1 <= Z.of_nat (TX_CTRL_BUF_NUM cfg) < 2 ^ 16 /\
  1 <= Z.of_nat (NTF_BUF_NUM cfg) < 2 ^ 16 /\
  1 <= Z.of_nat (PROC_CTX_BUF_NUM cfg) < 2 ^ 16.

(** * Properties *)

(** ** Binding the forward declarations *)

Ltac unfold_m :=
  unfold mbind, M_bind, mret, M_ret, gets, modify, fatal, LL_ASSERT, deref,
    ctx_get, ctx_upd in *.

(** The Complete event is handled the same whatever [lr_complete] is bound
    to, so [lr_complete] satisfies the equation that defines it in C. *)
Lemma lr_execute_fsm_complete cfg k e :
  lr_execute_fsm cfg k LR_EVT_COMPLETE None e = lr_complete cfg e.
Proof.
  unfold lr_complete, lr_execute_fsm. unfold_m.
  destruct (_ =? LR_STATE_DISCONNECT); [reflexivity|].
  destruct (_ =? LR_STATE_IDLE); [reflexivity|].
  destruct (_ =? LR_STATE_ACTIVE); reflexivity.
Qed.

Lemma lr_complete_unfold cfg e :
  lr_complete cfg e = lr_execute_fsm cfg (lr_complete cfg) LR_EVT_COMPLETE None e.
Proof. symmetry. apply lr_execute_fsm_complete. Qed.

Lemma rr_execute_fsm_complete cfg k e :
  rr_execute_fsm cfg k RR_EVT_COMPLETE None e = rr_complete cfg e.
Proof.
  unfold rr_complete, rr_execute_fsm. unfold_m.
  destruct (_ =? RR_STATE_DISCONNECT); [reflexivity|].
  destruct (_ =? RR_STATE_IDLE); [reflexivity|].
  destruct (_ =? RR_STATE_ACTIVE); reflexivity.
Qed.

Lemma rr_complete_unfold cfg e :
  rr_complete cfg e = rr_execute_fsm cfg (rr_complete cfg) RR_EVT_COMPLETE None e.
Proof. symmetry. apply rr_execute_fsm_complete. Qed.

(** What the Complete event does to a lane, state by state. *)
Lemma lr_complete_spec cfg e :
  lr_complete cfg e =
    if lane_state (local (conn e)) =? LR_STATE_DISCONNECT then Ok (tt, e)
    else if lane_state (local (conn e)) =? LR_STATE_IDLE then Ok (tt, e)
    else if lane_state (local (conn e)) =? LR_STATE_ACTIVE then
      Ok (tt, upd_conn (upd_local (fun l =>
                {| lane_state := LR_STATE_IDLE;
                   pend_proc_list := tail (pend_proc_list l) |})) e)
    else Fatal LL_ASSERT_failed.
Proof.
  unfold lr_complete, lr_execute_fsm. unfold_m.
  destruct (_ =? LR_STATE_DISCONNECT); [reflexivity|].
  destruct (_ =? LR_STATE_IDLE); [reflexivity|].
  destruct (_ =? LR_STATE_ACTIVE); [|reflexivity].
  unfold lr_st_active, lr_act_complete, lr_dequeue, lr_set_state. unfold_m. simpl.
  destruct e as [? ? ? ? ? [[? q] ? ? ?]]; destruct q; reflexivity.
Qed.

Lemma rr_complete_spec cfg e :
  rr_complete cfg e =
    if lane_state (remote (conn e)) =? RR_STATE_DISCONNECT then Ok (tt, e)
    else if lane_state (remote (conn e)) =? RR_STATE_IDLE then Ok (tt, e)
    else if lane_state (remote (conn e)) =? RR_STATE_ACTIVE then
      Ok (tt, upd_conn (upd_remote (fun l =>
                {| lane_state := RR_STATE_IDLE;
                   pend_proc_list := tail (pend_proc_list l) |})) e)
    else Fatal LL_ASSERT_failed.
Proof.
  unfold rr_complete, rr_execute_fsm. unfold_m.
  destruct (_ =? RR_STATE_DISCONNECT); [reflexivity|].
  destruct (_ =? RR_STATE_IDLE); [reflexivity|].
  destruct (_ =? RR_STATE_ACTIVE); [|reflexivity].
  unfold rr_st_active, rr_act_complete, rr_dequeue, rr_set_state. unfold_m. simpl.
  destruct e as [? ? ? ? ? [? [? q] ? ?]]; destruct q; reflexivity.
Qed.

(** ** Postconditions of engine computations *)

Section post_rules.
Context (R : engine -> engine -> Prop) `{!PreOrder R}.

Lemma post_ret {A} (a : A) : post (mret a) R.
Proof. intros e a' e' H. inversion H; subst. reflexivity. Qed.

Lemma post_fatal {A} f : post (fatal (A := A) f) R.
Proof. intros e a e' [=]. Qed.

Lemma post_gets {A} (f : engine -> A) : post (gets f) R.
Proof. intros e a e' H. inversion H; subst. reflexivity. Qed.

Lemma post_bind {A B} (m : M A) (k : A -> M B) :
  post m R -> (forall a, post (k a) R) -> post (m ≫= k) R.
Proof.
  intros Hm Hk e b e'. unfold mbind, M_bind.
  destruct (m e) as [[a e1]|f] eqn:He; [|discriminate].
  intros H. transitivity e1; [eapply Hm | eapply Hk]; eassumption.
Qed.

Lemma post_modify (f : engine -> engine) :
  (forall e, R e (f e)) -> post (modify f) R.
Proof. intros Hf e a e' H. inversion H; subst. apply Hf. Qed.

Lemma post_LL_ASSERT b : post (LL_ASSERT b) R.
Proof. destruct b; [apply post_ret | apply post_fatal]. Qed.

Lemma post_deref {A} (p : option A) : post (deref p) R.
Proof. destruct p; [apply post_ret | apply post_fatal]. Qed.

Lemma post_ctx_get ctx : post (ctx_get ctx) R.
Proof.
  intros e a e'. unfold ctx_get.
  destruct (mem_ctx_pool e !! ctx); intros H; inversion H; subst. reflexivity.
Qed.
End post_rules.

Lemma post_weaken {A} (m : M A) (R R' : engine -> engine -> Prop) :
  (forall e e', R e e' -> R' e e') -> post m R -> post m R'.
Proof. intros HR Hm e a e' H. apply HR. eapply Hm. eassumption. Qed.

Lemma conn_only_post {A} (m : M A) R :
  conn_only R -> post m (fun e e' => conn e' = conn e) -> post m R.
Proof. intros HR Hm. eapply post_weaken; [apply HR | exact Hm]. Qed.

(** Case analysis on everything a computation branches on. *)
Ltac run_cases :=
  repeat first [progress unfold_m | progress simplify_eq | case_match].

(** One step through the structure of a computation; [prim] is tried on
    whatever is neither a bind, a branch nor a combinator of the monad. *)
Ltac post_step prim :=
  lazymatch goal with
  | |- post (mret _) _ => apply post_ret; apply _
  | |- post (fatal _) _ => apply post_fatal
  | |- post (gets _) _ => apply post_gets; apply _
  | |- post (LL_ASSERT _) _ => apply post_LL_ASSERT; apply _
  | |- post (deref _) _ => apply post_deref; apply _
  | |- post (ctx_get _) _ => apply post_ctx_get; apply _
  | |- post (mbind _ _) _ => apply post_bind; [apply _ | | intros ?]
  | |- post (if ?b then _ else _) _ => destruct b
  | |- post (match ?x with _ => _ end) _ => destruct x
  | |- post _ _ => prim
  end.

(** What leaves the connection alone. *)
Ltac conn_prim :=
  let e := fresh "e" in let a := fresh "a" in
  let e' := fresh "e'" in let H := fresh "H" in
  intros e a e' H; run_cases; reflexivity.

Lemma ctx_upd_conn ctx f : post (ctx_upd ctx f) (fun e e' => conn e' = conn e).
Proof. conn_prim. Qed.

Lemma tx_alloc_conn : post tx_alloc (fun e e' => conn e' = conn e).
Proof. unfold tx_alloc. conn_prim. Qed.

Lemma ntf_alloc_conn : post ntf_alloc (fun e e' => conn e' = conn e).
Proof. unfold ntf_alloc. conn_prim. Qed.

Lemma proc_ctx_acquire_conn : post proc_ctx_acquire (fun e e' => conn e' = conn e).
Proof. unfold proc_ctx_acquire, mem_acquire. conn_prim. Qed.

Lemma ll_rx_enqueue_conn cfg rx : post (ll_rx_enqueue cfg rx) (fun e e' => conn e' = conn e).
Proof. unfold ll_rx_enqueue. conn_prim. Qed.

Lemma ull_cp_init_conn cfg : post (ull_cp_init cfg) (fun e e' => conn e' = conn e).
Proof. unfold ull_cp_init. conn_prim. Qed.

#[local] Hint Extern 1 (post (ctx_upd _ _) _) => apply ctx_upd_conn : conn_db.
#[local] Hint Extern 1 (post tx_alloc _) => apply tx_alloc_conn : conn_db.
#[local] Hint Extern 1 (post ntf_alloc _) => apply ntf_alloc_conn : conn_db.
#[local] Hint Extern 1 (post proc_ctx_acquire _) => apply proc_ctx_acquire_conn : conn_db.
#[local] Hint Extern 1 (post (ll_rx_enqueue _ _) _) => apply ll_rx_enqueue_conn : conn_db.
#[local] Hint Extern 1 (post (ull_cp_init _) _) => apply ull_cp_init_conn : conn_db.

(** ** Byte order *)

Lemma land_255 x : Z.land x 0xff = x mod 2 ^ 8.
Proof. change 0xff with (Z.ones 8). apply Z.land_ones. lia. Qed.

Lemma bswap_16_testbit x n :
  0 <= n ->
  Z.testbit (bswap_16 x) n =
    if n <? 8 then Z.testbit x (n + 8)
    else if n <? 16 then Z.testbit x (n - 8) else false.
Proof.
  intros Hn. unfold bswap_16. rewrite !land_255, Z.lor_spec.
  rewrite Z.testbit_mod_pow2 by lia.
  rewrite Z.shiftr_spec by lia.
  destruct (Z.ltb_spec n 8) as [H8|H8]; simpl.
  - rewrite Z.shiftl_spec_low by lia. apply orb_false_r.
  - rewrite Z.shiftl_spec by lia. rewrite Z.testbit_mod_pow2 by lia.
    destruct (Z.ltb_spec n 16) as [H16|H16].
    + replace (n - 8 <? 8) with true by (symmetry; apply Z.ltb_lt; lia). reflexivity.
    + replace (n - 8 <? 8) with false by (symmetry; apply Z.ltb_ge; lia). reflexivity.
Qed.

Lemma u16_testbit_high x n : 0 <= x < 2 ^ 16 -> 16 <= n -> Z.testbit x n = false.
Proof.
  intros Hx Hn. rewrite <- (Z.mod_small x (2 ^ 16)) by lia.
  rewrite Z.testbit_mod_pow2 by lia.
  replace (n <? 16) with false by (symmetry; apply Z.ltb_ge; lia). reflexivity.
Qed.

Lemma bswap_16_involutive x : 0 <= x < 2 ^ 16 -> bswap_16 (bswap_16 x) = x.
Proof.
  intros Hx. apply Z.bits_inj'. intros n Hn.
  rewrite bswap_16_testbit by lia.
  destruct (Z.ltb_spec n 8).
  - rewrite bswap_16_testbit by lia.
    replace (n + 8 <? 8) with false by (symmetry; apply Z.ltb_ge; lia).
    replace (n + 8 <? 16) with true by (symmetry; apply Z.ltb_lt; lia).
    f_equal. lia.
  - destruct (Z.ltb_spec n 16).
    + rewrite bswap_16_testbit by lia.
      replace (n - 8 <? 8) with true by (symmetry; apply Z.ltb_lt; lia).
      f_equal. lia.
    + symmetry. apply u16_testbit_high; lia.
Qed.

Lemma bswap_16_high x : 0 <= x < 2 ^ 16 -> Z.shiftr (bswap_16 x) 8 = Z.land x 0xff.
Proof.
  intros Hx. apply Z.bits_inj'. intros n Hn.
  rewrite Z.shiftr_spec, land_255, Z.testbit_mod_pow2, bswap_16_testbit by lia.
  replace (n + 8 <? 8) with false by (symmetry; apply Z.ltb_ge; lia).
  destruct (Z.ltb_spec n 8).
  - replace (n + 8 <? 16) with true by (symmetry; apply Z.ltb_lt; lia).
    simpl. f_equal. lia.
  - replace (n + 8 <? 16) with false by (symmetry; apply Z.ltb_ge; lia).
    reflexivity.
Qed.

Lemma bswap_16_low x : 0 <= x < 2 ^ 16 -> Z.land (bswap_16 x) 0xff = Z.shiftr x 8.
Proof.
  intros Hx. apply Z.bits_inj'. intros n Hn.
  rewrite Z.shiftr_spec, land_255, Z.testbit_mod_pow2, bswap_16_testbit by lia.
  destruct (Z.ltb_spec n 8); simpl; [reflexivity|].
  symmetry. apply u16_testbit_high; lia.
Qed.

(** Conversion to the wire and back is the identity on a [u16_t]. *)
Lemma sys_le16_roundtrip cfg x :
  0 <= x < 2 ^ 16 -> sys_le16_to_cpu cfg (sys_cpu_to_le16 cfg x) = x.
Proof.
  intros Hx. unfold sys_le16_to_cpu, sys_cpu_to_le16.
  destruct (BIG_ENDIAN cfg); [apply bswap_16_involutive; exact Hx | reflexivity].
Qed.

(** Whatever the CPU, a converted [u16_t] lies in memory low octet first. *)
Lemma u16_octets_le cfg x :
  0 <= x < 2 ^ 16 ->
  u16_octets cfg (sys_cpu_to_le16 cfg x) = [Z.land x 0xff; Z.shiftr x 8].
Proof.
  intros Hx. unfold u16_octets, sys_cpu_to_le16.
  destruct (BIG_ENDIAN cfg); [|reflexivity].
  rewrite bswap_16_high, bswap_16_low by exact Hx. reflexivity.
Qed.

(** ** The version-exchange codec *)

(** C7. Encoding an LL_VERSION_IND from our version number (u8), company id
    (u16) and subversion (u16) and decoding that PDU sets [valid] and caches
    exactly the encoded values; on the wire each u16 is the octet pair
    (value & 0xFF, value >> 8), whatever the byte order of the CPU, and the
    decoder converts it back to host order. *)
Theorem version_ind_encode_decode cfg pdu0 e :
  0 <= LL_VERSION_NUMBER cfg < 2 ^ 8 ->
  0 <= ll_settings_company_id cfg < 2 ^ 16 ->
  0 <= ll_settings_subversion_number cfg < 2 ^ 16 ->
  let pdu := pdu_encode_version_ind cfg pdu0 in
  let ours := {| version_number := LL_VERSION_NUMBER cfg;
                 company_id := ll_settings_company_id cfg;
                 sub_version_number := ll_settings_subversion_number cfg |} in
  version_ind_octets cfg (llctrl_version_ind pdu) =
    [LL_VERSION_NUMBER cfg;
     Z.land (ll_settings_company_id cfg) 0xff;
     Z.shiftr (ll_settings_company_id cfg) 8;
     Z.land (ll_settings_subversion_number cfg) 0xff;
     Z.shiftr (ll_settings_subversion_number cfg) 8] /\
  exists e',
    pdu_decode_version_ind cfg pdu e = Ok (tt, e') /\
    valid (vex (conn e')) = 1 /\
    cached (vex (conn e')) = ours /\
    e' = upd_conn (upd_vex (fun x =>
           {| sent := sent x; valid := 1; cached := ours |})) e.
Proof.
  intros Hv Hc Hs pdu ours. split.
  - unfold version_ind_octets, pdu, pdu_encode_version_ind; simpl.
    unfold u8, u16. rewrite !Z.mod_small by lia.
    rewrite !u16_octets_le by lia. reflexivity.
  - eexists. split; [reflexivity|].
    unfold pdu, pdu_encode_version_ind, ours, u8, u16; simpl.
    rewrite !Z.mod_small by lia.
    rewrite !sys_le16_roundtrip by lia. auto.
Qed.

Lemma version_ind_encode_decode_witness :
  version_ind_octets cfg_sample_be
    (llctrl_version_ind (pdu_encode_version_ind cfg_sample_be pdu_blank)) =
    [0x09; 0xF1; 0x05; 0xFF; 0xFF] /\
  exists e',
    pdu_decode_version_ind cfg_sample_be
      (pdu_encode_version_ind cfg_sample_be pdu_blank) (engine_boot cfg_sample_be) =
      Ok (tt, e') /\
    valid (vex (conn e')) = 1 /\
    cached (vex (conn e')) =
      {| version_number := 0x09; company_id := 0x05F1; sub_version_number := 0xFFFF |}.
Proof.
  destruct (version_ind_encode_decode cfg_sample_be pdu_blank (engine_boot cfg_sample_be))
    as [Hw [e' [He [Hv [Hc _]]]]]; [simpl; lia | simpl; lia | simpl; lia |].
  split; [exact Hw|].
  exists e'. split; [exact He|]. split; [exact Hv | exact Hc].
Defined.

(** ** The local procedure FSM *)



(** C9. A context parked in WaitTx or WaitNtf, on either lane, absorbs
    every event: whatever sequence of events and parameters is delivered to
    its procedure FSM, the FSM returns and the whole engine, the state of
    the context included, is as before. *)
Theorem wait_states_absorb cfg ctx c evts e :
  mem_ctx_pool e !! ctx = Some c ->
  (state c = LP_COMMON_STATE_WAIT_TX \/ state c = LP_COMMON_STATE_WAIT_NTF ->
   deliver (lp_comm_execute_fsm cfg (lr_complete cfg) ctx) evts e = Ok (tt, e)) /\
  (state c = RP_COMMON_STATE_WAIT_TX \/ state c = RP_COMMON_STATE_WAIT_NTF ->
   deliver (rp_comm_execute_fsm cfg (rr_complete cfg) ctx) evts e = Ok (tt, e)).
Proof.
  intros Hc. split; intros Hst.
  - induction evts as [|[evt param] evts IH]; [reflexivity|].
    simpl. unfold mbind, M_bind.
    replace (lp_comm_execute_fsm cfg (lr_complete cfg) ctx evt param e) with (Ok (tt, e)).
    + exact IH.
    + unfold lp_comm_execute_fsm. unfold_m. rewrite Hc.
      destruct Hst as [-> | ->]; reflexivity.
  - induction evts as [|[evt param] evts IH]; [reflexivity|].
    simpl. unfold mbind, M_bind.
    replace (rp_comm_execute_fsm cfg (rr_complete cfg) ctx evt param e) with (Ok (tt, e)).
    + exact IH.
    + unfold rp_comm_execute_fsm. unfold_m. rewrite Hc.
      destruct Hst as [-> | ->]; reflexivity.
Qed.

Lemma wait_states_absorb_witness :
  let park s := set_mem_ctx_pool
                  [set_state s (set_proc PROC_VERSION_EXCHANGE proc_ctx_zero)]
                  (engine_boot (cfg_sample 1)) in
  let evts := [(LP_COMMON_EVT_RUN, None);
               (LP_COMMON_EVT_RESPONSE, Some peer_version_ind);
               (LP_COMMON_EVT_REJECT, None); (7, Some peer_feature_req)] in
  deliver (lp_comm_execute_fsm (cfg_sample 1) (lr_complete (cfg_sample 1)) 0) evts
    (park LP_COMMON_STATE_WAIT_TX) = Ok (tt, park LP_COMMON_STATE_WAIT_TX) /\
  deliver (rp_comm_execute_fsm (cfg_sample 1) (rr_complete (cfg_sample 1)) 0) evts
    (park RP_COMMON_STATE_WAIT_NTF) = Ok (tt, park RP_COMMON_STATE_WAIT_NTF).
Proof.
  intros park evts. split.
  - apply (wait_states_absorb (cfg_sample 1) 0
             (set_state LP_COMMON_STATE_WAIT_TX (set_proc PROC_VERSION_EXCHANGE proc_ctx_zero))
             evts (park LP_COMMON_STATE_WAIT_TX)); [reflexivity | left; reflexivity].
  - apply (wait_states_absorb (cfg_sample 1) 0
             (set_state RP_COMMON_STATE_WAIT_NTF (set_proc PROC_VERSION_EXCHANGE proc_ctx_zero))
             evts (park RP_COMMON_STATE_WAIT_NTF)); [reflexivity | right; reflexivity].
Defined.


(** ** Procedure creation and submission *)

(** [create_procedure] on a pool whose free list points into the arena. *)
Lemma create_procedure_spec proc0 e :
  create_procedure proc0 e =
    match mem_ctx_free e with
    | [] => Ok (None, e)
    | i :: rest =>
        match mem_ctx_pool e !! i with
        | Some c =>
            Ok (Some i,
                set_mem_ctx_pool
                  (<[i := {| proc := proc0; state := LP_COMMON_STATE_IDLE;
                             opcode := opcode c; collision := 0; pause := 0 |}]>
                     (mem_ctx_pool e))
                  (set_mem_ctx_free rest e))
        | None => Fatal Bad_pointer
        end
    end.
Proof.
  unfold create_procedure, proc_ctx_acquire, mem_acquire. unfold_m.
  destruct (mem_ctx_free e) as [|i rest] eqn:Hfree; [rewrite <- Hfree; destruct e; reflexivity|].
  simpl. destruct (mem_ctx_pool e !! i) as [c|] eqn:Hc; [|reflexivity].
  assert (Hlt : (i < length (mem_ctx_pool e))%nat) by (eapply lookup_lt_Some; eauto).
  repeat (rewrite ?list_lookup_insert_eq, ?list_insert_insert_eq, ?length_insert by
            (rewrite ?length_insert; exact Hlt); simpl).
  reflexivity.
Qed.

(** C8. [ull_cp_version_exchange] returns BT_HCI_ERR_CMD_DISALLOWED exactly
    when the context pool has no free block, and then the engine, the local
    queue included, is unchanged; otherwise it takes the head block of the
    free list, makes it a VersionExchange context, appends it to the local
    queue and returns BT_HCI_ERR_SUCCESS. *)
Theorem ull_cp_version_exchange_status e :
  engine_wf e ->
  exists status e',
    ull_cp_version_exchange e = Ok (status, e') /\
    (status = BT_HCI_ERR_CMD_DISALLOWED <-> mem_ctx_free e = []) /\
    (mem_ctx_free e = [] -> e' = e) /\
    (forall i rest, mem_ctx_free e = i :: rest ->
       status = BT_HCI_ERR_SUCCESS /\
       mem_ctx_free e' = rest /\
       pend_proc_list (local (conn e')) = pend_proc_list (local (conn e)) ++ [i] /\
       remote (conn e') = remote (conn e) /\
       exists c, mem_ctx_pool e' !! i = Some c /\
                 proc c = PROC_VERSION_EXCHANGE /\
                 state c = LP_COMMON_STATE_IDLE /\
                 collision c = 0 /\ pause c = 0).
Proof.
  intros (Hfree & _ & _).
  unfold ull_cp_version_exchange. unfold mbind, M_bind.
  rewrite create_procedure_spec.
  destruct (mem_ctx_free e) as [|i rest] eqn:Hf.
  - exists BT_HCI_ERR_CMD_DISALLOWED, e. repeat split; auto; discriminate.
  - apply Forall_cons in Hfree as [Hi _].
    destruct (lookup_lt_is_Some_2 _ _ Hi) as [c Hc]. rewrite Hc.
    eexists _, _. split; [reflexivity|]. split; [split; discriminate|].
    split; [discriminate|]. intros i' rest' [= <- <-].
    simpl. repeat split.
    eexists. split; [apply list_lookup_insert_eq; exact Hi|]. repeat split.
Qed.

Lemma engine_connected_reached :
  api_run (cfg_sample 1) [Init; Conn_init; Connect] (engine_boot (cfg_sample 1)) =
    Ok (tt, engine_connected).
Proof. vm_compute. reflexivity. Qed.

Lemma engine_submitted_reached :
  api_run (cfg_sample 1) [Init; Conn_init; Connect; Version_exchange]
    (engine_boot (cfg_sample 1)) = Ok (tt, engine_submitted).
Proof. vm_compute. reflexivity. Qed.

Lemma engine_connected_wf : engine_wf engine_connected.
Proof. repeat split; repeat constructor. Defined.

Lemma engine_submitted_wf : engine_wf engine_submitted.
Proof. repeat split; repeat constructor. Defined.

Lemma ull_cp_version_exchange_status_witness :
  (exists e', ull_cp_version_exchange engine_connected = Ok (BT_HCI_ERR_SUCCESS, e') /\
     pend_proc_list (local (conn e')) = [0%nat]) /\
  ull_cp_version_exchange engine_submitted =
    Ok (BT_HCI_ERR_CMD_DISALLOWED, engine_submitted).
Proof.
  split.
  - destruct (ull_cp_version_exchange_status engine_connected engine_connected_wf)
      as (st & e' & Hrun & _ & _ & Hsome).
    destruct (Hsome 0%nat [] eq_refl) as (-> & _ & Hq & _).
    exists e'. split; [exact Hrun | exact Hq].
  - destruct (ull_cp_version_exchange_status engine_submitted engine_submitted_wf)
      as (st & e' & Hrun & Hiff & Hsame & _).
    rewrite Hrun, (Hsame eq_refl).
    destruct Hiff as [_ ->]; reflexivity.
Defined.

(** ** The dispatcher *)

Lemma ctx_awaits_spec (l : lane) rx e :
  Forall (fun i => (i < length (mem_ctx_pool e))%nat) (pend_proc_list l) ->
  ctx_awaits (head (pend_proc_list l)) rx e =
    Ok (bool_decide (awaited l e = Some (llctrl_opcode rx)), e).
Proof.
  intros Hq. unfold ctx_awaits, awaited. unfold_m.
  destruct (pend_proc_list l) as [|i q]; simpl.
  - reflexivity.
  - apply Forall_cons in Hq as [Hi _].
    destruct (lookup_lt_is_Some_2 _ _ Hi) as [c Hc]. rewrite Hc. simpl.
    destruct (Z.eqb_spec (opcode c) (llctrl_opcode rx)) as [Heq|Hne].
    + rewrite bool_decide_eq_true_2 by (f_equal; exact Heq). reflexivity.
    + rewrite bool_decide_eq_false_2 by (intros [= ?]; contradiction). reflexivity.
Qed.

(** A Run event leaves the queue of the remote lane as it is. *)
Lemma rr_run_queue cfg e e' :
  rr_run cfg e = Ok (tt, e') ->
  pend_proc_list (remote (conn e')) = pend_proc_list (remote (conn e)).
Proof.
  unfold rr_run, rr_execute_fsm, rr_st_disconnect, rr_st_idle, rr_st_active,
    rr_act_run, rr_peek, rr_set_state, rp_comm_execute_fsm, rp_comm_st_idle,
    rp_comm_st_wait_rx, rp_comm_st_wait_tx, rp_comm_st_wait_ntf.
  unfold_m. simpl.
  intros H. repeat (case_match; unfold_m; simplify_eq); reflexivity.
Qed.

(** C10, amended. When the context pool has no free block and [ull_cp_rx]
    receives an LL_VERSION_IND that the head context of neither lane awaits,
    it returns and the engine is unchanged: both lane states, both queues,
    the cached version record and the pools.  Nothing remembers the PDU, so
    no remote procedure is created then or later. *)
Theorem ull_cp_rx_exhausted_drops cfg rx e :
  engine_wf e ->
  mem_ctx_free e = [] ->
  awaited (local (conn e)) e <> Some (llctrl_opcode rx) ->
  awaited (remote (conn e)) e <> Some (llctrl_opcode rx) ->
  llctrl_opcode rx = PDU_DATA_LLCTRL_TYPE_VERSION_IND ->
  ull_cp_rx cfg rx e = Ok (tt, e).
Proof.
  intros (_ & Hl & Hr) Hfree Hnl Hnr Hop.
  unfold ull_cp_rx, lr_peek, rr_peek.
  unfold mbind at 1, M_bind at 1, gets at 1.
  unfold mbind at 1, M_bind at 1. rewrite (ctx_awaits_spec _ _ _ Hl).
  rewrite bool_decide_eq_false_2 by exact Hnl.
  unfold mbind at 1, M_bind at 1, gets at 1.
  unfold mbind at 1, M_bind at 1. rewrite (ctx_awaits_spec _ _ _ Hr).
  rewrite bool_decide_eq_false_2 by exact Hnr.
  unfold rr_new. rewrite Hop. simpl.
  unfold mbind at 1, M_bind at 1. unfold mret at 1, M_ret at 1.
  unfold mbind at 1, M_bind at 1.
  rewrite create_procedure_spec, Hfree. reflexivity.
Qed.

Lemma ull_cp_rx_exhausted_drops_witness :
  mem_ctx_free engine_submitted = [] /\
  ull_cp_rx (cfg_sample 1) peer_version_ind engine_submitted = Ok (tt, engine_submitted).
Proof.
  split; [reflexivity|].
  apply ull_cp_rx_exhausted_drops.
  - exact engine_submitted_wf.
  - reflexivity.
  - vm_compute. discriminate.
  - vm_compute. discriminate.
  - reflexivity.
Defined.

(** C10 as stated fails: with the pool exhausted and no lane awaiting the
    opcode, a PDU whose opcode is not LL_VERSION_IND does not make
    [ull_cp_rx] return; [rr_new] stops in LL_ASSERT before it looks at the
    pool. *)
Lemma ull_cp_rx_exhausted_unknown_opcode :
  engine_wf engine_submitted /\
  mem_ctx_free engine_submitted = [] /\
  awaited (local (conn engine_submitted)) engine_submitted <>
    Some (llctrl_opcode peer_feature_req) /\
  awaited (remote (conn engine_submitted)) engine_submitted <>
    Some (llctrl_opcode peer_feature_req) /\
  ull_cp_rx (cfg_sample 1) peer_feature_req engine_submitted = Fatal LL_ASSERT_failed /\
  ull_cp_rx (cfg_sample 1) peer_feature_req engine_submitted <> Ok (tt, engine_submitted).
Proof.
  split; [exact engine_submitted_wf|].
  split; [reflexivity|].
  split; [vm_compute; discriminate|]. split; [vm_compute; discriminate|].
  split; [vm_compute; reflexivity | vm_compute; discriminate].
Qed.

Lemma bind_cong {A B} (m : M A) (k1 k2 : A -> M B) e :
  (forall a e', m e = Ok (a, e') -> k1 a e' = k2 a e') ->
  (m ≫= k1) e = (m ≫= k2) e.
Proof.
  intros H. unfold mbind, M_bind.
  destruct (m e) as [[a e']|f]; [apply H; reflexivity | reflexivity].
Qed.

(** C4, amended. [ull_cp_rx] routes a received control PDU in this order.
    If the head context of the local lane awaits its opcode, the PDU is
    delivered as Response to the local procedure FSM of that context and
    nothing else is done.  Otherwise, if the head context of the remote lane
    awaits it, the PDU is delivered as Request to the remote procedure FSM
    of that context.  Otherwise, provided the opcode is LL_VERSION_IND and
    the context pool has a free block, that block becomes a new
    VersionExchange context at the tail of the remote queue, Run is fired on
    the remote lane and the PDU is then delivered as Request to the head
    context of the remote lane. *)
Theorem ull_cp_rx_dispatch cfg rx e :
  engine_wf e ->
  (forall i,
     head (pend_proc_list (local (conn e))) = Some i ->
     awaited (local (conn e)) e = Some (llctrl_opcode rx) ->
     ull_cp_rx cfg rx e =
       lp_comm_execute_fsm cfg (lr_complete cfg) i LP_COMMON_EVT_RESPONSE (Some rx) e) /\
  (forall j,
     awaited (local (conn e)) e <> Some (llctrl_opcode rx) ->
     head (pend_proc_list (remote (conn e))) = Some j ->
     awaited (remote (conn e)) e = Some (llctrl_opcode rx) ->
     ull_cp_rx cfg rx e =
       rp_comm_execute_fsm cfg (rr_complete cfg) j RP_COMMON_EVT_REQUEST (Some rx) e) /\
  (forall i rest,
     awaited (local (conn e)) e <> Some (llctrl_opcode rx) ->
     awaited (remote (conn e)) e <> Some (llctrl_opcode rx) ->
     llctrl_opcode rx = PDU_DATA_LLCTRL_TYPE_VERSION_IND ->
     mem_ctx_free e = i :: rest ->
     exists c j,
       mem_ctx_pool e !! i = Some c /\
       head (pend_proc_list (remote (conn e)) ++ [i]) = Some j /\
       ull_cp_rx cfg rx e =
         (rr_run cfg;;
          rp_comm_execute_fsm cfg (rr_complete cfg) j RP_COMMON_EVT_REQUEST (Some rx))
           {| mem_ctx_pool :=
                <[i := {| proc := PROC_VERSION_EXCHANGE; state := LP_COMMON_STATE_IDLE;
                          opcode := opcode c; collision := 0; pause := 0 |}]>
                  (mem_ctx_pool e);
              mem_ctx_free := rest;
              mem_tx_free := mem_tx_free e;
              mem_ntf_free := mem_ntf_free e;
              ll_rx_q := ll_rx_q e;
              conn := {| local := local (conn e);
                         remote := {| lane_state := lane_state (remote (conn e));
                                      pend_proc_list :=
                                        pend_proc_list (remote (conn e)) ++ [i] |};
                         vex := vex (conn e);
                         tx_q := tx_q (conn e) |} |}).
Proof.
  intros (Hf & Hl & Hr).
  assert (Hrx : forall b : bool,
    ull_cp_rx cfg rx e =
      if bool_decide (awaited (local (conn e)) e = Some (llctrl_opcode rx)) then
        match head (pend_proc_list (local (conn e))) with
        | Some i => lr_rx cfg (lr_complete cfg) i rx e
        | None => Fatal Bad_pointer
        end
      else if bool_decide (awaited (remote (conn e)) e = Some (llctrl_opcode rx)) then
        match head (pend_proc_list (remote (conn e))) with
        | Some j => rr_rx cfg (rr_complete cfg) j rx e
        | None => Fatal Bad_pointer
        end
      else rr_new cfg rx e).
  { intros _. unfold ull_cp_rx, lr_peek, rr_peek.
    unfold mbind at 1, M_bind at 1, gets at 1.
    unfold mbind at 1, M_bind at 1. rewrite (ctx_awaits_spec _ _ _ Hl).
    destruct (bool_decide (awaited (local (conn e)) e = _)).
    - unfold mbind, M_bind, deref.
      destruct (head (pend_proc_list (local (conn e)))); reflexivity.
    - unfold mbind at 1, M_bind at 1, gets at 1.
      unfold mbind at 1, M_bind at 1. rewrite (ctx_awaits_spec _ _ _ Hr).
      destruct (bool_decide (awaited (remote (conn e)) e = _)); [|reflexivity].
      unfold mbind, M_bind, deref.
      destruct (head (pend_proc_list (remote (conn e)))); reflexivity. }
  specialize (Hrx true). split; [|split].
  - intros i Hi Haw. rewrite Hrx, bool_decide_eq_true_2, Hi by exact Haw. reflexivity.
  - intros j Hnl Hj Haw.
    rewrite Hrx, bool_decide_eq_false_2, bool_decide_eq_true_2, Hj by assumption.
    reflexivity.
  - intros i rest Hnl Hnr Hop Hfree.
    rewrite Hfree in Hf. apply Forall_cons in Hf as [Hi _].
    destruct (lookup_lt_is_Some_2 _ _ Hi) as [c Hc].
    assert (Hj : exists j, head (pend_proc_list (remote (conn e)) ++ [i]) = Some j).
    { destruct (pend_proc_list (remote (conn e))); simpl; eauto. }
    destruct Hj as [j Hj]. exists c, j. split; [exact Hc|]. split; [exact Hj|].
    rewrite Hrx, !bool_decide_eq_false_2 by assumption.
    unfold rr_new. rewrite Hop. simpl.
    unfold mbind at 1, M_bind at 1. unfold mret at 1, M_ret at 1.
    unfold mbind at 1, M_bind at 1.
    rewrite create_procedure_spec, Hfree, Hc.
    unfold rr_enqueue.
    unfold mbind at 1, M_bind at 1, modify at 1.
    match goal with
    | |- (rr_run cfg ;; ?k) ?e1 = (rr_run cfg ;; _) ?e2 => change e1 with e2
    end.
    apply bind_cong. intros [] e2 Hrun.
    apply rr_run_queue in Hrun. simpl in Hrun.
    unfold rr_peek, rr_rx. unfold_m. rewrite Hrun, Hj. reflexivity.
Qed.

Lemma engine_requested_wf : engine_wf engine_requested.
Proof. repeat split; repeat constructor. Defined.

Lemma engine_remote_parked_wf : engine_wf engine_remote_parked.
Proof. repeat split; repeat constructor. Defined.

Lemma engine_requested_reached :
  api_run (cfg_sample 1) [Init; Conn_init; Connect; Version_exchange; Run]
    (engine_boot (cfg_sample 1)) = Ok (tt, engine_requested).
Proof. vm_compute. reflexivity. Qed.

Lemma engine_remote_parked_reached :
  ull_cp_rx (cfg_sample 1) peer_version_ind (set_mem_tx_free 0 engine_connected) =
    Ok (tt, engine_remote_parked).
Proof. vm_compute. reflexivity. Qed.

Lemma ull_cp_rx_dispatch_witness :
  ull_cp_rx (cfg_sample 1) peer_version_ind engine_requested =
    lp_comm_execute_fsm (cfg_sample 1) (lr_complete (cfg_sample 1)) 0
      LP_COMMON_EVT_RESPONSE (Some peer_version_ind) engine_requested /\
  ull_cp_rx (cfg_sample 1) peer_conn_update_ind engine_remote_parked =
    rp_comm_execute_fsm (cfg_sample 1) (rr_complete (cfg_sample 1)) 0
      RP_COMMON_EVT_REQUEST (Some peer_conn_update_ind) engine_remote_parked /\
  exists e1,
    ull_cp_rx (cfg_sample 1) peer_version_ind engine_connected =
      (rr_run (cfg_sample 1);;
       rp_comm_execute_fsm (cfg_sample 1) (rr_complete (cfg_sample 1)) 0
         RP_COMMON_EVT_REQUEST (Some peer_version_ind)) e1 /\
    pend_proc_list (remote (conn e1)) = [0%nat] /\
    mem_ctx_free e1 = [].
Proof.
  split; [|split].
  - destruct (ull_cp_rx_dispatch (cfg_sample 1) peer_version_ind engine_requested
                engine_requested_wf) as (H & _ & _).
    apply H; vm_compute; reflexivity.
  - destruct (ull_cp_rx_dispatch (cfg_sample 1) peer_conn_update_ind engine_remote_parked
                engine_remote_parked_wf) as (_ & H & _).
    apply H; vm_compute; [discriminate | reflexivity | reflexivity].
  - destruct (ull_cp_rx_dispatch (cfg_sample 1) peer_version_ind engine_connected
                engine_connected_wf) as (_ & _ & H).
    destruct (H 0%nat []) as (c & j & Hc & Hj & Hrx);
      [vm_compute; discriminate | vm_compute; discriminate | reflexivity | reflexivity |].
    vm_compute in Hj. injection Hj as <-.
    eexists. split; [exact Hrx|]. split; reflexivity.
Defined.

(** C4 as stated fails in its last case.  With the context pool exhausted
    and no lane awaiting the opcode, an LL_VERSION_IND allocates and
    enqueues nothing: [ull_cp_rx] returns with the engine as it was.  With
    a free context but an opcode other than LL_VERSION_IND, [ull_cp_rx]
    stops in LL_ASSERT. *)
Lemma ull_cp_rx_spawn_fails :
  (awaited (local (conn engine_submitted)) engine_submitted <>
     Some (llctrl_opcode peer_version_ind) /\
   awaited (remote (conn engine_submitted)) engine_submitted <>
     Some (llctrl_opcode peer_version_ind) /\
   ull_cp_rx (cfg_sample 1) peer_version_ind engine_submitted =
     Ok (tt, engine_submitted) /\
   pend_proc_list (remote (conn engine_submitted)) = [] /\
   mem_ctx_free engine_submitted = []) /\
  (awaited (local (conn engine_connected)) engine_connected <>
     Some (llctrl_opcode peer_feature_req) /\
   awaited (remote (conn engine_connected)) engine_connected <>
     Some (llctrl_opcode peer_feature_req) /\
   mem_ctx_free engine_connected = [0%nat] /\
   ull_cp_rx (cfg_sample 1) peer_feature_req engine_connected =
     Fatal LL_ASSERT_failed).
Proof.
  split.
  - split; [vm_compute; discriminate|]. split; [vm_compute; discriminate|].
    split; [vm_compute; reflexivity|]. split; reflexivity.
  - split; [vm_compute; discriminate|]. split; [vm_compute; discriminate|].
    split; [reflexivity | vm_compute; reflexivity].
Qed.

(** ** The version-exchange bookkeeping *)

#[local] Instance vex_same_preorder : PreOrder vex_same.
Proof.
  split.
  - intros e. split; reflexivity.
  - intros e1 e2 e3 [H1 H2] [H3 H4]. split; congruence.
Qed.

#[local] Instance vex_advance_preorder cfg : PreOrder (vex_advance cfg).
Proof.
  split.
  - intros e. left. reflexivity.
  - intros e1 e2 e3 [H12|(H1 & H2 & H3)] [H23|(H4 & H5 & H6)].
    + left. etransitivity; eassumption.
    + destruct H12 as [Hs Hq]. right. repeat split; congruence.
    + destruct H23 as [Hs Hq]. right. repeat split; congruence.
    + rewrite H2 in H4. discriminate.
Qed.

Lemma vex_same_conn_only : conn_only vex_same.
Proof. intros e e' H. unfold vex_same. rewrite H. split; reflexivity. Qed.

Lemma vex_same_advance cfg e e' : vex_same e e' -> vex_advance cfg e e'.
Proof. intros H. left. exact H. Qed.

(** A step that keeps [vex_same]: it leaves the connection alone, or it
    writes neither [vex.sent] nor the transmit queue. *)
Ltac same_prim :=
  first [ apply conn_only_post; [apply vex_same_conn_only | solve [auto with conn_db]]
        | apply post_modify; intros ?; split; reflexivity
        | solve [eauto with post_db] ].

Ltac same_auto := repeat post_step same_prim.

Lemma create_procedure_same proc0 : post (create_procedure proc0) vex_same.
Proof. unfold create_procedure. same_auto. Qed.

Lemma pdu_decode_version_ind_same cfg pdu : post (pdu_decode_version_ind cfg pdu) vex_same.
Proof. unfold pdu_decode_version_ind. same_auto. Qed.

Lemma lp_comm_ntf_same cfg ctx : post (lp_comm_ntf cfg ctx) vex_same.
Proof. unfold lp_comm_ntf. same_auto. Qed.

Lemma lr_complete_same cfg : post (lr_complete cfg) vex_same.
Proof.
  unfold lr_complete, lr_execute_fsm, lr_st_disconnect, lr_st_idle, lr_st_active,
    lr_act_complete, lr_act_connect, lr_act_disconnect, lr_act_run, lr_dequeue,
    lr_peek, lr_set_state; simpl.
  same_auto.
Qed.

#[local] Hint Extern 1 (post (create_procedure _) vex_same) =>
  apply create_procedure_same : post_db.
#[local] Hint Extern 1 (post (pdu_decode_version_ind _ _) vex_same) =>
  apply pdu_decode_version_ind_same : post_db.
#[local] Hint Extern 1 (post (lp_comm_ntf _ _) vex_same) =>
  apply lp_comm_ntf_same : post_db.
#[local] Hint Extern 1 (post (lr_complete _) vex_same) =>
  apply lr_complete_same : post_db.

Lemma lp_comm_complete_same cfg ctx evt param :
  post (lp_comm_complete cfg (lr_complete cfg) ctx evt param) vex_same.
Proof. unfold lp_comm_complete, ntf_alloc_peek. same_auto. Qed.

Lemma rr_complete_same cfg : post (rr_complete cfg) vex_same.
Proof.
  unfold rr_complete, rr_execute_fsm, rr_st_disconnect, rr_st_idle, rr_st_active,
    rr_act_complete, rr_act_connect, rr_act_disconnect, rr_act_run, rr_dequeue,
    rr_peek, rr_set_state; simpl.
  same_auto.
Qed.

#[local] Hint Extern 1 (post (lp_comm_complete _ _ _ _ _) vex_same) =>
  apply lp_comm_complete_same : post_db.
#[local] Hint Extern 1 (post (rr_complete _) vex_same) =>
  apply rr_complete_same : post_db.

(** The transmit helpers of the two lanes. *)
Lemma lp_comm_tx_one cfg ctx : post (lp_comm_tx cfg ctx) (tx_one cfg).
Proof.
  unfold lp_comm_tx, tx_alloc, ull_tx_enqueue. intros e a e' H.
  run_cases. split; reflexivity.
Qed.

Lemma rp_comm_tx_one cfg ctx : post (rp_comm_tx cfg ctx) (tx_one cfg).
Proof.
  unfold rp_comm_tx, tx_alloc, ull_tx_enqueue. intros e a e' H.
  run_cases. split; reflexivity.
Qed.

(** The only two places that write [vex.sent] do so under the test
    [!conn->vex.sent], right after the one transmission. *)
Lemma lp_comm_send_req_advance cfg ctx evt param :
  post (lp_comm_send_req cfg (lr_complete cfg) ctx evt param) (vex_advance cfg).
Proof.
  intros e a e' H. unfold lp_comm_send_req, tx_alloc_peek in H.
  unfold mbind, M_bind, gets, ctx_get, ctx_upd, modify, fatal in H.
  repeat first [progress simplify_eq | case_match].
  - left. split; reflexivity.
  - match goal with
    | Htx : lp_comm_tx _ _ _ = Ok _ |- _ => apply lp_comm_tx_one in Htx as [Hs Hq]
    end.
    right. simpl in *. repeat split; [lia | congruence].
  - left. eapply lp_comm_complete_same. eassumption.
Qed.

Lemma rp_comm_send_rsp_advance cfg ctx evt param :
  post (rp_comm_send_rsp cfg (rr_complete cfg) ctx evt param) (vex_advance cfg).
Proof.
  intros e a e' H. unfold rp_comm_send_rsp, tx_alloc_peek in H.
  unfold mbind, M_bind, gets, ctx_get, ctx_upd, modify, fatal in H.
  repeat first [progress simplify_eq | case_match].
  - left. split; reflexivity.
  - match goal with
    | Htx : rp_comm_tx _ _ _ = Ok _ |- _ => apply rp_comm_tx_one in Htx as [Hs Hq]
    end.
    match goal with
    | Hc : rr_complete _ _ = Ok _ |- _ => apply rr_complete_same in Hc as [Hs' Hq']
    end.
    right. simpl in *. repeat split; [lia | congruence | congruence].
Qed.

#[local] Hint Extern 1 (post (lp_comm_send_req _ _ _ _ _) (vex_advance _)) =>
  apply lp_comm_send_req_advance : post_db.
#[local] Hint Extern 1 (post (rp_comm_send_rsp _ _ _ _ _) (vex_advance _)) =>
  apply rp_comm_send_rsp_advance : post_db.

(** A step that keeps [vex_advance]: one of the two above, or a step that
    keeps [vex_same]. *)
Ltac advance_prim :=
  first [ solve [eauto with post_db]
        | apply (post_weaken _ vex_same);
          [apply vex_same_advance | solve [same_auto]] ].

Ltac advance_auto := repeat post_step advance_prim.

Lemma lp_comm_execute_fsm_advance cfg ctx evt param :
  post (lp_comm_execute_fsm cfg (lr_complete cfg) ctx evt param) (vex_advance cfg).
Proof.
  unfold lp_comm_execute_fsm, lp_comm_st_idle, lp_comm_st_wait_tx, lp_comm_st_wait_rx,
    lp_comm_st_wait_ntf, lp_comm_rx_decode.
  advance_auto.
Qed.

Lemma rp_comm_execute_fsm_advance cfg ctx evt param :
  post (rp_comm_execute_fsm cfg (rr_complete cfg) ctx evt param) (vex_advance cfg).
Proof.
  unfold rp_comm_execute_fsm, rp_comm_st_idle, rp_comm_st_wait_tx, rp_comm_st_wait_rx,
    rp_comm_st_wait_ntf, rp_comm_rx_decode.
  advance_auto.
Qed.

#[local] Hint Extern 1 (post (lp_comm_execute_fsm _ _ _ _ _) (vex_advance _)) =>
  apply lp_comm_execute_fsm_advance : post_db.
#[local] Hint Extern 1 (post (rp_comm_execute_fsm _ _ _ _ _) (vex_advance _)) =>
  apply rp_comm_execute_fsm_advance : post_db.

Lemma lr_execute_fsm_advance cfg evt param :
  post (lr_execute_fsm cfg (lr_complete cfg) evt param) (vex_advance cfg).
Proof.
  unfold lr_execute_fsm, lr_st_disconnect, lr_st_idle, lr_st_active,
    lr_act_complete, lr_act_connect, lr_act_disconnect, lr_act_run, lr_dequeue,
    lr_peek, lr_set_state.
  advance_auto.
Qed.

Lemma rr_execute_fsm_advance cfg evt param :
  post (rr_execute_fsm cfg (rr_complete cfg) evt param) (vex_advance cfg).
Proof.
  unfold rr_execute_fsm, rr_st_disconnect, rr_st_idle, rr_st_active,
    rr_act_complete, rr_act_connect, rr_act_disconnect, rr_act_run, rr_dequeue,
    rr_peek, rr_set_state.
  advance_auto.
Qed.

#[local] Hint Extern 1 (post (lr_execute_fsm _ _ _ _) (vex_advance _)) =>
  apply lr_execute_fsm_advance : post_db.
#[local] Hint Extern 1 (post (rr_execute_fsm _ _ _ _) (vex_advance _)) =>
  apply rr_execute_fsm_advance : post_db.

Lemma ull_cp_rx_advance cfg rx : post (ull_cp_rx cfg rx) (vex_advance cfg).
Proof.
  unfold ull_cp_rx, rr_new, ctx_awaits, lr_peek, rr_peek, lr_rx, rr_rx, rr_enqueue,
    rr_run.
  advance_auto.
Qed.

Lemma api_step_advance cfg call :
  is_conn_init call = false -> post (api_step cfg call) (vex_advance cfg).
Proof.
  destruct call; simpl; intros Hc; try discriminate.
  - apply conn_only_post; [|apply ull_cp_init_conn].
    intros e e' H. left. apply vex_same_conn_only. exact H.
  - unfold ull_cp_connect, rr_connect, lr_connect. advance_auto.
  - unfold ull_cp_disconnect, rr_disconnect, lr_disconnect. advance_auto.
  - unfold ull_cp_run, rr_run, lr_run. advance_auto.
  - unfold ull_cp_version_exchange, lr_enqueue. advance_auto.
  - apply ull_cp_rx_advance.
Qed.

Lemma api_run_advance cfg calls :
  forallb (fun call => negb (is_conn_init call)) calls = true ->
  post (api_run cfg calls) (vex_advance cfg).
Proof.
  induction calls as [|call calls IH]; simpl; intros Hc.
  - apply post_ret. apply _.
  - apply andb_prop in Hc as [Hcall Hrest]. apply negb_true_iff in Hcall.
    apply post_bind; [apply _ | apply api_step_advance; exact Hcall | intros _; auto].
Qed.

(** ** [vex.sent] over the lifetime of a connection *)

(** C6. Over any sequence of API calls that does not contain
    [ull_cp_conn_init], [vex.sent] never decreases and is never taken from 1
    back to 0; it changes at most once, from 0 to 1, and that change comes
    with the one LL_VERSION_IND the sequence appends to the transmit queue,
    so once [vex.sent] is set nothing more is queued.  [ull_cp_conn_init]
    always returns and leaves [vex.sent] at 0. *)
Theorem vex_sent_monotone cfg :
  (forall calls e e',
     forallb (fun call => negb (is_conn_init call)) calls = true ->
     api_run cfg calls e = Ok (tt, e') ->
     sent (vex (conn e)) <= sent (vex (conn e')) /\
     (sent (vex (conn e)) = 1 -> sent (vex (conn e')) = 1) /\
     (sent (vex (conn e)) <> 0 -> tx_q (conn e') = tx_q (conn e)) /\
     (tx_q (conn e') = tx_q (conn e) \/
      sent (vex (conn e)) = 0 /\ sent (vex (conn e')) = 1 /\
      tx_q (conn e') = tx_q (conn e) ++ [pdu_encode_version_ind cfg pdu_blank])) /\
  (forall e, exists e',
     ull_cp_conn_init e = Ok (tt, e') /\ sent (vex (conn e')) = 0).
Proof.
  split.
  - intros calls e e' Hc Hrun.
    destruct (api_run_advance cfg calls Hc e tt e' Hrun) as [[Hs Hq]|(H0 & H1 & Hq)].
    + rewrite Hs, Hq. repeat split; auto; lia.
    + rewrite H0, H1, Hq. repeat split; auto; try lia; try discriminate.
  - intros e. eexists. split; reflexivity.
Qed.

Lemma vex_sent_monotone_witness :
  let calls := [Version_exchange; Run; Rx peer_version_ind; Disconnect; Connect; Run;
                Rx peer_version_ind; Init; Version_exchange; Run] in
  exists e',
    api_run (cfg_sample 1) calls engine_connected = Ok (tt, e') /\
    sent (vex (conn engine_connected)) = 0 /\
    sent (vex (conn e')) = 1 /\
    tx_q (conn e') = [pdu_encode_version_ind (cfg_sample 1) pdu_blank].
Proof.
  intros calls.
  destruct (api_run (cfg_sample 1) calls engine_connected) as [[[] e']|f] eqn:Hrun;
    [|vm_compute in Hrun; discriminate].
  exists e'. split; [reflexivity|]. split; [reflexivity|].
  destruct (vex_sent_monotone (cfg_sample 1)) as [Hmono _].
  destruct (Hmono calls engine_connected e' eq_refl Hrun) as (_ & _ & _ & Hq).
  assert (Hs : sent (vex (conn e')) = 1).
  { vm_compute in Hrun. injection Hrun as <-. reflexivity. }
  split; [exact Hs|].
  destruct Hq as [Hq|(_ & _ & Hq)]; [|exact Hq].
  vm_compute in Hrun. injection Hrun as <-. vm_compute in Hq. discriminate.
Defined.

(** ** Completion of a local procedure *)

(** A Response that completes a local version exchange while the lane is
    Active: the notification is built from the values just decoded, the
    Complete event dequeues the head context and the lane is Idle again.
    The context is not handed back to the pool. *)
Lemma lr_rx_completes cfg e ctx q c n rx :
  lane_state (local (conn e)) = LR_STATE_ACTIVE ->
  pend_proc_list (local (conn e)) = ctx :: q ->
  mem_ctx_pool e !! ctx = Some c ->
  proc c = PROC_VERSION_EXCHANGE ->
  state c = LP_COMMON_STATE_WAIT_RX ->
  llctrl_opcode rx = PDU_DATA_LLCTRL_TYPE_VERSION_IND ->
  mem_ntf_free e = S n ->
  exists e',
    lr_rx cfg (lr_complete cfg) ctx rx e = Ok (tt, e') /\
    lane_state (local (conn e')) = LR_STATE_IDLE /\
    pend_proc_list (local (conn e')) = q /\
    mem_ctx_free e' = mem_ctx_free e /\
    (state <$> mem_ctx_pool e' !! ctx) = Some LP_COMMON_STATE_IDLE.
Proof.
  intros Hst Hq Hc Hproc Hcst Hop Hntf.
  assert (Hlt : (ctx < length (mem_ctx_pool e))%nat) by (eapply lookup_lt_Some; eauto).
  unfold lr_rx, lp_comm_execute_fsm, lp_comm_st_wait_rx, lp_comm_rx_decode,
    pdu_decode_version_ind, lp_comm_complete, ntf_alloc_peek, lp_comm_ntf, ntf_alloc,
    ll_rx_enqueue.
  unfold_m. repeat (rewrite ?Hc, ?Hcst, ?Hop, ?Hproc, ?Hntf; simpl).
  destruct (ULL_LLCP_UNITTEST cfg); simpl.
  - rewrite lr_complete_spec. simpl. rewrite Hst. simpl. rewrite Hc.
    eexists. split; [reflexivity|]. simpl. rewrite Hq.
    repeat split. rewrite list_lookup_insert_eq by exact Hlt. reflexivity.
  - rewrite lr_complete_spec. simpl. rewrite Hst. simpl. rewrite Hc.
    eexists. split; [reflexivity|]. simpl. rewrite Hq.
    repeat split. rewrite list_lookup_insert_eq by exact Hlt. reflexivity.
Qed.

(** A Run that finds [vex.sent] already set completes the procedure inside
    [lr_act_run], that is, before [lr_st_idle] has made the lane Active.
    The Complete event therefore reaches the lane in Idle, where it is
    ignored, and the lane then becomes Active with the finished context
    still at its head. *)
Lemma lr_run_peer_known cfg e ctx q c n :
  lane_state (local (conn e)) = LR_STATE_IDLE ->
  pend_proc_list (local (conn e)) = ctx :: q ->
  mem_ctx_pool e !! ctx = Some c ->
  proc c = PROC_VERSION_EXCHANGE ->
  state c = LP_COMMON_STATE_IDLE ->
  pause c = 0 ->
  sent (vex (conn e)) <> 0 ->
  mem_ntf_free e = S n ->
  exists e',
    lr_run cfg e = Ok (tt, e') /\
    lane_state (local (conn e')) = LR_STATE_ACTIVE /\
    pend_proc_list (local (conn e')) = ctx :: q /\
    mem_ctx_pool e' = mem_ctx_pool e /\
    mem_ntf_free e' = n /\
    tx_q (conn e') = tx_q (conn e) /\
    ll_rx_q e' =
      if ULL_LLCP_UNITTEST cfg
      then ll_rx_q e ++ [ntf_encode_version_ind cfg (conn e) pdu_blank]
      else ll_rx_q e.
Proof.
  intros Hst Hq Hc Hproc Hcst Hpause Hsent Hntf.
  apply Z.eqb_neq in Hsent.
  assert (Hid : <[ctx := set_state LP_COMMON_STATE_IDLE c]> (mem_ctx_pool e) = mem_ctx_pool e).
  { apply list_insert_id. rewrite Hc. f_equal. destruct c; simpl in Hcst.
    rewrite Hcst. reflexivity. }
  unfold lr_run, lr_execute_fsm, lr_st_idle, lr_peek, lr_act_run, lr_set_state,
    lp_comm_execute_fsm, lp_comm_st_idle, lp_comm_send_req, lp_comm_complete,
    ntf_alloc_peek, lp_comm_ntf, ntf_alloc, ll_rx_enqueue.
  unfold_m.
  repeat (rewrite ?Hst, ?Hq, ?Hc, ?Hproc, ?Hcst, ?Hpause, ?Hsent, ?Hntf; simpl).
  destruct (ULL_LLCP_UNITTEST cfg); simpl.
  - rewrite lr_complete_spec. simpl. rewrite Hst. simpl. rewrite Hc.
    eexists. split; [reflexivity|]. simpl. rewrite Hq, Hid. repeat split.
  - rewrite lr_complete_spec. simpl. rewrite Hst. simpl. rewrite Hc.
    eexists. split; [reflexivity|]. simpl. rewrite Hq, Hid. repeat split.
Qed.

(** C1. Scenario 3 of the specification on a build with two contexts: the
    peer's LL_VERSION_IND is answered first, so [vex.sent] is set when the
    local version exchange is submitted and run.  The run transmits nothing
    and enqueues one notification with the cached peer values, as claimed,
    but the Complete event is delivered while the lane is still Idle: the
    head context is not dequeued and the lane ends Active, not Idle. *)
Theorem local_complete_lost_when_peer_known :
  exists e e',
    api_run (cfg_sample 2)
      [Init; Conn_init; Connect; Rx peer_version_ind; Version_exchange]
      (engine_boot (cfg_sample 2)) = Ok (tt, e) /\
    sent (vex (conn e)) = 1 /\
    lane_state (local (conn e)) = LR_STATE_IDLE /\
    pend_proc_list (local (conn e)) = [1%nat] /\
    ull_cp_run (cfg_sample 2) e = Ok (tt, e') /\
    tx_q (conn e') = tx_q (conn e) /\
    ll_rx_q e' = ll_rx_q e ++ [peer_version_ind] /\
    (state <$> mem_ctx_pool e' !! 1%nat) = Some LP_COMMON_STATE_IDLE /\
    lane_state (local (conn e')) = LR_STATE_ACTIVE /\
    pend_proc_list (local (conn e')) = [1%nat].
Proof.
  eexists. eexists.
  split; [vm_compute; reflexivity|].
  split; [reflexivity|]. split; [reflexivity|]. split; [reflexivity|].
  split; [vm_compute; reflexivity|].
  repeat split.
Qed.

(** ** Disconnection and the context pool *)

(** C2. Scenario 6 of the specification: two version exchanges are
    submitted on a connected link and the link is disconnected.  Both lanes
    end in Disconnected, but [lr_act_disconnect] dequeues one context only:
    the second one stays in the local queue, and neither is handed back to
    the pool. *)
Theorem disconnect_leaves_contexts :
  exists e e',
    api_run (cfg_sample 2)
      [Init; Conn_init; Connect; Version_exchange; Version_exchange]
      (engine_boot (cfg_sample 2)) = Ok (tt, e) /\
    pend_proc_list (local (conn e)) = [0%nat; 1%nat] /\
    ull_cp_disconnect (cfg_sample 2) e = Ok (tt, e') /\
    lane_state (local (conn e')) = LR_STATE_DISCONNECT /\
    lane_state (remote (conn e')) = RR_STATE_DISCONNECT /\
    pend_proc_list (local (conn e')) = [1%nat] /\
    pend_proc_list (remote (conn e')) = [] /\
    mem_ctx_free e' = [] /\
    ctx_acquired e' = 2%nat.
Proof.
  eexists. eexists.
  split; [vm_compute; reflexivity|].
  split; [reflexivity|].
  split; [vm_compute; reflexivity|].
  repeat split.
Qed.

(** C3. Scenario 1 of the specification on the default build with one
    context: the local version exchange completes and its context leaves the
    local queue, but it is not released, so one block of the pool stays
    acquired while the two queues hold no context; the next submission is
    refused.  The same holds when the procedure ends by a disconnect. *)
Theorem completed_context_not_released :
  (exists e,
     api_run (cfg_sample 1)
       [Init; Conn_init; Connect; Version_exchange; Run; Rx peer_version_ind]
       (engine_boot (cfg_sample 1)) = Ok (tt, e) /\
     lane_state (local (conn e)) = LR_STATE_IDLE /\
     ctx_queued e = 0%nat /\
     ctx_acquired e = 1%nat /\
     mem_ctx_free e = [] /\
     ull_cp_version_exchange e = Ok (BT_HCI_ERR_CMD_DISALLOWED, e)) /\
  (exists e,
     api_run (cfg_sample 1)
       [Init; Conn_init; Connect; Version_exchange; Disconnect]
       (engine_boot (cfg_sample 1)) = Ok (tt, e) /\
     ctx_queued e = 0%nat /\
     ctx_acquired e = 1%nat).
Proof.
  split.
  - eexists. split; [vm_compute; reflexivity|]. repeat split.
  - eexists. split; [vm_compute; reflexivity|]. repeat split.
Qed.


(** *** What a disconnect does in general *)

(** On a connected link (each lane Idle or Active) [ull_cp_disconnect]
    parks both lanes in Disconnected and drops the head of each queue, if
    there is one; the rest of each queue stays, and the pool is not
    touched. *)
Lemma ull_cp_disconnect_connected cfg e :
  lane_state (local (conn e)) = LR_STATE_IDLE \/
  lane_state (local (conn e)) = LR_STATE_ACTIVE ->
  lane_state (remote (conn e)) = RR_STATE_IDLE \/
  lane_state (remote (conn e)) = RR_STATE_ACTIVE ->
  ull_cp_disconnect cfg e =
    Ok (tt,
        upd_conn (fun c =>
          {| local := {| lane_state := LR_STATE_DISCONNECT;
                         pend_proc_list := tail (pend_proc_list (local c)) |};
             remote := {| lane_state := RR_STATE_DISCONNECT;
                          pend_proc_list := tail (pend_proc_list (remote c)) |};
             vex := vex c;
             tx_q := tx_q c |}) e).
Proof.
  intros Hl Hr.
  unfold ull_cp_disconnect, rr_disconnect, lr_disconnect, rr_execute_fsm, lr_execute_fsm,
    rr_st_idle, rr_st_active, lr_st_idle, lr_st_active, rr_act_disconnect,
    lr_act_disconnect, rr_dequeue, lr_dequeue, rr_set_state, lr_set_state.
  unfold_m.
  destruct e as [pool free ntx nntf rxq [[ls lq] [rs rq] vx txq]]; simpl in *.
  destruct Hl as [-> | ->], Hr as [-> | ->]; simpl;
    destruct rq, lq; reflexivity.
Qed.

(** *** No context goes back to the pool *)

#[local] Instance free_shrinks_preorder : PreOrder free_shrinks.
Proof.
  split.
  - intros e. split; reflexivity.
  - intros e1 e2 e3 [H1 H2] [H3 H4]. split; [congruence | etransitivity; eassumption].
Qed.

Ltac free_cases :=
  let e := fresh "e" in let a := fresh "a" in
  let e' := fresh "e'" in let H := fresh "H" in
  intros e a e' H; run_cases;
  (split; simpl; [rewrite ?length_insert; reflexivity | try reflexivity]).

Lemma ctx_upd_free ctx f : post (ctx_upd ctx f) free_shrinks.
Proof. free_cases. Qed.

Lemma tx_alloc_free : post tx_alloc free_shrinks.
Proof. unfold tx_alloc. free_cases. Qed.

Lemma ntf_alloc_free : post ntf_alloc free_shrinks.
Proof. unfold ntf_alloc. free_cases. Qed.

Lemma ll_rx_enqueue_free cfg rx : post (ll_rx_enqueue cfg rx) free_shrinks.
Proof. unfold ll_rx_enqueue. free_cases. Qed.

Lemma proc_ctx_acquire_free : post proc_ctx_acquire free_shrinks.
Proof.
  unfold proc_ctx_acquire, mem_acquire. free_cases.
  - apply suffix_nil.
  - match goal with Hf : mem_ctx_free _ = _ :: _ |- _ => rewrite Hf end.
    apply suffix_cons_r. reflexivity.
Qed.

#[local] Hint Extern 1 (post (ctx_upd _ _) _) => apply ctx_upd_free : free_db.
#[local] Hint Extern 1 (post tx_alloc _) => apply tx_alloc_free : free_db.
#[local] Hint Extern 1 (post ntf_alloc _) => apply ntf_alloc_free : free_db.
#[local] Hint Extern 1 (post (ll_rx_enqueue _ _) _) => apply ll_rx_enqueue_free : free_db.
#[local] Hint Extern 1 (post proc_ctx_acquire _) => apply proc_ctx_acquire_free : free_db.

(** A step that hands nothing back: it writes neither the pool nor the free
    list, or it is one of the above. *)
Ltac free_prim :=
  first [ apply post_modify; intros ?; split; reflexivity
        | solve [eauto with free_db] ].

Ltac free_auto := repeat post_step free_prim.

Lemma lr_execute_fsm_free cfg k evt param :
  post k free_shrinks -> post (lr_execute_fsm cfg k evt param) free_shrinks.
Proof.
  intros Hk.
  unfold lr_execute_fsm, lr_st_disconnect, lr_st_idle, lr_st_active,
    lr_act_complete, lr_act_connect, lr_act_disconnect, lr_act_run, lr_dequeue,
    lr_peek, lr_set_state, lp_comm_execute_fsm, lp_comm_st_idle, lp_comm_st_wait_tx,
    lp_comm_st_wait_rx, lp_comm_st_wait_ntf, lp_comm_rx_decode, lp_comm_send_req,
    lp_comm_complete, lp_comm_tx, lp_comm_ntf, pdu_decode_version_ind,
    ull_tx_enqueue, tx_alloc_peek, ntf_alloc_peek.
  free_auto.
Qed.

Lemma rr_execute_fsm_free cfg k evt param :
  post k free_shrinks -> post (rr_execute_fsm cfg k evt param) free_shrinks.
Proof.
  intros Hk.
  unfold rr_execute_fsm, rr_st_disconnect, rr_st_idle, rr_st_active,
    rr_act_complete, rr_act_connect, rr_act_disconnect, rr_act_run, rr_dequeue,
    rr_peek, rr_set_state, rp_comm_execute_fsm, rp_comm_st_idle, rp_comm_st_wait_tx,
    rp_comm_st_wait_rx, rp_comm_st_wait_ntf, rp_comm_rx_decode, rp_comm_send_rsp,
    rp_comm_tx, pdu_decode_version_ind, ull_tx_enqueue, tx_alloc_peek.
  free_auto.
Qed.

Lemma lr_complete_free cfg : post (lr_complete cfg) free_shrinks.
Proof. unfold lr_complete. apply lr_execute_fsm_free. apply post_fatal. Qed.

Lemma rr_complete_free cfg : post (rr_complete cfg) free_shrinks.
Proof. unfold rr_complete. apply rr_execute_fsm_free. apply post_fatal. Qed.

#[local] Hint Extern 1 (post (lr_complete _) _) => apply lr_complete_free : free_db.
#[local] Hint Extern 1 (post (rr_complete _) _) => apply rr_complete_free : free_db.
#[local] Hint Extern 1 (post (lr_execute_fsm _ _ _ _) _) =>
  apply lr_execute_fsm_free : free_db.
#[local] Hint Extern 1 (post (rr_execute_fsm _ _ _ _) _) =>
  apply rr_execute_fsm_free : free_db.

Lemma api_step_free cfg call :
  call <> Init -> post (api_step cfg call) free_shrinks.
Proof.
  destruct call; simpl; intros Hc; try contradiction.
  - unfold ull_cp_conn_init. free_auto.
  - unfold ull_cp_connect, rr_connect, lr_connect. free_auto.
  - unfold ull_cp_disconnect, rr_disconnect, lr_disconnect. free_auto.
  - unfold ull_cp_run, rr_run, lr_run. free_auto.
  - unfold ull_cp_version_exchange, create_procedure, lr_enqueue. free_auto.
  - unfold ull_cp_rx, rr_new, create_procedure, ctx_awaits, lr_peek, rr_peek, lr_rx,
      rr_rx, rr_enqueue, rr_run, lp_comm_execute_fsm, rp_comm_execute_fsm,
      lp_comm_st_idle, lp_comm_st_wait_tx, lp_comm_st_wait_rx, lp_comm_st_wait_ntf,
      lp_comm_rx_decode, lp_comm_send_req, lp_comm_complete, lp_comm_tx, lp_comm_ntf,
      rp_comm_st_idle, rp_comm_st_wait_tx, rp_comm_st_wait_rx, rp_comm_st_wait_ntf,
      rp_comm_rx_decode, rp_comm_send_rsp, rp_comm_tx, pdu_decode_version_ind,
      ull_tx_enqueue, tx_alloc_peek, ntf_alloc_peek.
    free_auto.
Qed.

(** Whatever the engine is asked to do after [ull_cp_init], the free list
    of the context pool only loses blocks: completion and disconnection
    never give one back, and the number of acquired blocks never falls. *)
Lemma context_never_released cfg calls e e' :
  Forall (fun call => call <> Init) calls ->
  api_run cfg calls e = Ok (tt, e') ->
  mem_ctx_free e' `suffix_of` mem_ctx_free e /\
  (ctx_acquired e <= ctx_acquired e')%nat.
Proof.
  intros Hc Hrun.
  assert (H : free_shrinks e e').
  { revert e Hrun. induction Hc as [|call calls Hcall _ IH]; simpl; intros e Hrun.
    - run_cases. reflexivity.
    - unfold mbind, M_bind in Hrun.
      destruct (api_step cfg call e) as [[[] e1]|] eqn:Hstep; [|discriminate].
      transitivity e1; [eapply api_step_free; eassumption | apply IH; exact Hrun]. }
  destruct H as [Hlen Hsuf]. split; [exact Hsuf|].
  apply suffix_length in Hsuf. unfold ctx_acquired. lia.
Qed.
(** ** Context pointers stay inside the pool *)

#[local] Instance wf_keep_preorder cfg : PreOrder (wf_keep cfg).
Proof.
  split.
  - intros e H. exact H.
  - intros e1 e2 e3 H12 H23 H. apply H23, H12, H.
Qed.

(** What keeps the pointers inside, shown by cases. *)
Ltac wf_cases :=
  let e := fresh "e" in let a := fresh "a" in let e' := fresh "e'" in
  let H := fresh "H" in
  intros e a e' H (Hlen & Hf & Hl & Hr); run_cases;
  unfold wf_cfg, engine_wf; simpl in *; rewrite ?length_insert;
  repeat match goal with
         | HF : Forall _ (_ :: _) |- _ => apply Forall_cons in HF as [? ?]
         end;
  repeat split; try assumption;
  try (match goal with
       | Hq : ?q = _ |- Forall _ ?q => rewrite Hq
       end; first [assumption | constructor]);
  try solve [constructor].

Lemma ctx_upd_wf cfg ctx f : post (ctx_upd ctx f) (wf_keep cfg).
Proof. wf_cases. Qed.

Lemma tx_alloc_wf cfg : post tx_alloc (wf_keep cfg).
Proof. unfold tx_alloc. wf_cases. Qed.

Lemma ntf_alloc_wf cfg : post ntf_alloc (wf_keep cfg).
Proof. unfold ntf_alloc. wf_cases. Qed.

Lemma ll_rx_enqueue_wf cfg rx : post (ll_rx_enqueue cfg rx) (wf_keep cfg).
Proof. unfold ll_rx_enqueue. wf_cases. Qed.

Lemma ull_tx_enqueue_wf cfg tx : post (ull_tx_enqueue tx) (wf_keep cfg).
Proof. unfold ull_tx_enqueue. wf_cases. Qed.

Lemma lr_dequeue_wf cfg : post lr_dequeue (wf_keep cfg).
Proof. unfold lr_dequeue. wf_cases. Qed.

Lemma rr_dequeue_wf cfg : post rr_dequeue (wf_keep cfg).
Proof. unfold rr_dequeue. wf_cases. Qed.

Lemma ull_cp_conn_init_wf cfg : post ull_cp_conn_init (wf_keep cfg).
Proof. unfold ull_cp_conn_init. wf_cases. Qed.

Lemma ull_cp_init_wf cfg : post (ull_cp_init cfg) (wf_keep cfg).
Proof.
  unfold ull_cp_init. wf_cases. repeat split; auto.
  unfold mem_init_free_list. apply Forall_forall. intros i Hi.
  apply elem_of_seq in Hi. lia.
Qed.

#[local] Hint Extern 1 (post (ctx_upd _ _) _) => apply ctx_upd_wf : wf_db.
#[local] Hint Extern 1 (post tx_alloc _) => apply tx_alloc_wf : wf_db.
#[local] Hint Extern 1 (post ntf_alloc _) => apply ntf_alloc_wf : wf_db.
#[local] Hint Extern 1 (post (ll_rx_enqueue _ _) _) => apply ll_rx_enqueue_wf : wf_db.
#[local] Hint Extern 1 (post (ull_tx_enqueue _) _) => apply ull_tx_enqueue_wf : wf_db.
#[local] Hint Extern 1 (post lr_dequeue _) => apply lr_dequeue_wf : wf_db.
#[local] Hint Extern 1 (post rr_dequeue _) => apply rr_dequeue_wf : wf_db.

(** A step that keeps the pointers inside: it does not write the free
    list, a queue or the size of the pool, or it is one of the above. *)
Ltac wf_prim :=
  first [ apply post_modify; intros ? ?; assumption
        | solve [eauto with wf_db] ].

Ltac wf_auto := repeat post_step wf_prim.

Lemma lr_execute_fsm_wf cfg k evt param :
  post k (wf_keep cfg) -> post (lr_execute_fsm cfg k evt param) (wf_keep cfg).
Proof.
  intros Hk.
  unfold lr_execute_fsm, lr_st_disconnect, lr_st_idle, lr_st_active,
    lr_act_complete, lr_act_connect, lr_act_disconnect, lr_act_run,
    lr_peek, lr_set_state, lp_comm_execute_fsm, lp_comm_st_idle, lp_comm_st_wait_tx,
    lp_comm_st_wait_rx, lp_comm_st_wait_ntf, lp_comm_rx_decode, lp_comm_send_req,
    lp_comm_complete, lp_comm_tx, lp_comm_ntf, pdu_decode_version_ind,
    tx_alloc_peek, ntf_alloc_peek.
  wf_auto.
Qed.

Lemma rr_execute_fsm_wf cfg k evt param :
  post k (wf_keep cfg) -> post (rr_execute_fsm cfg k evt param) (wf_keep cfg).
Proof.
  intros Hk.
  unfold rr_execute_fsm, rr_st_disconnect, rr_st_idle, rr_st_active,
    rr_act_complete, rr_act_connect, rr_act_disconnect, rr_act_run,
    rr_peek, rr_set_state, rp_comm_execute_fsm, rp_comm_st_idle, rp_comm_st_wait_tx,
    rp_comm_st_wait_rx, rp_comm_st_wait_ntf, rp_comm_rx_decode, rp_comm_send_rsp,
    rp_comm_tx, pdu_decode_version_ind, tx_alloc_peek.
  wf_auto.
Qed.

Lemma lr_complete_wf cfg : post (lr_complete cfg) (wf_keep cfg).
Proof. unfold lr_complete. apply lr_execute_fsm_wf. apply post_fatal. Qed.

Lemma rr_complete_wf cfg : post (rr_complete cfg) (wf_keep cfg).
Proof. unfold rr_complete. apply rr_execute_fsm_wf. apply post_fatal. Qed.

#[local] Hint Extern 1 (post (lr_complete _) _) => apply lr_complete_wf : wf_db.
#[local] Hint Extern 1 (post (rr_complete _) _) => apply rr_complete_wf : wf_db.
#[local] Hint Extern 1 (post (lr_execute_fsm _ _ _ _) _) =>
  apply lr_execute_fsm_wf : wf_db.
#[local] Hint Extern 1 (post (rr_execute_fsm _ _ _ _) _) =>
  apply rr_execute_fsm_wf : wf_db.

Lemma lp_comm_execute_fsm_wf cfg ctx evt param :
  post (lp_comm_execute_fsm cfg (lr_complete cfg) ctx evt param) (wf_keep cfg).
Proof.
  unfold lp_comm_execute_fsm, lp_comm_st_idle, lp_comm_st_wait_tx,
    lp_comm_st_wait_rx, lp_comm_st_wait_ntf, lp_comm_rx_decode, lp_comm_send_req,
    lp_comm_complete, lp_comm_tx, lp_comm_ntf, pdu_decode_version_ind,
    tx_alloc_peek, ntf_alloc_peek.
  wf_auto.
Qed.

Lemma rp_comm_execute_fsm_wf cfg ctx evt param :
  post (rp_comm_execute_fsm cfg (rr_complete cfg) ctx evt param) (wf_keep cfg).
Proof.
  unfold rp_comm_execute_fsm, rp_comm_st_idle, rp_comm_st_wait_tx,
    rp_comm_st_wait_rx, rp_comm_st_wait_ntf, rp_comm_rx_decode, rp_comm_send_rsp,
    rp_comm_tx, pdu_decode_version_ind, tx_alloc_peek.
  wf_auto.
Qed.

#[local] Hint Extern 1 (post (lp_comm_execute_fsm _ _ _ _ _) _) =>
  apply lp_comm_execute_fsm_wf : wf_db.
#[local] Hint Extern 1 (post (rp_comm_execute_fsm _ _ _ _ _) _) =>
  apply rp_comm_execute_fsm_wf : wf_db.

(** A freshly created context may be appended to either queue. *)
Lemma create_procedure_wf cfg proc0 e i e' :
  wf_cfg cfg e ->
  create_procedure proc0 e = Ok (Some i, e') ->
  wf_cfg cfg e' /\ (i < length (mem_ctx_pool e'))%nat.
Proof.
  intros (Hlen & Hf & Hl & Hr). rewrite create_procedure_spec.
  destruct (mem_ctx_free e) as [|j rest] eqn:Hfree; [discriminate|].
  apply Forall_cons in Hf as [Hj Hrest].
  destruct (mem_ctx_pool e !! j) as [c|]; [|discriminate].
  intros H. simplify_eq. unfold wf_cfg, engine_wf. simpl.
  rewrite length_insert. auto.
Qed.

Lemma create_procedure_none_wf cfg proc0 e e' :
  wf_cfg cfg e -> create_procedure proc0 e = Ok (None, e') -> wf_cfg cfg e'.
Proof.
  intros Hwf. rewrite create_procedure_spec.
  destruct (mem_ctx_free e) as [|j rest]; [intros H; simplify_eq; exact Hwf|].
  destruct (mem_ctx_pool e !! j); discriminate.
Qed.

Lemma ull_cp_version_exchange_wf cfg : post ull_cp_version_exchange (wf_keep cfg).
Proof.
  intros e st e' H Hwf. unfold ull_cp_version_exchange in H.
  unfold mbind, M_bind in H.
  destruct (create_procedure PROC_VERSION_EXCHANGE e) as [[[i|] e1]|] eqn:Hcp;
    [| |discriminate].
  - destruct (create_procedure_wf _ _ _ _ _ Hwf Hcp) as [(Hlen & Hf & Hl & Hr) Hi].
    unfold lr_enqueue in H. run_cases.
    unfold wf_cfg, engine_wf. simpl. repeat split; auto.
    apply Forall_app. split; [exact Hl | repeat constructor; exact Hi].
  - run_cases. eapply create_procedure_none_wf; eassumption.
Qed.

Lemma rr_new_wf cfg rx : post (rr_new cfg rx) (wf_keep cfg).
Proof.
  intros e a e' H Hwf. unfold rr_new in H.
  destruct (llctrl_opcode rx =? PDU_DATA_LLCTRL_TYPE_VERSION_IND); [|discriminate].
  unfold mbind at 1, M_bind at 1, mret at 1, M_ret at 1 in H.
  unfold mbind at 1, M_bind at 1 in H.
  destruct (create_procedure PROC_VERSION_EXCHANGE e) as [[[i|] e1]|] eqn:Hcp;
    [| |discriminate].
  - destruct (create_procedure_wf _ _ _ _ _ Hwf Hcp) as [(Hlen & Hf & Hl & Hr) Hi].
    unfold rr_enqueue in H. unfold mbind at 1, M_bind at 1, modify at 1 in H.
    revert H.
    match goal with
    | |- ?m ?e1 = _ -> _ => assert (Hm : post m (wf_keep cfg))
    end.
    { unfold rr_run, rr_peek, rr_rx. wf_auto. }
    intros H. apply (Hm _ _ _ H).
    unfold wf_cfg, engine_wf. simpl. repeat split; auto.
    apply Forall_app. split; [exact Hr | repeat constructor; exact Hi].
  - run_cases. eapply create_procedure_none_wf; eassumption.
Qed.

#[local] Hint Extern 1 (post ull_cp_version_exchange _) =>
  apply ull_cp_version_exchange_wf : wf_db.
#[local] Hint Extern 1 (post (rr_new _ _) _) => apply rr_new_wf : wf_db.
#[local] Hint Extern 1 (post (ull_cp_init _) _) => apply ull_cp_init_wf : wf_db.
#[local] Hint Extern 1 (post ull_cp_conn_init _) => apply ull_cp_conn_init_wf : wf_db.

Lemma api_step_wf cfg call : post (api_step cfg call) (wf_keep cfg).
Proof.
  destruct call; simpl.
  - auto with wf_db.
  - auto with wf_db.
  - unfold ull_cp_connect, rr_connect, lr_connect. wf_auto.
  - unfold ull_cp_disconnect, rr_disconnect, lr_disconnect. wf_auto.
  - unfold ull_cp_run, rr_run, lr_run. wf_auto.
  - wf_auto.
  - unfold ull_cp_rx, ctx_awaits, lr_peek, rr_peek, lr_rx, rr_rx. wf_auto.
Qed.

(** Every engine reached from boot through the API keeps its context
    pointers inside the pool, so the hypothesis [engine_wf] of the
    properties above holds wherever the engine can be observed. *)
Lemma engine_boot_wf cfg : wf_cfg cfg (engine_boot cfg).
Proof.
  unfold wf_cfg, engine_wf. simpl. rewrite length_replicate.
  repeat split; constructor.
Qed.

Lemma api_run_wf cfg calls e e' :
  wf_cfg cfg e -> api_run cfg calls e = Ok (tt, e') -> wf_cfg cfg e'.
Proof.
  revert e. induction calls as [|call calls IH]; simpl; intros e Hwf H.
  - run_cases. exact Hwf.
  - unfold mbind, M_bind in H.
    destruct (api_step cfg call e) as [[[] e1]|] eqn:Hstep; [|discriminate].
    apply (IH e1); [|exact H]. eapply api_step_wf; eassumption.
Qed.

Lemma api_reachable_wf cfg calls e :
  api_run cfg calls (engine_boot cfg) = Ok (tt, e) -> engine_wf e.
Proof. intros H. eapply api_run_wf; [apply engine_boot_wf | exact H]. Qed.

(** * Further properties of the engine *)

(** ** A peer's LL_VERSION_IND on an idle remote lane *)

(** The three ways of [ull_cp_rx], with the two tests decided. *)
Lemma ull_cp_rx_route cfg rx e :
  engine_wf e ->
  ull_cp_rx cfg rx e =
    if bool_decide (awaited (local (conn e)) e = Some (llctrl_opcode rx)) then
      match head (pend_proc_list (local (conn e))) with
      | Some i => lr_rx cfg (lr_complete cfg) i rx e
      | None => Fatal Bad_pointer
      end
    else if bool_decide (awaited (remote (conn e)) e = Some (llctrl_opcode rx)) then
      match head (pend_proc_list (remote (conn e))) with
      | Some j => rr_rx cfg (rr_complete cfg) j rx e
      | None => Fatal Bad_pointer
      end
    else rr_new cfg rx e.
Proof.
  intros (_ & Hl & Hr). unfold ull_cp_rx, lr_peek, rr_peek.
  unfold mbind at 1, M_bind at 1, gets at 1.
  unfold mbind at 1, M_bind at 1. rewrite (ctx_awaits_spec _ _ _ Hl).
  destruct (bool_decide (awaited (local (conn e)) e = _)).
  - unfold mbind, M_bind, deref.
    destruct (head (pend_proc_list (local (conn e)))); reflexivity.
  - unfold mbind at 1, M_bind at 1, gets at 1.
    unfold mbind at 1, M_bind at 1. rewrite (ctx_awaits_spec _ _ _ Hr).
    destruct (bool_decide (awaited (remote (conn e)) e = _)); [|reflexivity].
    unfold mbind, M_bind, deref.
    destruct (head (pend_proc_list (remote (conn e)))); reflexivity.
Qed.

(** [rr_new] on an LL_VERSION_IND when the remote lane is Idle with an empty
    queue and a context is free: the new context is run and handed the
    request in one go. *)
Lemma rr_new_idle cfg rx e i rest c :
  lane_state (remote (conn e)) = RR_STATE_IDLE ->
  pend_proc_list (remote (conn e)) = [] ->
  llctrl_opcode rx = PDU_DATA_LLCTRL_TYPE_VERSION_IND ->
  mem_ctx_free e = i :: rest ->
  mem_ctx_pool e !! i = Some c ->
  rr_new cfg rx e =
    rp_comm_send_rsp cfg (rr_complete cfg) i RP_COMMON_EVT_REQUEST (Some rx)
      {| mem_ctx_pool :=
           <[i := {| proc := PROC_VERSION_EXCHANGE; state := RP_COMMON_STATE_WAIT_RX;
                     opcode := opcode c; collision := 0; pause := 0 |}]> (mem_ctx_pool e);
         mem_ctx_free := rest;
         mem_tx_free := mem_tx_free e;
         mem_ntf_free := mem_ntf_free e;
         ll_rx_q := ll_rx_q e;
         conn := {| local := local (conn e);
                    remote := {| lane_state := RR_STATE_ACTIVE; pend_proc_list := [i] |};
                    vex := {| sent := sent (vex (conn e)); valid := 1;
                              cached :=
                                {| version_number := version_number (llctrl_version_ind rx);
                                   company_id :=
                                     sys_le16_to_cpu cfg (company_id (llctrl_version_ind rx));
                                   sub_version_number :=
                                     sys_le16_to_cpu cfg
                                       (sub_version_number (llctrl_version_ind rx)) |} |};
                    tx_q := tx_q (conn e) |} |}.
Proof.
  intros Hst Hq Hop Hfree Hc.
  assert (Hi : (i < length (mem_ctx_pool e))%nat) by (eapply lookup_lt_Some; eauto).
  destruct e as [pool free ntx nntf rxq [lo [rs rq] vx txq]]. simpl in *. subst.
  unfold rr_new. rewrite Hop. simpl.
  unfold mbind at 1, M_bind at 1. unfold mret at 1, M_ret at 1.
  unfold mbind at 1, M_bind at 1.
  rewrite create_procedure_spec. simpl. rewrite Hc.
  unfold rr_enqueue, rr_run, rr_execute_fsm, rr_st_idle, rr_peek, rr_act_run, rr_set_state,
    rr_rx, rp_comm_execute_fsm, rp_comm_st_idle, rp_comm_st_wait_rx, rp_comm_rx_decode,
    pdu_decode_version_ind.
  unfold_m. simpl.
  repeat (rewrite ?Hop, ?list_lookup_insert_eq, ?list_insert_insert_eq,
            ?length_insert by (rewrite ?length_insert; exact Hi); simpl).
  reflexivity.
Qed.

(** The cache after [pdu_decode_version_ind] has read [rx]. *)
Lemma rx_on_idle_remote_route cfg rx e :
  engine_wf e ->
  awaited (local (conn e)) e <> Some (llctrl_opcode rx) ->
  pend_proc_list (remote (conn e)) = [] ->
  ull_cp_rx cfg rx e = rr_new cfg rx e.
Proof.
  intros Hwf Hnl Hq. rewrite (ull_cp_rx_route _ _ _ Hwf).
  rewrite bool_decide_eq_false_2 by exact Hnl.
  rewrite bool_decide_eq_false_2; [reflexivity|].
  unfold awaited. rewrite Hq. discriminate.
Qed.

(** X1. A peer's LL_VERSION_IND that no local procedure awaits, arriving on
    an Idle remote lane with an empty queue while a context and a transmit
    node are free and our own LL_VERSION_IND has not been sent: the peer's
    values are cached with [valid] set, one PDU is appended to the transmit
    queue, [vex.sent] becomes 1, nothing goes to the host, and the remote
    lane is Idle with an empty queue again.  The PDU appended is our
    LL_VERSION_IND: a control PDU of length 6 with opcode 0x0C that carries
    the version number, the company id and the subversion number of the
    build, the two 16-bit values in little-endian order.  The context that
    was used stays out of the free list. *)
Theorem ull_cp_rx_remote_version_exchange cfg rx e i rest n :
  engine_wf e ->
  awaited (local (conn e)) e <> Some (llctrl_opcode rx) ->
  lane_state (remote (conn e)) = RR_STATE_IDLE ->
  pend_proc_list (remote (conn e)) = [] ->
  llctrl_opcode rx = PDU_DATA_LLCTRL_TYPE_VERSION_IND ->
  mem_ctx_free e = i :: rest ->
  sent (vex (conn e)) = 0 ->
  mem_tx_free e = S n ->
  ull_cp_rx cfg rx e =
    Ok (tt,
        {| mem_ctx_pool :=
             <[i := {| proc := PROC_VERSION_EXCHANGE; state := RP_COMMON_STATE_IDLE;
                       opcode := PDU_DATA_LLCTRL_TYPE_VERSION_IND;
                       collision := 0; pause := 0 |}]> (mem_ctx_pool e);
           mem_ctx_free := rest;
           mem_tx_free := n;
           mem_ntf_free := mem_ntf_free e;
           ll_rx_q := ll_rx_q e;
           conn := {| local := local (conn e);
                      remote := {| lane_state := RR_STATE_IDLE; pend_proc_list := [] |};
                      vex := {| sent := 1; valid := 1;
                                cached :=
                                  {| version_number := version_number (llctrl_version_ind rx);
                                     company_id :=
                                       sys_le16_to_cpu cfg (company_id (llctrl_version_ind rx));
                                     sub_version_number :=
                                       sys_le16_to_cpu cfg
                                         (sub_version_number (llctrl_version_ind rx)) |} |};
                      tx_q :=
                        tx_q (conn e) ++
                          [{| ll_id := PDU_DATA_LLID_CTRL;
                              len := 6;
                              llctrl_opcode := PDU_DATA_LLCTRL_TYPE_VERSION_IND;
                              llctrl_version_ind :=
                                {| version_number := u8 (LL_VERSION_NUMBER cfg);
                                   company_id :=
                                     sys_cpu_to_le16 cfg (u16 (ll_settings_company_id cfg));
                                   sub_version_number :=
                                     sys_cpu_to_le16 cfg
                                       (u16 (ll_settings_subversion_number cfg)) |} |}] |} |}).
Proof.
  intros Hwf Hnl Hst Hq Hop Hfree Hsent Htx.
  destruct Hwf as (Hf & Hl & Hr).
  assert (Hi : (i < length (mem_ctx_pool e))%nat).
  { rewrite Hfree in Hf. apply Forall_cons in Hf as [Hi _]. exact Hi. }
  destruct (lookup_lt_is_Some_2 _ _ Hi) as [c Hc].
  rewrite rx_on_idle_remote_route by (repeat split; assumption).
  rewrite (rr_new_idle cfg rx e i rest c) by assumption.
  unfold rp_comm_send_rsp, tx_alloc_peek, rp_comm_tx, tx_alloc, ull_tx_enqueue.
  unfold_m. simpl.
  repeat (rewrite ?Hsent, ?Htx, ?list_lookup_insert_eq, ?list_insert_insert_eq,
            ?length_insert by (rewrite ?length_insert; exact Hi); simpl).
  rewrite ?rr_complete_spec. simpl.
  repeat (rewrite ?list_lookup_insert_eq, ?list_insert_insert_eq,
            ?length_insert by (rewrite ?length_insert; exact Hi); simpl).
  reflexivity.
Qed.

Lemma ull_cp_rx_remote_version_exchange_witness :
  exists e',
    ull_cp_rx (cfg_sample 1) peer_version_ind engine_connected = Ok (tt, e') /\
    tx_q (conn e') =
      [{| ll_id := 0x03; len := 6; llctrl_opcode := 0x0C;
          llctrl_version_ind := {| version_number := 0x09; company_id := 0x05F1;
                                   sub_version_number := 0xFFFF |} |}] /\
    ll_rx_q e' = [] /\
    cached (vex (conn e')) = llctrl_version_ind peer_version_ind /\
    lane_state (remote (conn e')) = RR_STATE_IDLE /\
    pend_proc_list (remote (conn e')) = [] /\
    mem_ctx_free e' = [].
Proof.
  eexists. split.
  - apply (ull_cp_rx_remote_version_exchange (cfg_sample 1) peer_version_ind
             engine_connected 0%nat [] 0%nat);
      [exact engine_connected_wf | vm_compute; discriminate | reflexivity ..].
  - repeat split.
Defined.

(** X2. The same arrival when our LL_VERSION_IND has already been sent on
    the connection is the protocol error of [rp_comm_send_rsp]: the PDU is
    decoded and the engine stops in LL_ASSERT. *)
Theorem ull_cp_rx_version_ind_after_sent cfg rx e i rest :
  engine_wf e ->
  awaited (local (conn e)) e <> Some (llctrl_opcode rx) ->
  lane_state (remote (conn e)) = RR_STATE_IDLE ->
  pend_proc_list (remote (conn e)) = [] ->
  llctrl_opcode rx = PDU_DATA_LLCTRL_TYPE_VERSION_IND ->
  mem_ctx_free e = i :: rest ->
  sent (vex (conn e)) <> 0 ->
  ull_cp_rx cfg rx e = Fatal LL_ASSERT_failed.
Proof.
  intros Hwf Hnl Hst Hq Hop Hfree Hsent.
  destruct Hwf as (Hf & Hl & Hr).
  assert (Hi : (i < length (mem_ctx_pool e))%nat).
  { rewrite Hfree in Hf. apply Forall_cons in Hf as [Hi _]. exact Hi. }
  destruct (lookup_lt_is_Some_2 _ _ Hi) as [c Hc].
  rewrite rx_on_idle_remote_route by (repeat split; assumption).
  rewrite (rr_new_idle cfg rx e i rest c) by assumption.
  apply Z.eqb_neq in Hsent.
  unfold rp_comm_send_rsp. unfold_m. simpl.
  repeat (rewrite ?Hsent, ?list_lookup_insert_eq,
            ?length_insert by (rewrite ?length_insert; exact Hi); simpl).
  reflexivity.
Qed.

(** X3. The same arrival with [vex.sent] clear but no transmit node free:
    nothing is transmitted, the peer's values are cached, and the new
    context is left parked in WaitTx at the head of the remote lane, which
    stays Active. *)
Theorem ull_cp_rx_remote_no_tx cfg rx e i rest :
  engine_wf e ->
  awaited (local (conn e)) e <> Some (llctrl_opcode rx) ->
  lane_state (remote (conn e)) = RR_STATE_IDLE ->
  pend_proc_list (remote (conn e)) = [] ->
  llctrl_opcode rx = PDU_DATA_LLCTRL_TYPE_VERSION_IND ->
  mem_ctx_free e = i :: rest ->
  sent (vex (conn e)) = 0 ->
  mem_tx_free e = 0%nat ->
  exists c,
    mem_ctx_pool e !! i = Some c /\
    ull_cp_rx cfg rx e =
      Ok (tt,
          {| mem_ctx_pool :=
               <[i := {| proc := PROC_VERSION_EXCHANGE; state := RP_COMMON_STATE_WAIT_TX;
                         opcode := opcode c; collision := 0; pause := 0 |}]> (mem_ctx_pool e);
             mem_ctx_free := rest;
             mem_tx_free := 0;
             mem_ntf_free := mem_ntf_free e;
             ll_rx_q := ll_rx_q e;
             conn := {| local := local (conn e);
                        remote := {| lane_state := RR_STATE_ACTIVE; pend_proc_list := [i] |};
                        vex := {| sent := 0; valid := 1;
                                  cached :=
                                    {| version_number := version_number (llctrl_version_ind rx);
                                       company_id :=
                                         sys_le16_to_cpu cfg (company_id (llctrl_version_ind rx));
                                       sub_version_number :=
                                         sys_le16_to_cpu cfg
                                           (sub_version_number (llctrl_version_ind rx)) |} |};
                        tx_q := tx_q (conn e) |} |}).
Proof.
  intros Hwf Hnl Hst Hq Hop Hfree Hsent Htx.
  destruct Hwf as (Hf & Hl & Hr).
  assert (Hi : (i < length (mem_ctx_pool e))%nat).
  { rewrite Hfree in Hf. apply Forall_cons in Hf as [Hi _]. exact Hi. }
  destruct (lookup_lt_is_Some_2 _ _ Hi) as [c Hc].
  exists c. split; [exact Hc|].
  rewrite rx_on_idle_remote_route by (repeat split; assumption).
  rewrite (rr_new_idle cfg rx e i rest c) by assumption.
  unfold rp_comm_send_rsp, tx_alloc_peek.
  unfold_m. simpl.
  repeat (rewrite ?Hsent, ?Htx, ?list_lookup_insert_eq, ?list_insert_insert_eq,
            ?length_insert by (rewrite ?length_insert; exact Hi); simpl).
  reflexivity.
Qed.

Lemma engine_exchanged_reached :
  api_run (cfg_sample 2)
    [Init; Conn_init; Connect; Version_exchange; Run; Rx peer_version_ind]
    (engine_boot (cfg_sample 2)) = Ok (tt, engine_exchanged).
Proof. vm_compute. reflexivity. Qed.

Lemma engine_exchanged_wf : engine_wf engine_exchanged.
Proof. repeat split; repeat constructor. Defined.

Lemma engine_connected_tx0_wf : engine_wf (set_mem_tx_free 0 engine_connected).
Proof. repeat split; repeat constructor. Defined.

Lemma ull_cp_rx_version_ind_after_sent_witness :
  sent (vex (conn engine_exchanged)) = 1 /\
  ull_cp_rx (cfg_sample 2) peer_version_ind engine_exchanged = Fatal LL_ASSERT_failed.
Proof.
  split; [reflexivity|].
  apply (ull_cp_rx_version_ind_after_sent (cfg_sample 2) peer_version_ind
           engine_exchanged 1%nat []);
    [exact engine_exchanged_wf | vm_compute; discriminate | reflexivity | reflexivity
    | reflexivity | reflexivity | vm_compute; discriminate].
Defined.

Lemma ull_cp_rx_remote_no_tx_witness :
  exists c e',
    mem_ctx_pool (set_mem_tx_free 0 engine_connected) !! 0%nat = Some c /\
    ull_cp_rx (cfg_sample 1) peer_version_ind (set_mem_tx_free 0 engine_connected) =
      Ok (tt, e') /\
    tx_q (conn e') = [] /\
    pend_proc_list (remote (conn e')) = [0%nat] /\
    (state <$> mem_ctx_pool e' !! 0%nat) = Some RP_COMMON_STATE_WAIT_TX.
Proof.
  destruct (ull_cp_rx_remote_no_tx (cfg_sample 1) peer_version_ind
              (set_mem_tx_free 0 engine_connected) 0%nat [])
    as (c & Hc & Hrx);
    [exact engine_connected_tx0_wf | vm_compute; discriminate | reflexivity ..|].
  exists c. eexists. split; [exact Hc|]. split; [exact Hrx|].
  repeat split.
Defined.

(** ** The response to a local version exchange *)

Lemma sys_cpu_le16_roundtrip cfg x :
  0 <= x < 2 ^ 16 -> sys_cpu_to_le16 cfg (sys_le16_to_cpu cfg x) = x.
Proof. apply sys_le16_roundtrip. Qed.

(** [ull_cp_rx] when the head context of the local lane awaits the opcode. *)
Lemma rx_on_awaiting_local_route cfg rx e ctx q c :
  pend_proc_list (local (conn e)) = ctx :: q ->
  mem_ctx_pool e !! ctx = Some c ->
  opcode c = llctrl_opcode rx ->
  ull_cp_rx cfg rx e = lr_rx cfg (lr_complete cfg) ctx rx e.
Proof.
  intros Hq Hc Hop. unfold ull_cp_rx, lr_peek, ctx_awaits. unfold_m.
  rewrite Hq. simpl. rewrite Hc, Hop, Z.eqb_refl. reflexivity.
Qed.

(** X4. The peer's LL_VERSION_IND arrives while the head context of the
    Active local lane waits for it in WaitRx and a notification node is
    free: the peer's values are cached with [valid] set, one notification is
    handed to the host whose payload is the received payload octet for
    octet, the context is dequeued and the local lane is Idle.  Nothing is
    transmitted and the context does not go back to the free list. *)
Theorem ull_cp_rx_local_response cfg rx e ctx q c n :
  lane_state (local (conn e)) = LR_STATE_ACTIVE ->
  pend_proc_list (local (conn e)) = ctx :: q ->
  mem_ctx_pool e !! ctx = Some c ->
  proc c = PROC_VERSION_EXCHANGE ->
  state c = LP_COMMON_STATE_WAIT_RX ->
  opcode c = PDU_DATA_LLCTRL_TYPE_VERSION_IND ->
  llctrl_opcode rx = PDU_DATA_LLCTRL_TYPE_VERSION_IND ->
  0 <= company_id (llctrl_version_ind rx) < 2 ^ 16 ->
  0 <= sub_version_number (llctrl_version_ind rx) < 2 ^ 16 ->
  mem_ntf_free e = S n ->
  ull_cp_rx cfg rx e =
    Ok (tt,
        {| mem_ctx_pool := <[ctx := set_state LP_COMMON_STATE_IDLE c]> (mem_ctx_pool e);
           mem_ctx_free := mem_ctx_free e;
           mem_tx_free := mem_tx_free e;
           mem_ntf_free := n;
           ll_rx_q :=
             if ULL_LLCP_UNITTEST cfg
             then ll_rx_q e ++
                    [{| ll_id := PDU_DATA_LLID_CTRL; len := 6;
                        llctrl_opcode := PDU_DATA_LLCTRL_TYPE_VERSION_IND;
                        llctrl_version_ind := llctrl_version_ind rx |}]
             else ll_rx_q e;
           conn := {| local := {| lane_state := LR_STATE_IDLE; pend_proc_list := q |};
                      remote := remote (conn e);
                      vex := {| sent := sent (vex (conn e)); valid := 1;
                                cached :=
                                  {| version_number := version_number (llctrl_version_ind rx);
                                     company_id :=
                                       sys_le16_to_cpu cfg (company_id (llctrl_version_ind rx));
                                     sub_version_number :=
                                       sys_le16_to_cpu cfg
                                         (sub_version_number (llctrl_version_ind rx)) |} |};
                      tx_q := tx_q (conn e) |} |}).
Proof.
  intros Hst Hq Hc Hproc Hcst Hcop Hop Hcid Hsvn Hntf.
  assert (Hi : (ctx < length (mem_ctx_pool e))%nat) by (eapply lookup_lt_Some; eauto).
  rewrite (rx_on_awaiting_local_route cfg rx e ctx q c) by congruence.
  destruct e as [pool free ntx nntf rxq [[ls lq] re vx txq]]. simpl in *. subst.
  unfold lr_rx, lp_comm_execute_fsm, lp_comm_st_wait_rx, lp_comm_rx_decode,
    pdu_decode_version_ind, lp_comm_complete, ntf_alloc_peek, lp_comm_ntf, ntf_alloc,
    ll_rx_enqueue, ntf_encode_version_ind.
  unfold_m. simpl.
  repeat (rewrite ?Hc, ?Hcst, ?Hop, ?Hproc; simpl).
  rewrite !sys_cpu_le16_roundtrip by assumption.
  destruct (llctrl_version_ind rx) as [ver cid svn] eqn:Hvi. simpl.
  destruct (ULL_LLCP_UNITTEST cfg); simpl;
    rewrite ?lr_complete_spec; simpl; rewrite ?Hc; reflexivity.
Qed.

Lemma ull_cp_rx_local_response_witness :
  exists e',
    ull_cp_rx (cfg_sample 1) peer_version_ind engine_requested = Ok (tt, e') /\
    ll_rx_q e' = [peer_version_ind] /\
    cached (vex (conn e')) = llctrl_version_ind peer_version_ind /\
    lane_state (local (conn e')) = LR_STATE_IDLE /\
    pend_proc_list (local (conn e')) = [] /\
    tx_q (conn e') = tx_q (conn engine_requested) /\
    mem_ctx_free e' = [].
Proof.
  eexists. split.
  - apply (ull_cp_rx_local_response (cfg_sample 1) peer_version_ind engine_requested
             0%nat []
             {| proc := 1; state := 2; opcode := 12; collision := 0; pause := 0 |} 0%nat);
      try reflexivity; simpl; lia.
  - repeat split.
Defined.

(** X5. The same arrival when no notification node is free: the peer's
    values are cached with [valid] set, but nothing is handed to the host;
    the context is parked in WaitNtf and stays at the head of the local
    lane, which stays Active. *)
Theorem ull_cp_rx_local_response_no_ntf cfg rx e ctx q c :
  pend_proc_list (local (conn e)) = ctx :: q ->
  mem_ctx_pool e !! ctx = Some c ->
  proc c = PROC_VERSION_EXCHANGE ->
  state c = LP_COMMON_STATE_WAIT_RX ->
  opcode c = PDU_DATA_LLCTRL_TYPE_VERSION_IND ->
  llctrl_opcode rx = PDU_DATA_LLCTRL_TYPE_VERSION_IND ->
  mem_ntf_free e = 0%nat ->
  ull_cp_rx cfg rx e =
    Ok (tt,
        {| mem_ctx_pool := <[ctx := set_state LP_COMMON_STATE_WAIT_NTF c]> (mem_ctx_pool e);
           mem_ctx_free := mem_ctx_free e;
           mem_tx_free := mem_tx_free e;
           mem_ntf_free := 0;
           ll_rx_q := ll_rx_q e;
           conn := {| local := local (conn e);
                      remote := remote (conn e);
                      vex := {| sent := sent (vex (conn e)); valid := 1;
                                cached :=
                                  {| version_number := version_number (llctrl_version_ind rx);
                                     company_id :=
                                       sys_le16_to_cpu cfg (company_id (llctrl_version_ind rx));
                                     sub_version_number :=
                                       sys_le16_to_cpu cfg
                                         (sub_version_number (llctrl_version_ind rx)) |} |};
                      tx_q := tx_q (conn e) |} |}).
Proof.
  intros Hq Hc Hproc Hcst Hcop Hop Hntf.
  rewrite (rx_on_awaiting_local_route cfg rx e ctx q c) by congruence.
  destruct e as [pool free ntx nntf rxq [lo re vx txq]]. simpl in *. subst.
  unfold lr_rx, lp_comm_execute_fsm, lp_comm_st_wait_rx, lp_comm_rx_decode,
    pdu_decode_version_ind, lp_comm_complete, ntf_alloc_peek.
  unfold_m. simpl.
  repeat (rewrite ?Hc, ?Hcst, ?Hop, ?Hproc; simpl).
  reflexivity.
Qed.

Lemma ull_cp_rx_local_response_no_ntf_witness :
  exists e',
    ull_cp_rx (cfg_sample 1) peer_version_ind (set_mem_ntf_free 0 engine_requested) =
      Ok (tt, e') /\
    ll_rx_q e' = [] /\
    valid (vex (conn e')) = 1 /\
    lane_state (local (conn e')) = LR_STATE_ACTIVE /\
    pend_proc_list (local (conn e')) = [0%nat] /\
    (state <$> mem_ctx_pool e' !! 0%nat) = Some LP_COMMON_STATE_WAIT_NTF.
Proof.
  eexists. split.
  - apply (ull_cp_rx_local_response_no_ntf (cfg_sample 1) peer_version_ind
             (set_mem_ntf_free 0 engine_requested) 0%nat []
             {| proc := 1; state := 2; opcode := 12; collision := 0; pause := 0 |});
      reflexivity.
  - repeat split.
Defined.

(** ** A parked local procedure *)

(** An Active local lane ignores Run. *)
Lemma lr_run_active cfg e :
  lane_state (local (conn e)) = LR_STATE_ACTIVE -> lr_run cfg e = Ok (tt, e).
Proof.
  intros Hst. unfold lr_run, lr_execute_fsm. unfold_m. rewrite Hst. reflexivity.
Qed.

(** A remote lane that has nothing to start ignores Run. *)
Lemma rr_run_quiet cfg e :
  lane_state (remote (conn e)) = RR_STATE_IDLE /\ pend_proc_list (remote (conn e)) = [] \/
  lane_state (remote (conn e)) = RR_STATE_ACTIVE \/
  lane_state (remote (conn e)) = RR_STATE_DISCONNECT ->
  rr_run cfg e = Ok (tt, e).
Proof.
  unfold rr_run, rr_execute_fsm, rr_st_idle, rr_peek. unfold_m.
  intros [[-> Hq] | [-> | ->]]; simpl; [rewrite Hq|..]; reflexivity.
Qed.

(** X6. A local procedure parked in WaitTx or WaitNtf is never resumed.
    While it is at the head of the Active local lane and the remote lane has
    nothing to start, every sequence of [ull_cp_run] calls and of received
    PDUs with the opcode the context awaits leaves the engine exactly as it
    is, also after the transmit and notification pools have been
    refilled. *)
Theorem parked_local_procedure_stays cfg e ctx q c ntx nntf calls :
  lane_state (local (conn e)) = LR_STATE_ACTIVE ->
  pend_proc_list (local (conn e)) = ctx :: q ->
  mem_ctx_pool e !! ctx = Some c ->
  state c = LP_COMMON_STATE_WAIT_TX \/ state c = LP_COMMON_STATE_WAIT_NTF ->
  lane_state (remote (conn e)) = RR_STATE_IDLE /\ pend_proc_list (remote (conn e)) = [] \/
  lane_state (remote (conn e)) = RR_STATE_ACTIVE \/
  lane_state (remote (conn e)) = RR_STATE_DISCONNECT ->
  Forall (fun call => call = Run \/
                      exists rx, call = Rx rx /\ llctrl_opcode rx = opcode c) calls ->
  api_run cfg calls (set_mem_ntf_free nntf (set_mem_tx_free ntx e)) =
    Ok (tt, set_mem_ntf_free nntf (set_mem_tx_free ntx e)).
Proof.
  intros Hst Hq Hc Hpark Hrem Hcalls.
  set (e1 := set_mem_ntf_free nntf (set_mem_tx_free ntx e)).
  induction Hcalls as [|call calls Hcall _ IH]; [reflexivity|].
  simpl. unfold mbind, M_bind.
  replace (api_step cfg call e1) with (Ok (tt, e1) : result (unit * engine)); [exact IH|].
  symmetry. destruct Hcall as [-> | (rx & -> & Hop)]; simpl.
  - unfold ull_cp_run, mbind, M_bind.
    rewrite (rr_run_quiet cfg e1) by exact Hrem.
    apply lr_run_active. exact Hst.
  - rewrite (rx_on_awaiting_local_route cfg rx e1 ctx q c) by (auto; congruence).
    unfold lr_rx, lp_comm_execute_fsm. unfold_m. simpl. rewrite Hc.
    destruct Hpark as [-> | ->]; reflexivity.
Qed.

Lemma engine_tx_parked_reached :
  api_run (cfg_sample 1) [Version_exchange; Run] (set_mem_tx_free 0 engine_connected) =
    Ok (tt, engine_tx_parked).
Proof. vm_compute. reflexivity. Qed.

Lemma parked_local_procedure_stays_witness :
  (state <$> mem_ctx_pool engine_tx_parked !! 0%nat) = Some LP_COMMON_STATE_WAIT_TX /\
  api_run (cfg_sample 1) [Run; Rx peer_conn_update_ind; Run]
    (set_mem_ntf_free 1 (set_mem_tx_free 5 engine_tx_parked)) =
    Ok (tt, set_mem_ntf_free 1 (set_mem_tx_free 5 engine_tx_parked)).
Proof.
  split; [reflexivity|].
  apply (parked_local_procedure_stays (cfg_sample 1) engine_tx_parked 0%nat []
           {| proc := 1; state := 1; opcode := 0; collision := 0; pause := 0 |}
           5%nat 1%nat).
  - reflexivity.
  - reflexivity.
  - reflexivity.
  - left. reflexivity.
  - left. split; reflexivity.
  - apply Forall_cons. split; [left; reflexivity|].
    apply Forall_cons. split; [right; eexists; split; reflexivity|].
    apply Forall_cons. split; [left; reflexivity | constructor].
Defined.

(** ** The notification codec *)

(** X7. The notification built from the cached peer record is a control PDU
    with the LL_VERSION_IND opcode and length 6; whatever the byte order of
    the CPU its payload octets are the cached version followed by the
    cached company id and subversion, low octet first; and decoding it gives
    the cached record back. *)
Theorem ntf_encode_version_ind_wire cfg (c : ull_cp_conn) pdu0 e :
  0 <= company_id (cached (vex c)) < 2 ^ 16 ->
  0 <= sub_version_number (cached (vex c)) < 2 ^ 16 ->
  let pdu := ntf_encode_version_ind cfg c pdu0 in
  ll_id pdu = PDU_DATA_LLID_CTRL /\
  len pdu = 6 /\
  llctrl_opcode pdu = PDU_DATA_LLCTRL_TYPE_VERSION_IND /\
  version_ind_octets cfg (llctrl_version_ind pdu) =
    [version_number (cached (vex c));
     Z.land (company_id (cached (vex c))) 0xff;
     Z.shiftr (company_id (cached (vex c))) 8;
     Z.land (sub_version_number (cached (vex c))) 0xff;
     Z.shiftr (sub_version_number (cached (vex c))) 8] /\
  exists e',
    pdu_decode_version_ind cfg pdu e = Ok (tt, e') /\
    valid (vex (conn e')) = 1 /\
    cached (vex (conn e')) = cached (vex c).
Proof.
  intros Hcid Hsvn pdu. repeat split.
  - unfold pdu, ntf_encode_version_ind, version_ind_octets. simpl.
    rewrite !u16_octets_le by assumption. reflexivity.
  - eexists. split; [reflexivity|]. split; [reflexivity|].
    unfold pdu, ntf_encode_version_ind. simpl.
    rewrite !sys_le16_roundtrip by assumption.
    destruct (cached (vex c)); reflexivity.
Qed.

Lemma ntf_encode_version_ind_wire_witness :
  let c := conn engine_exchanged in
  let pdu := ntf_encode_version_ind cfg_sample_be c pdu_blank in
  version_ind_octets cfg_sample_be (llctrl_version_ind pdu) =
    [0x0A; 0x34; 0x12; 0x78; 0x56] /\
  exists e',
    pdu_decode_version_ind cfg_sample_be pdu (engine_boot cfg_sample_be) = Ok (tt, e') /\
    cached (vex (conn e')) = cached (vex c).
Proof.
  intros c pdu.
  destruct (ntf_encode_version_ind_wire cfg_sample_be c pdu_blank
              (engine_boot cfg_sample_be))
    as (_ & _ & _ & Hoct & e' & Hdec & _ & Hc); [simpl; lia | simpl; lia |].
  split; [exact Hoct|]. exists e'. split; [exact Hdec | exact Hc].
Defined.

(** ** Transmit nodes and notification nodes *)

#[local] Instance tx_extends_preorder cfg : PreOrder (tx_extends cfg).
Proof.
  split.
  - intros e. exists []. rewrite app_nil_r. repeat split; [simpl; lia | constructor].
  - intros e1 e2 e3 (l1 & Hq1 & Hn1 & Hl1) (l2 & Hq2 & Hn2 & Hl2).
    exists (l1 ++ l2). rewrite Hq2, Hq1, app_assoc, length_app.
    repeat split; [lia | apply Forall_app; split; assumption].
Qed.

#[local] Instance ntf_extends_preorder : PreOrder ntf_extends.
Proof.
  split.
  - intros e. exists []. rewrite app_nil_r. repeat split; [simpl; lia | constructor].
  - intros e1 e2 e3 (l1 & Hq1 & Hn1 & Hl1) (l2 & Hq2 & Hn2 & Hl2).
    exists (l1 ++ l2). rewrite Hq2, Hq1, app_assoc, length_app.
    repeat split; [lia | apply Forall_app; split; assumption].
Qed.

Lemma tx_extends_same cfg e e' :
  tx_q (conn e') = tx_q (conn e) -> mem_tx_free e' = mem_tx_free e -> tx_extends cfg e e'.
Proof.
  intros Hq Hn. exists []. rewrite app_nil_r, Hq, Hn.
  repeat split; [simpl; lia | constructor].
Qed.

Lemma ntf_extends_same e e' :
  ll_rx_q e' = ll_rx_q e -> mem_ntf_free e' = mem_ntf_free e -> ntf_extends e e'.
Proof.
  intros Hq Hn. exists []. rewrite app_nil_r, Hq, Hn.
  repeat split; [simpl; lia | constructor].
Qed.

Ltac tx_cases :=
  let e := fresh "e" in let a := fresh "a" in
  let e' := fresh "e'" in let H := fresh "H" in
  intros e a e' H; run_cases; apply tx_extends_same; reflexivity.

Ltac ntf_cases :=
  let e := fresh "e" in let a := fresh "a" in
  let e' := fresh "e'" in let H := fresh "H" in
  intros e a e' H; run_cases; apply ntf_extends_same; reflexivity.

Lemma ctx_upd_tx cfg ctx f : post (ctx_upd ctx f) (tx_extends cfg).
Proof. tx_cases. Qed.

Lemma ntf_alloc_tx cfg : post ntf_alloc (tx_extends cfg).
Proof. unfold ntf_alloc. tx_cases. Qed.

Lemma ll_rx_enqueue_tx cfg rx : post (ll_rx_enqueue cfg rx) (tx_extends cfg).
Proof. unfold ll_rx_enqueue. tx_cases. Qed.

Lemma proc_ctx_acquire_tx cfg : post proc_ctx_acquire (tx_extends cfg).
Proof. unfold proc_ctx_acquire, mem_acquire. tx_cases. Qed.

Lemma lp_comm_tx_tx cfg ctx : post (lp_comm_tx cfg ctx) (tx_extends cfg).
Proof.
  unfold lp_comm_tx, tx_alloc, ull_tx_enqueue. intros e a e' H. run_cases.
  exists [pdu_encode_version_ind cfg pdu_blank]. simpl.
  split; [reflexivity|]. split; [lia|]. repeat constructor.
Qed.

Lemma rp_comm_tx_tx cfg ctx : post (rp_comm_tx cfg ctx) (tx_extends cfg).
Proof.
  unfold rp_comm_tx, tx_alloc, ull_tx_enqueue. intros e a e' H. run_cases.
  exists [pdu_encode_version_ind cfg pdu_blank]. simpl.
  split; [reflexivity|]. split; [lia|]. repeat constructor.
Qed.

#[local] Hint Extern 1 (post (ctx_upd _ _) _) => apply ctx_upd_tx : tx_db.
#[local] Hint Extern 1 (post ntf_alloc _) => apply ntf_alloc_tx : tx_db.
#[local] Hint Extern 1 (post (ll_rx_enqueue _ _) _) => apply ll_rx_enqueue_tx : tx_db.
#[local] Hint Extern 1 (post proc_ctx_acquire _) => apply proc_ctx_acquire_tx : tx_db.
#[local] Hint Extern 1 (post (lp_comm_tx _ _) _) => apply lp_comm_tx_tx : tx_db.
#[local] Hint Extern 1 (post (rp_comm_tx _ _) _) => apply rp_comm_tx_tx : tx_db.

(** A step that keeps [tx_extends]: it leaves the transmit queue and the
    transmit pool alone, or it is one of the above. *)
Ltac tx_prim :=
  first [ apply post_modify; intros ?; apply tx_extends_same; reflexivity
        | solve [eauto with tx_db] ].

Ltac tx_auto := repeat post_step tx_prim.

Lemma lr_execute_fsm_tx cfg k evt param :
  post k (tx_extends cfg) -> post (lr_execute_fsm cfg k evt param) (tx_extends cfg).
Proof.
  intros Hk.
  unfold lr_execute_fsm, lr_st_disconnect, lr_st_idle, lr_st_active,
    lr_act_complete, lr_act_connect, lr_act_disconnect, lr_act_run, lr_dequeue,
    lr_peek, lr_set_state, lp_comm_execute_fsm, lp_comm_st_idle, lp_comm_st_wait_tx,
    lp_comm_st_wait_rx, lp_comm_st_wait_ntf, lp_comm_rx_decode, lp_comm_send_req,
    lp_comm_complete, lp_comm_ntf, pdu_decode_version_ind, tx_alloc_peek, ntf_alloc_peek.
  tx_auto.
Qed.

Lemma rr_execute_fsm_tx cfg k evt param :
  post k (tx_extends cfg) -> post (rr_execute_fsm cfg k evt param) (tx_extends cfg).
Proof.
  intros Hk.
  unfold rr_execute_fsm, rr_st_disconnect, rr_st_idle, rr_st_active,
    rr_act_complete, rr_act_connect, rr_act_disconnect, rr_act_run, rr_dequeue,
    rr_peek, rr_set_state, rp_comm_execute_fsm, rp_comm_st_idle, rp_comm_st_wait_tx,
    rp_comm_st_wait_rx, rp_comm_st_wait_ntf, rp_comm_rx_decode, rp_comm_send_rsp,
    pdu_decode_version_ind, tx_alloc_peek.
  tx_auto.
Qed.

Lemma lr_complete_tx cfg : post (lr_complete cfg) (tx_extends cfg).
Proof. unfold lr_complete. apply lr_execute_fsm_tx. apply post_fatal. Qed.

Lemma rr_complete_tx cfg : post (rr_complete cfg) (tx_extends cfg).
Proof. unfold rr_complete. apply rr_execute_fsm_tx. apply post_fatal. Qed.

#[local] Hint Extern 1 (post (lr_complete _) _) => apply lr_complete_tx : tx_db.
#[local] Hint Extern 1 (post (rr_complete _) _) => apply rr_complete_tx : tx_db.
#[local] Hint Extern 1 (post (lr_execute_fsm _ _ _ _) _) =>
  apply lr_execute_fsm_tx : tx_db.
#[local] Hint Extern 1 (post (rr_execute_fsm _ _ _ _) _) =>
  apply rr_execute_fsm_tx : tx_db.

Lemma api_step_tx cfg call :
  call <> Init -> post (api_step cfg call) (tx_extends cfg).
Proof.
  destruct call; simpl; intros Hc; try contradiction.
  - unfold ull_cp_conn_init. tx_auto.
  - unfold ull_cp_connect, rr_connect, lr_connect. tx_auto.
  - unfold ull_cp_disconnect, rr_disconnect, lr_disconnect. tx_auto.
  - unfold ull_cp_run, rr_run, lr_run. tx_auto.
  - unfold ull_cp_version_exchange, create_procedure, lr_enqueue. tx_auto.
  - unfold ull_cp_rx, rr_new, create_procedure, ctx_awaits, lr_peek, rr_peek, lr_rx,
      rr_rx, rr_enqueue, rr_run, lp_comm_execute_fsm, rp_comm_execute_fsm,
      lp_comm_st_idle, lp_comm_st_wait_tx, lp_comm_st_wait_rx, lp_comm_st_wait_ntf,
      lp_comm_rx_decode, lp_comm_send_req, lp_comm_complete, lp_comm_ntf,
      rp_comm_st_idle, rp_comm_st_wait_tx, rp_comm_st_wait_rx, rp_comm_st_wait_ntf,
      rp_comm_rx_decode, rp_comm_send_rsp, pdu_decode_version_ind,
      tx_alloc_peek, ntf_alloc_peek.
    tx_auto.
Qed.

Lemma api_run_post cfg (R : engine -> engine -> Prop) `{!PreOrder R}
    (ok : api_call -> Prop) calls :
  (forall call, ok call -> post (api_step cfg call) R) ->
  Forall ok calls -> post (api_run cfg calls) R.
Proof.
  intros Hstep Hcalls. induction Hcalls as [|call calls Hcall _ IH]; simpl.
  - apply post_ret. apply _.
  - apply post_bind; [apply _ | apply Hstep; exact Hcall | intros _; exact IH].
Qed.

(** X8. Between two calls of [ull_cp_init] the transmit side of a
    connection is conserved.  Over any sequence of the other API calls made
    on one connection, with no call for another connection in between (the
    transmit pool is shared, the transmit queue is not), the transmit queue
    of the connection only grows at its tail, every PDU appended is a
    control PDU of length 6 with opcode LL_VERSION_IND that carries the
    version number, company id and subversion number of the build, and the
    transmit pool has lost exactly one node per PDU appended.  In particular
    nothing is transmitted while the pool has no free node. *)
Theorem tx_nodes_conserved cfg calls e e' :
  Forall (fun call => call <> Init) calls ->
  api_run cfg calls e = Ok (tt, e') ->
  (exists l,
     tx_q (conn e') = tx_q (conn e) ++ l /\
     mem_tx_free e = (mem_tx_free e' + length l)%nat /\
     Forall (fun pdu =>
               ll_id pdu = PDU_DATA_LLID_CTRL /\
               len pdu = 6 /\
               llctrl_opcode pdu = PDU_DATA_LLCTRL_TYPE_VERSION_IND /\
               llctrl_version_ind pdu =
                 {| version_number := u8 (LL_VERSION_NUMBER cfg);
                    company_id := sys_cpu_to_le16 cfg (u16 (ll_settings_company_id cfg));
                    sub_version_number :=
                      sys_cpu_to_le16 cfg (u16 (ll_settings_subversion_number cfg)) |}) l) /\
  (mem_tx_free e = 0%nat -> tx_q (conn e') = tx_q (conn e)).
Proof.
  intros Hcalls Hrun.
  assert (H : tx_extends cfg e e').
  { eapply (api_run_post cfg (tx_extends cfg) (fun call => call <> Init));
      [intros call Hc; apply api_step_tx; exact Hc | exact Hcalls | exact Hrun]. }
  split; [exact H|].
  destruct H as (l & Hq & Hn & _). intros H0.
  destruct l; [rewrite Hq, app_nil_r; reflexivity | simpl in Hn; lia].
Qed.

Lemma tx_nodes_conserved_witness :
  exists e',
    api_run (cfg_sample 1) [Version_exchange; Run; Rx peer_version_ind; Disconnect; Run]
      engine_connected = Ok (tt, e') /\
    (exists l, tx_q (conn e') = tx_q (conn engine_connected) ++ l /\
               mem_tx_free engine_connected = (mem_tx_free e' + length l)%nat /\
               Forall (fun pdu => llctrl_opcode pdu = 0x0C) l) /\
    length (tx_q (conn e')) = 1%nat.
Proof.
  destruct (api_run (cfg_sample 1)
              [Version_exchange; Run; Rx peer_version_ind; Disconnect; Run]
              engine_connected) as [[[] e']|f] eqn:Hrun;
    [|vm_compute in Hrun; discriminate].
  exists e'. split; [reflexivity|].
  destruct (tx_nodes_conserved (cfg_sample 1)
              [Version_exchange; Run; Rx peer_version_ind; Disconnect; Run]
              engine_connected e') as [(l & Hq & Hn & Hl) _];
    [repeat constructor; discriminate | exact Hrun |].
  split.
  - exists l. split; [exact Hq|]. split; [exact Hn|].
    eapply Forall_impl; [exact Hl|]. intros pdu (_ & _ & Hop & _). exact Hop.
  - vm_compute in Hrun. injection Hrun as <-. reflexivity.
Defined.

Lemma ctx_upd_ntf ctx f : post (ctx_upd ctx f) ntf_extends.
Proof. ntf_cases. Qed.

Lemma tx_alloc_ntf : post tx_alloc ntf_extends.
Proof. unfold tx_alloc. ntf_cases. Qed.

Lemma proc_ctx_acquire_ntf : post proc_ctx_acquire ntf_extends.
Proof. unfold proc_ctx_acquire, mem_acquire. ntf_cases. Qed.

Lemma lp_comm_ntf_ntf cfg ctx :
  ULL_LLCP_UNITTEST cfg = true -> post (lp_comm_ntf cfg ctx) ntf_extends.
Proof.
  intros Hut. unfold lp_comm_ntf, ntf_alloc, ll_rx_enqueue. rewrite Hut.
  intros e a e' H. run_cases.
  eexists [_]. simpl. repeat split; [lia | repeat constructor].
Qed.

#[local] Hint Extern 1 (post (ctx_upd _ _) _) => apply ctx_upd_ntf : ntf_db.
#[local] Hint Extern 1 (post tx_alloc _) => apply tx_alloc_ntf : ntf_db.
#[local] Hint Extern 1 (post proc_ctx_acquire _) => apply proc_ctx_acquire_ntf : ntf_db.
#[local] Hint Extern 1 (post (lp_comm_ntf _ _) _) =>
  apply lp_comm_ntf_ntf; assumption : ntf_db.

(** A step that keeps [ntf_extends]: it leaves the host queue and the
    notification pool alone, or it is one of the above. *)
Ltac ntf_prim :=
  first [ apply post_modify; intros ?; apply ntf_extends_same; reflexivity
        | solve [eauto with ntf_db] ].

Ltac ntf_auto := repeat post_step ntf_prim.

Lemma lr_execute_fsm_ntf cfg k evt param :
  ULL_LLCP_UNITTEST cfg = true ->
  post k ntf_extends -> post (lr_execute_fsm cfg k evt param) ntf_extends.
Proof.
  intros Hut Hk.
  unfold lr_execute_fsm, lr_st_disconnect, lr_st_idle, lr_st_active,
    lr_act_complete, lr_act_connect, lr_act_disconnect, lr_act_run, lr_dequeue,
    lr_peek, lr_set_state, lp_comm_execute_fsm, lp_comm_st_idle, lp_comm_st_wait_tx,
    lp_comm_st_wait_rx, lp_comm_st_wait_ntf, lp_comm_rx_decode, lp_comm_send_req,
    lp_comm_complete, lp_comm_tx, pdu_decode_version_ind, ull_tx_enqueue,
    tx_alloc_peek, ntf_alloc_peek.
  ntf_auto.
Qed.

Lemma rr_execute_fsm_ntf cfg k evt param :
  post k ntf_extends -> post (rr_execute_fsm cfg k evt param) ntf_extends.
Proof.
  intros Hk.
  unfold rr_execute_fsm, rr_st_disconnect, rr_st_idle, rr_st_active,
    rr_act_complete, rr_act_connect, rr_act_disconnect, rr_act_run, rr_dequeue,
    rr_peek, rr_set_state, rp_comm_execute_fsm, rp_comm_st_idle, rp_comm_st_wait_tx,
    rp_comm_st_wait_rx, rp_comm_st_wait_ntf, rp_comm_rx_decode, rp_comm_send_rsp,
    rp_comm_tx, pdu_decode_version_ind, ull_tx_enqueue, tx_alloc_peek.
  ntf_auto.
Qed.

Lemma lr_complete_ntf cfg : post (lr_complete cfg) ntf_extends.
Proof.
  unfold lr_complete, lr_execute_fsm, lr_st_disconnect, lr_st_idle, lr_st_active,
    lr_act_complete, lr_act_connect, lr_act_disconnect, lr_act_run, lr_dequeue,
    lr_peek, lr_set_state; simpl.
  ntf_auto.
Qed.

Lemma rr_complete_ntf cfg : post (rr_complete cfg) ntf_extends.
Proof. unfold rr_complete. apply rr_execute_fsm_ntf. apply post_fatal. Qed.

#[local] Hint Extern 1 (post (lr_complete _) _) => apply lr_complete_ntf : ntf_db.
#[local] Hint Extern 1 (post (rr_complete _) _) => apply rr_complete_ntf : ntf_db.
#[local] Hint Extern 1 (post (lr_execute_fsm _ _ _ _) _) =>
  apply lr_execute_fsm_ntf; [assumption|] : ntf_db.
#[local] Hint Extern 1 (post (rr_execute_fsm _ _ _ _) _) =>
  apply rr_execute_fsm_ntf : ntf_db.

Lemma api_step_ntf cfg call :
  ULL_LLCP_UNITTEST cfg = true ->
  call <> Init -> post (api_step cfg call) ntf_extends.
Proof.
  intros Hut. destruct call; simpl; intros Hc; try contradiction.
  - unfold ull_cp_conn_init. ntf_auto.
  - unfold ull_cp_connect, rr_connect, lr_connect. ntf_auto.
  - unfold ull_cp_disconnect, rr_disconnect, lr_disconnect. ntf_auto.
  - unfold ull_cp_run, rr_run, lr_run. ntf_auto.
  - unfold ull_cp_version_exchange, create_procedure, lr_enqueue. ntf_auto.
  - unfold ull_cp_rx, rr_new, create_procedure, ctx_awaits, lr_peek, rr_peek, lr_rx,
      rr_rx, rr_enqueue, rr_run, lp_comm_execute_fsm, rp_comm_execute_fsm,
      lp_comm_st_idle, lp_comm_st_wait_tx, lp_comm_st_wait_rx, lp_comm_st_wait_ntf,
      lp_comm_rx_decode, lp_comm_send_req, lp_comm_complete, lp_comm_tx,
      rp_comm_st_idle, rp_comm_st_wait_tx, rp_comm_st_wait_rx, rp_comm_st_wait_ntf,
      rp_comm_rx_decode, rp_comm_send_rsp, rp_comm_tx, pdu_decode_version_ind,
      ull_tx_enqueue, tx_alloc_peek, ntf_alloc_peek.
    ntf_auto.
Qed.

(** X9. In a unit-test build, where [ll_rx_enqueue] appends to the host
    queue, the host side is conserved between two calls of [ull_cp_init]:
    over any sequence of the other API calls the host queue only grows at
    its tail, every notification appended is a control PDU with the
    LL_VERSION_IND opcode, and the notification pool has lost exactly one
    node per notification.  In particular nothing is handed to the host
    while the pool has no free node. *)
Theorem ntf_nodes_conserved cfg calls e e' :
  ULL_LLCP_UNITTEST cfg = true ->
  Forall (fun call => call <> Init) calls ->
  api_run cfg calls e = Ok (tt, e') ->
  (exists l,
     ll_rx_q e' = ll_rx_q e ++ l /\
     mem_ntf_free e = (mem_ntf_free e' + length l)%nat /\
     Forall (fun pdu => ll_id pdu = PDU_DATA_LLID_CTRL /\
                        llctrl_opcode pdu = PDU_DATA_LLCTRL_TYPE_VERSION_IND) l) /\
  (mem_ntf_free e = 0%nat -> ll_rx_q e' = ll_rx_q e).
Proof.
  intros Hut Hcalls Hrun.
  assert (H : ntf_extends e e').
  { eapply (api_run_post cfg ntf_extends (fun call => call <> Init));
      [intros call Hc; apply api_step_ntf; assumption | exact Hcalls | exact Hrun]. }
  split; [exact H|].
  destruct H as (l & Hq & Hn & _). intros H0.
  destruct l; [rewrite Hq, app_nil_r; reflexivity | simpl in Hn; lia].
Qed.

Lemma ntf_nodes_conserved_witness :
  exists e',
    api_run (cfg_sample 1) [Version_exchange; Run; Rx peer_version_ind; Disconnect; Run]
      engine_connected = Ok (tt, e') /\
    (exists l, ll_rx_q e' = ll_rx_q engine_connected ++ l /\
               mem_ntf_free engine_connected = (mem_ntf_free e' + length l)%nat) /\
    ll_rx_q e' = [peer_version_ind].
Proof.
  destruct (api_run (cfg_sample 1)
              [Version_exchange; Run; Rx peer_version_ind; Disconnect; Run]
              engine_connected) as [[[] e']|f] eqn:Hrun;
    [|vm_compute in Hrun; discriminate].
  exists e'. split; [reflexivity|].
  destruct (ntf_nodes_conserved (cfg_sample 1)
              [Version_exchange; Run; Rx peer_version_ind; Disconnect; Run]
              engine_connected e')
    as [(l & Hq & Hn & _) _];
    [reflexivity | repeat constructor; discriminate | exact Hrun |].
  split; [exists l; split; assumption|].
  vm_compute in Hrun. injection Hrun as <-. reflexivity.
Defined.

(** ** The invariant of the engine *)

#[local] Instance inv_keep_preorder cfg : PreOrder (inv_keep cfg).
Proof.
  split.
  - intros e H. exact H.
  - intros e1 e2 e3 H12 H23 H. apply H23, H12, H.
Qed.

Lemma queue_good_insert e q ctx c' :
  (forall c, mem_ctx_pool e !! ctx = Some c -> ctx_good c -> ctx_good c') ->
  queue_good e q ->
  queue_good (set_mem_ctx_pool (<[ctx := c']> (mem_ctx_pool e)) e) q.
Proof.
  intros Hc Hq. unfold queue_good in *. simpl.
  eapply Forall_impl; [exact Hq|]. intros i (c & Hi & Hg). simpl in *.
  destruct (decide (i = ctx)) as [->|Hne].
  - exists c'. split; [|eapply Hc; eassumption].
    apply list_lookup_insert_eq. eapply lookup_lt_Some. eassumption.
  - exists c. split; [|exact Hg]. rewrite list_lookup_insert_ne by congruence. exact Hi.
Qed.

Lemma ctx_upd_inv cfg ctx f :
  (forall c, ctx_good c -> ctx_good (f c)) -> post (ctx_upd ctx f) (inv_keep cfg).
Proof.
  intros Hf e a e' H (Hlen & Hfree & Hl & Hr & Hls & Hrs). run_cases.
  unfold engine_inv. simpl. rewrite length_insert.
  repeat split; try assumption; try lia;
    apply queue_good_insert; try assumption; intros c0 Hc0 Hg; simplify_eq; auto.
Qed.

Ltac inv_cases :=
  let e := fresh "e" in let a := fresh "a" in let e' := fresh "e'" in
  let H := fresh "H" in
  intros e a e' H (Hlen & Hfree & Hl & Hr & Hls & Hrs); run_cases;
  unfold engine_inv, queue_good in *; simpl in *;
  repeat match goal with
         | HF : Forall _ (_ :: _) |- _ => apply Forall_cons in HF as [? ?]
         end;
  repeat split; try assumption; try lia;
  try (match goal with
       | Hq : ?q = _ |- Forall _ ?q => rewrite Hq
       end; first [assumption | constructor]);
  try solve [constructor].

Lemma tx_alloc_inv cfg : post tx_alloc (inv_keep cfg).
Proof. unfold tx_alloc. inv_cases. Qed.

Lemma ntf_alloc_inv cfg : post ntf_alloc (inv_keep cfg).
Proof. unfold ntf_alloc. inv_cases. Qed.

Lemma ll_rx_enqueue_inv cfg rx : post (ll_rx_enqueue cfg rx) (inv_keep cfg).
Proof. unfold ll_rx_enqueue. inv_cases. Qed.

Lemma ull_tx_enqueue_inv cfg tx : post (ull_tx_enqueue tx) (inv_keep cfg).
Proof. unfold ull_tx_enqueue. inv_cases. Qed.

Lemma lr_dequeue_inv cfg : post lr_dequeue (inv_keep cfg).
Proof. unfold lr_dequeue. inv_cases. Qed.

Lemma rr_dequeue_inv cfg : post rr_dequeue (inv_keep cfg).
Proof. unfold rr_dequeue. inv_cases. Qed.

Lemma lr_set_state_inv cfg s : 0 <= s <= 2 -> post (lr_set_state s) (inv_keep cfg).
Proof. intros Hs. unfold lr_set_state. inv_cases. Qed.

Lemma rr_set_state_inv cfg s : 0 <= s <= 2 -> post (rr_set_state s) (inv_keep cfg).
Proof. intros Hs. unfold rr_set_state. inv_cases. Qed.

Lemma pdu_decode_version_ind_inv cfg pdu : post (pdu_decode_version_ind cfg pdu) (inv_keep cfg).
Proof. unfold pdu_decode_version_ind. inv_cases. Qed.

Lemma ull_cp_conn_init_inv cfg : post ull_cp_conn_init (inv_keep cfg).
Proof. unfold ull_cp_conn_init. inv_cases; vm_compute; discriminate. Qed.

Lemma ull_cp_init_inv cfg : post (ull_cp_init cfg) (inv_keep cfg).
Proof.
  unfold ull_cp_init. inv_cases.
  unfold mem_init_free_list. apply Forall_forall. intros i Hi.
  apply elem_of_seq in Hi. lia.
Qed.

Lemma set_state_good s c : 0 <= s <= 3 -> ctx_good c -> ctx_good (set_state s c).
Proof. intros Hs (Hp & _ & Hc & Hpa). repeat split; simpl; auto; lia. Qed.

Lemma set_opcode_good v c : ctx_good c -> ctx_good (set_opcode v c).
Proof. intros (Hp & Hs & Hc & Hpa). repeat split; simpl; auto; lia. Qed.

#[local] Hint Extern 1 (post (ctx_upd _ (set_state _)) _) =>
  apply ctx_upd_inv; intros ? ?; apply set_state_good;
  [vm_compute; split; discriminate | assumption] : inv_db.
#[local] Hint Extern 1 (post (ctx_upd _ (set_opcode _)) _) =>
  apply ctx_upd_inv; intros ? ?; apply set_opcode_good; assumption : inv_db.
#[local] Hint Extern 1 (post tx_alloc _) => apply tx_alloc_inv : inv_db.
#[local] Hint Extern 1 (post ntf_alloc _) => apply ntf_alloc_inv : inv_db.
#[local] Hint Extern 1 (post (ll_rx_enqueue _ _) _) => apply ll_rx_enqueue_inv : inv_db.
#[local] Hint Extern 1 (post (ull_tx_enqueue _) _) => apply ull_tx_enqueue_inv : inv_db.
#[local] Hint Extern 1 (post lr_dequeue _) => apply lr_dequeue_inv : inv_db.
#[local] Hint Extern 1 (post rr_dequeue _) => apply rr_dequeue_inv : inv_db.
#[local] Hint Extern 1 (post (lr_set_state _) _) =>
  apply lr_set_state_inv; vm_compute; split; discriminate : inv_db.
#[local] Hint Extern 1 (post (rr_set_state _) _) =>
  apply rr_set_state_inv; vm_compute; split; discriminate : inv_db.
#[local] Hint Extern 1 (post (pdu_decode_version_ind _ _) _) =>
  apply pdu_decode_version_ind_inv : inv_db.

(** A step that keeps the invariant: it writes [vex.sent] only, or it is
    one of the above. *)
Ltac inv_prim :=
  first [ apply post_modify; intros ? ?; assumption
        | solve [eauto with inv_db] ].

Ltac inv_auto := repeat post_step inv_prim.

Lemma lr_execute_fsm_inv cfg k evt param :
  post k (inv_keep cfg) -> post (lr_execute_fsm cfg k evt param) (inv_keep cfg).
Proof.
  intros Hk.
  unfold lr_execute_fsm, lr_st_disconnect, lr_st_idle, lr_st_active,
    lr_act_complete, lr_act_connect, lr_act_disconnect, lr_act_run,
    lr_peek, lp_comm_execute_fsm, lp_comm_st_idle, lp_comm_st_wait_tx,
    lp_comm_st_wait_rx, lp_comm_st_wait_ntf, lp_comm_rx_decode, lp_comm_send_req,
    lp_comm_complete, lp_comm_tx, lp_comm_ntf, tx_alloc_peek, ntf_alloc_peek.
  inv_auto.
Qed.

Lemma rr_execute_fsm_inv cfg k evt param :
  post k (inv_keep cfg) -> post (rr_execute_fsm cfg k evt param) (inv_keep cfg).
Proof.
  intros Hk.
  unfold rr_execute_fsm, rr_st_disconnect, rr_st_idle, rr_st_active,
    rr_act_complete, rr_act_connect, rr_act_disconnect, rr_act_run,
    rr_peek, rp_comm_execute_fsm, rp_comm_st_idle, rp_comm_st_wait_tx,
    rp_comm_st_wait_rx, rp_comm_st_wait_ntf, rp_comm_rx_decode, rp_comm_send_rsp,
    rp_comm_tx, tx_alloc_peek.
  inv_auto.
Qed.

Lemma lr_complete_inv cfg : post (lr_complete cfg) (inv_keep cfg).
Proof. unfold lr_complete. apply lr_execute_fsm_inv. apply post_fatal. Qed.

Lemma rr_complete_inv cfg : post (rr_complete cfg) (inv_keep cfg).
Proof. unfold rr_complete. apply rr_execute_fsm_inv. apply post_fatal. Qed.

#[local] Hint Extern 1 (post (lr_complete _) _) => apply lr_complete_inv : inv_db.
#[local] Hint Extern 1 (post (rr_complete _) _) => apply rr_complete_inv : inv_db.
#[local] Hint Extern 1 (post (lr_execute_fsm _ _ _ _) _) =>
  apply lr_execute_fsm_inv : inv_db.
#[local] Hint Extern 1 (post (rr_execute_fsm _ _ _ _) _) =>
  apply rr_execute_fsm_inv : inv_db.

Lemma lp_comm_execute_fsm_inv cfg ctx evt param :
  post (lp_comm_execute_fsm cfg (lr_complete cfg) ctx evt param) (inv_keep cfg).
Proof.
  unfold lp_comm_execute_fsm, lp_comm_st_idle, lp_comm_st_wait_tx,
    lp_comm_st_wait_rx, lp_comm_st_wait_ntf, lp_comm_rx_decode, lp_comm_send_req,
    lp_comm_complete, lp_comm_tx, lp_comm_ntf, tx_alloc_peek, ntf_alloc_peek.
  inv_auto.
Qed.

Lemma rp_comm_execute_fsm_inv cfg ctx evt param :
  post (rp_comm_execute_fsm cfg (rr_complete cfg) ctx evt param) (inv_keep cfg).
Proof.
  unfold rp_comm_execute_fsm, rp_comm_st_idle, rp_comm_st_wait_tx,
    rp_comm_st_wait_rx, rp_comm_st_wait_ntf, rp_comm_rx_decode, rp_comm_send_rsp,
    rp_comm_tx, tx_alloc_peek.
  inv_auto.
Qed.

#[local] Hint Extern 1 (post (lp_comm_execute_fsm _ _ _ _ _) _) =>
  apply lp_comm_execute_fsm_inv : inv_db.
#[local] Hint Extern 1 (post (rp_comm_execute_fsm _ _ _ _ _) _) =>
  apply rp_comm_execute_fsm_inv : inv_db.

(** A freshly created context is a good one and may be appended to either
    queue. *)
Lemma create_procedure_inv cfg e i e' :
  engine_inv cfg e ->
  create_procedure PROC_VERSION_EXCHANGE e = Ok (Some i, e') ->
  engine_inv cfg e' /\
  exists c, mem_ctx_pool e' !! i = Some c /\ ctx_good c.
Proof.
  intros (Hlen & Hf & Hl & Hr & Hls & Hrs). rewrite create_procedure_spec.
  destruct (mem_ctx_free e) as [|j rest] eqn:Hfree; [discriminate|].
  apply Forall_cons in Hf as [Hj Hrest].
  destruct (mem_ctx_pool e !! j) as [c|] eqn:Hc; [|discriminate].
  intros H. simplify_eq.
  assert (Hg : ctx_good {| proc := PROC_VERSION_EXCHANGE; state := LP_COMMON_STATE_IDLE;
                           opcode := opcode c; collision := 0; pause := 0 |}).
  { repeat split; simpl; try reflexivity; vm_compute; discriminate. }
  split.
  - unfold engine_inv. simpl. rewrite length_insert.
    repeat split; try assumption; try lia.
    + apply (queue_good_insert (set_mem_ctx_free rest e)); [intros; exact Hg | exact Hl].
    + apply (queue_good_insert (set_mem_ctx_free rest e)); [intros; exact Hg | exact Hr].
  - eexists. split; [|exact Hg]. simpl. apply list_lookup_insert_eq. exact Hj.
Qed.

Lemma create_procedure_none_inv cfg proc0 e e' :
  engine_inv cfg e -> create_procedure proc0 e = Ok (None, e') -> engine_inv cfg e'.
Proof.
  intros Hinv. rewrite create_procedure_spec.
  destruct (mem_ctx_free e) as [|j rest]; [intros H; simplify_eq; exact Hinv|].
  destruct (mem_ctx_pool e !! j); discriminate.
Qed.

Lemma ull_cp_version_exchange_inv cfg : post ull_cp_version_exchange (inv_keep cfg).
Proof.
  intros e st e' H Hinv. unfold ull_cp_version_exchange in H.
  unfold mbind, M_bind in H.
  destruct (create_procedure PROC_VERSION_EXCHANGE e) as [[[i|] e1]|] eqn:Hcp;
    [| |discriminate].
  - destruct (create_procedure_inv _ _ _ _ Hinv Hcp)
      as [(Hlen & Hf & Hl & Hr & Hls & Hrs) Hi].
    unfold lr_enqueue in H. run_cases.
    unfold engine_inv, queue_good. simpl. repeat split; try assumption; try lia.
    apply Forall_app. split; [exact Hl | repeat constructor; exact Hi].
  - run_cases. eapply create_procedure_none_inv; eassumption.
Qed.

Lemma rr_new_inv cfg rx : post (rr_new cfg rx) (inv_keep cfg).
Proof.
  intros e a e' H Hinv. unfold rr_new in H.
  destruct (llctrl_opcode rx =? PDU_DATA_LLCTRL_TYPE_VERSION_IND); [|discriminate].
  unfold mbind at 1, M_bind at 1, mret at 1, M_ret at 1 in H.
  unfold mbind at 1, M_bind at 1 in H.
  destruct (create_procedure PROC_VERSION_EXCHANGE e) as [[[i|] e1]|] eqn:Hcp;
    [| |discriminate].
  - destruct (create_procedure_inv _ _ _ _ Hinv Hcp)
      as [(Hlen & Hf & Hl & Hr & Hls & Hrs) Hi].
    unfold rr_enqueue in H. unfold mbind at 1, M_bind at 1, modify at 1 in H.
    revert H.
    match goal with
    | |- ?m ?e1 = _ -> _ => assert (Hm : post m (inv_keep cfg))
    end.
    { unfold rr_run, rr_peek, rr_rx. inv_auto. }
    intros H. apply (Hm _ _ _ H).
    unfold engine_inv, queue_good. simpl. repeat split; try assumption; try lia.
    apply Forall_app. split; [exact Hr | repeat constructor; exact Hi].
  - run_cases. eapply create_procedure_none_inv; eassumption.
Qed.

#[local] Hint Extern 1 (post ull_cp_version_exchange _) =>
  apply ull_cp_version_exchange_inv : inv_db.
#[local] Hint Extern 1 (post (rr_new _ _) _) => apply rr_new_inv : inv_db.
#[local] Hint Extern 1 (post (ull_cp_init _) _) => apply ull_cp_init_inv : inv_db.
#[local] Hint Extern 1 (post ull_cp_conn_init _) => apply ull_cp_conn_init_inv : inv_db.

Lemma ull_cp_rx_inv cfg rx : post (ull_cp_rx cfg rx) (inv_keep cfg).
Proof. unfold ull_cp_rx, ctx_awaits, lr_peek, rr_peek, lr_rx, rr_rx. inv_auto. Qed.

Lemma api_step_inv cfg call : post (api_step cfg call) (inv_keep cfg).
Proof.
  destruct call; simpl.
  - auto with inv_db.
  - auto with inv_db.
  - unfold ull_cp_connect, rr_connect, lr_connect. inv_auto.
  - unfold ull_cp_disconnect, rr_disconnect, lr_disconnect. inv_auto.
  - unfold ull_cp_run, rr_run, lr_run. inv_auto.
  - inv_auto.
  - apply ull_cp_rx_inv.
Qed.

Lemma engine_boot_inv cfg : engine_inv cfg (engine_boot cfg).
Proof.
  unfold engine_inv, queue_good. simpl. rewrite length_replicate.
  repeat split; try constructor; vm_compute; discriminate.
Qed.

Lemma api_run_inv cfg calls e e' :
  engine_inv cfg e -> api_run cfg calls e = Ok (tt, e') -> engine_inv cfg e'.
Proof.
  intros Hinv Hrun.
  eapply (api_run_post cfg (inv_keep cfg) (fun _ => True));
    [intros call _; apply api_step_inv | apply Forall_true; auto | exact Hrun | exact Hinv].
Qed.

Lemma api_run_started cfg calls :
  api_run cfg (Init :: Conn_init :: calls) (engine_boot cfg) =
    api_run cfg calls (api_final cfg [Init; Conn_init]).
Proof. reflexivity. Qed.

Lemma api_final_started_inv cfg : engine_inv cfg (api_final cfg [Init; Conn_init]).
Proof.
  apply (api_run_inv cfg [Init; Conn_init] (engine_boot cfg)); [apply engine_boot_inv|].
  reflexivity.
Qed.

(** X10. In a build with at least one block in each pool, once the pools
    and the connection have been initialised, whatever sequence of API
    calls without another [ull_cp_init] has brought the engine to where it
    is, every context in either queue is a version-exchange context in one
    of the four states of its procedure FSM with [pause] and [collision]
    clear, every context pointer of the queues and of the free list points
    into the pool, and each lane is Idle, Active or Disconnected.  In
    particular no such run ever sets [pause]: the branches that test it are
    not taken. *)
Theorem reachable_engine_invariant cfg calls e :
  build_ok cfg ->
  Forall (fun call => call <> Init) calls ->
  api_run cfg (Init :: Conn_init :: calls) (engine_boot cfg) = Ok (tt, e) ->
  (forall i, i ∈ pend_proc_list (local (conn e)) ++ pend_proc_list (remote (conn e)) ->
     exists c, mem_ctx_pool e !! i = Some c /\
               proc c = PROC_VERSION_EXCHANGE /\
               0 <= state c <= 3 /\ collision c = 0 /\ pause c = 0) /\
  (forall i, i ∈ mem_ctx_free e -> (i < PROC_CTX_BUF_NUM cfg)%nat) /\
  length (mem_ctx_pool e) = PROC_CTX_BUF_NUM cfg /\
  (lane_state (local (conn e)) = LR_STATE_IDLE \/
   lane_state (local (conn e)) = LR_STATE_ACTIVE \/
   lane_state (local (conn e)) = LR_STATE_DISCONNECT) /\
  (lane_state (remote (conn e)) = RR_STATE_IDLE \/
   lane_state (remote (conn e)) = RR_STATE_ACTIVE \/
   lane_state (remote (conn e)) = RR_STATE_DISCONNECT).
Proof.
  intros _ _ Hrun.
  destruct (api_run_inv cfg _ _ _ (engine_boot_inv cfg) Hrun)
    as (Hlen & Hf & Hl & Hr & Hls & Hrs).
  repeat split.
  - intros i Hi. apply elem_of_app in Hi as [Hi|Hi].
    + unfold queue_good in Hl. rewrite Forall_forall in Hl. apply Hl, Hi.
    + unfold queue_good in Hr. rewrite Forall_forall in Hr. apply Hr, Hi.
  - intros i Hi. rewrite Forall_forall in Hf. rewrite <- Hlen. apply Hf, Hi.
  - exact Hlen.
  - unfold LR_STATE_IDLE, LR_STATE_ACTIVE, LR_STATE_DISCONNECT. lia.
  - unfold RR_STATE_IDLE, RR_STATE_ACTIVE, RR_STATE_DISCONNECT. lia.
Qed.

Lemma build_ok_sample : build_ok (cfg_sample 1).
Proof. unfold build_ok. simpl. lia. Qed.

Lemma reachable_engine_invariant_witness :
  exists c,
    mem_ctx_pool engine_requested !! 0%nat = Some c /\
    proc c = PROC_VERSION_EXCHANGE /\ 0 <= state c <= 3 /\
    collision c = 0 /\ pause c = 0.
Proof.
  destruct (reachable_engine_invariant (cfg_sample 1)
              [Connect; Version_exchange; Run] engine_requested)
    as [Hq _];
    [exact build_ok_sample | repeat constructor; discriminate
    | exact engine_requested_reached |].
  apply (Hq 0%nat). vm_compute. repeat constructor.
Defined.

(** ** Where the engine can stop *)

Lemma lane_state_cases s :
  0 <= s <= 2 ->
  s = 0 \/ s = 1 \/ s = 2.
Proof. lia. Qed.

Lemma ctx_state_cases s :
  0 <= s <= 3 ->
  s = 0 \/ s = 1 \/ s = 2 \/ s = 3.
Proof. lia. Qed.

Lemma returns_or_asserts_weaken {A} (r : result (A * engine)) (C C' : Prop) :
  (C -> C') -> returns_or_asserts r C -> returns_or_asserts r C'.
Proof. destruct r; simpl; [auto|]. intros HC [-> H]. auto. Qed.

Lemma returns_or_asserts_returns (r : result (unit * engine)) (C : Prop) :
  ~ C -> returns_or_asserts r C -> exists e', r = Ok (tt, e').
Proof.
  destruct r as [[[] e']|f]; simpl; [eauto|]. intros HC [_ H]. contradiction.
Qed.

Ltac stops_done :=
  first [ exact I
        | split; [reflexivity | solve [eauto] ] ].

(** The local procedure FSM of a queued context stops only in the decoder,
    on a PDU that is not an LL_VERSION_IND. *)
Lemma lp_comm_execute_fsm_stops cfg e ctx c evt param :
  engine_inv cfg e ->
  mem_ctx_pool e !! ctx = Some c ->
  ctx_good c ->
  evt = LP_COMMON_EVT_RUN \/ is_Some param ->
  returns_or_asserts (lp_comm_execute_fsm cfg (lr_complete cfg) ctx evt param e)
    (exists pdu, param = Some pdu /\
                 llctrl_opcode pdu <> PDU_DATA_LLCTRL_TYPE_VERSION_IND).
Proof.
  intros (Hlen & Hf & Hl & Hr & Hls & Hrs) Hc (Hproc & Hst & Hcol & Hpause) Hevt.
  assert (Hi : (ctx < length (mem_ctx_pool e))%nat) by (eapply lookup_lt_Some; eauto).
  destruct e as [pool free ntx nntf rxq [[ls lq] re vx txq]]. simpl in *.
  destruct c as [cp cs co cc cpa]. simpl in *. subst cp cc cpa.
  unfold lp_comm_execute_fsm, lp_comm_st_idle, lp_comm_st_wait_tx, lp_comm_st_wait_rx,
    lp_comm_st_wait_ntf, lp_comm_rx_decode, pdu_decode_version_ind, lp_comm_send_req,
    lp_comm_complete, lp_comm_tx, lp_comm_ntf, tx_alloc_peek, ntf_alloc_peek, tx_alloc,
    ntf_alloc, ull_tx_enqueue, ll_rx_enqueue.
  unfold_m. simpl. rewrite Hc. simpl.
  apply lane_state_cases in Hls.
  destruct (ctx_state_cases _ Hst) as [-> | [-> | [-> | ->]]]; simpl.
  - (* Idle *)
    destruct (evt =? LP_COMMON_EVT_RUN); [|stops_done].
    repeat (rewrite ?Hc; simpl).
    destruct (sent vx =? 0).
    + destruct ntx; repeat (rewrite ?Hc, ?list_lookup_insert_eq by exact Hi; simpl);
        stops_done.
    + destruct nntf; repeat (rewrite ?Hc; simpl); [stops_done|].
      destruct (ULL_LLCP_UNITTEST cfg); simpl;
        rewrite ?lr_complete_spec; simpl;
        destruct Hls as [-> | [-> | ->]]; repeat (rewrite ?Hc; simpl); stops_done.
  - stops_done.
  - (* WaitRx *)
    destruct (evt =? LP_COMMON_EVT_RESPONSE) eqn:He; [|stops_done].
    destruct Hevt as [-> | [pdu ->]]; [discriminate|]. simpl.
    destruct (Z.eqb_spec (llctrl_opcode pdu) PDU_DATA_LLCTRL_TYPE_VERSION_IND)
      as [Hop|Hop]; [|stops_done].
    repeat (rewrite ?Hc; simpl).
    destruct nntf; repeat (rewrite ?Hc; simpl); [stops_done|].
    destruct (ULL_LLCP_UNITTEST cfg); simpl;
      rewrite ?lr_complete_spec; simpl;
      destruct Hls as [-> | [-> | ->]]; repeat (rewrite ?Hc; simpl); stops_done.
  - stops_done.
Qed.

(** The remote procedure FSM of a queued context stops only in the decoder,
    on a PDU that is not an LL_VERSION_IND, or on the protocol error of a
    request that arrives after our own LL_VERSION_IND went out. *)
Lemma rp_comm_execute_fsm_stops cfg e ctx c evt param :
  engine_inv cfg e ->
  mem_ctx_pool e !! ctx = Some c ->
  ctx_good c ->
  evt = RP_COMMON_EVT_RUN \/ is_Some param ->
  returns_or_asserts (rp_comm_execute_fsm cfg (rr_complete cfg) ctx evt param e)
    ((exists pdu, param = Some pdu /\
                  llctrl_opcode pdu <> PDU_DATA_LLCTRL_TYPE_VERSION_IND) \/
     sent (vex (conn e)) <> 0).
Proof.
  intros (Hlen & Hf & Hl & Hr & Hls & Hrs) Hc (Hproc & Hst & Hcol & Hpause) Hevt.
  assert (Hi : (ctx < length (mem_ctx_pool e))%nat) by (eapply lookup_lt_Some; eauto).
  destruct e as [pool free ntx nntf rxq [lo [rs rq] vx txq]]. simpl in *.
  destruct c as [cp cs co cc cpa]. simpl in *. subst cp cc cpa.
  unfold rp_comm_execute_fsm, rp_comm_st_idle, rp_comm_st_wait_tx, rp_comm_st_wait_rx,
    rp_comm_st_wait_ntf, rp_comm_rx_decode, pdu_decode_version_ind, rp_comm_send_rsp,
    rp_comm_tx, tx_alloc_peek, tx_alloc, ull_tx_enqueue.
  unfold_m. simpl. rewrite Hc. simpl.
  apply lane_state_cases in Hrs.
  destruct (ctx_state_cases _ Hst) as [-> | [-> | [-> | ->]]]; simpl.
  - (* Idle *)
    destruct (evt =? RP_COMMON_EVT_RUN); repeat (rewrite ?Hc; simpl); stops_done.
  - (* WaitRx *)
    destruct (evt =? RP_COMMON_EVT_REQUEST) eqn:He; [|stops_done].
    destruct Hevt as [-> | [pdu ->]]; [discriminate|]. simpl.
    destruct (Z.eqb_spec (llctrl_opcode pdu) PDU_DATA_LLCTRL_TYPE_VERSION_IND)
      as [Hop|Hop]; [|stops_done].
    repeat (rewrite ?Hc; simpl).
    destruct (Z.eqb_spec (sent vx) 0) as [Hs|Hs]; [|stops_done].
    destruct ntx; repeat (rewrite ?Hc, ?list_lookup_insert_eq by exact Hi; simpl);
      [stops_done|].
    rewrite ?rr_complete_spec; simpl.
    destruct Hrs as [-> | [-> | ->]];
      repeat (rewrite ?Hc, ?list_lookup_insert_eq by exact Hi; simpl); stops_done.
  - stops_done.
  - stops_done.
Qed.

Lemma engine_inv_wf cfg e : engine_inv cfg e -> engine_wf e.
Proof.
  intros (Hlen & Hf & Hl & Hr & _). unfold engine_wf, queue_good in *.
  repeat split; [exact Hf | |];
    (eapply Forall_impl; [eassumption|]); intros i (c & Hc & _);
    eapply lookup_lt_Some; eassumption.
Qed.

Lemma bind_ok {A B} (m : M A) (k : A -> M B) e a e1 :
  m e = Ok (a, e1) -> (m ≫= k) e = k a e1.
Proof. intros H. unfold mbind, M_bind. rewrite H. reflexivity. Qed.

(** A Run event on the remote lane always returns; it leaves the queue and
    the version-exchange bookkeeping alone. *)
Lemma rr_run_returns cfg e :
  engine_inv cfg e ->
  exists e', rr_run cfg e = Ok (tt, e') /\ engine_inv cfg e' /\
    pend_proc_list (remote (conn e')) = pend_proc_list (remote (conn e)) /\
    vex (conn e') = vex (conn e).
Proof.
  intros Hinv.
  assert (H : exists e', rr_run cfg e = Ok (tt, e') /\ vex (conn e') = vex (conn e)).
  { destruct Hinv as (Hlen & Hf & Hl & Hr & Hls & Hrs).
    destruct e as [pool free ntx nntf rxq [lo [rs rq] vx txq]]. simpl in *.
    unfold rr_run, rr_execute_fsm, rr_st_disconnect, rr_st_idle, rr_st_active,
      rr_act_run, rr_act_connect, rr_peek, rr_set_state, rp_comm_execute_fsm,
      rp_comm_st_idle, rp_comm_st_wait_rx, rp_comm_st_wait_tx, rp_comm_st_wait_ntf.
    unfold_m. simpl.
    destruct (lane_state_cases _ Hrs) as [-> | [-> | ->]]; simpl; eauto.
    destruct rq as [|h t]; simpl; eauto.
    apply Forall_cons in Hr as [(c & Hc & Hproc & Hst & _) _]. simpl in Hc.
    destruct c as [cp cs co cc cpa]. simpl in *. subst cp.
    repeat (rewrite ?Hc; simpl).
    destruct (ctx_state_cases _ Hst) as [-> | [-> | [-> | ->]]];
      repeat (rewrite ?Hc; simpl); eauto. }
  destruct H as (e' & Hrun & Hvex). exists e'.
  split; [exact Hrun|]. split; [|split; [eapply rr_run_queue; exact Hrun | exact Hvex]].
  refine (rr_execute_fsm_inv cfg _ _ _ _ _ _ _ Hrun Hinv).
  apply rr_complete_inv.
Qed.

(** A Run event on the local lane always returns. *)
Lemma lr_run_returns cfg e :
  engine_inv cfg e -> exists e', lr_run cfg e = Ok (tt, e').
Proof.
  intros Hinv. pose proof Hinv as (Hlen & Hf & Hl & Hr & Hls & Hrs).
  unfold lr_run, lr_execute_fsm.
  unfold mbind at 1, M_bind at 1, gets at 1.
  destruct (lane_state_cases _ Hls) as [Hs | [Hs | Hs]]; rewrite Hs; simpl.
  - unfold lr_st_idle. simpl.
    unfold lr_peek at 1. unfold mbind at 1, M_bind at 1, gets at 1.
    destruct (pend_proc_list (local (conn e))) as [|h t] eqn:Hq; simpl.
    { unfold_m. eauto. }
    apply Forall_cons in Hl as [(c & Hc & Hg) _].
    assert (Hact : exists e1, lr_act_run cfg (lr_complete cfg) e = Ok (tt, e1)).
    { unfold lr_act_run, lr_peek.
      unfold mbind at 1, M_bind at 1, gets at 1. rewrite Hq. simpl.
      rewrite (bind_ok (mret h) _ e h e eq_refl).
      rewrite (bind_ok (ctx_get h) _ e c e) by (unfold ctx_get; rewrite Hc; reflexivity).
      destruct Hg as (Hproc & Hg'). rewrite Hproc, Z.eqb_refl. cbv iota.
      rewrite (bind_ok (mret tt) _ e tt e eq_refl).
      eapply returns_or_asserts_returns;
        [|eapply (lp_comm_execute_fsm_stops cfg e h c LP_COMMON_EVT_RUN None);
          [exact Hinv | exact Hc | split; [exact Hproc | exact Hg'] | left; reflexivity]].
      intros (pdu & Hp & _). discriminate. }
    destruct Hact as [e1 He1].
    rewrite (bind_ok _ _ _ _ _ He1). unfold lr_set_state, modify. eauto.
  - unfold lr_st_active. simpl. unfold_m. eauto.
  - unfold lr_st_disconnect. simpl. unfold_m. eauto.
Qed.

(** The Connect and Disconnect events always return. *)
Lemma lane_connect_disconnect_returns cfg e :
  engine_inv cfg e ->
  (exists e', ull_cp_connect cfg e = Ok (tt, e')) /\
  (exists e', ull_cp_disconnect cfg e = Ok (tt, e')).
Proof.
  intros (Hlen & Hf & Hl & Hr & Hls & Hrs).
  destruct e as [pool free ntx nntf rxq [[ls lq] [rs rq] vx txq]]. simpl in *.
  unfold ull_cp_connect, ull_cp_disconnect, rr_connect, lr_connect, rr_disconnect,
    lr_disconnect, rr_execute_fsm, lr_execute_fsm, rr_st_disconnect, rr_st_idle,
    rr_st_active, lr_st_disconnect, lr_st_idle, lr_st_active, rr_act_connect,
    lr_act_connect, rr_act_disconnect, lr_act_disconnect, rr_dequeue, lr_dequeue,
    rr_set_state, lr_set_state.
  unfold_m. simpl.
  destruct (lane_state_cases _ Hls) as [-> | [-> | ->]];
    destruct (lane_state_cases _ Hrs) as [-> | [-> | ->]];
    destruct lq, rq; simpl; eauto.
Qed.

Lemma create_procedure_returns cfg e :
  engine_inv cfg e ->
  exists r e', create_procedure PROC_VERSION_EXCHANGE e = Ok (r, e') /\
               conn e' = conn e.
Proof.
  intros (Hlen & Hf & _). rewrite create_procedure_spec.
  destruct (mem_ctx_free e) as [|j rest]; [eauto|].
  apply Forall_cons in Hf as [Hj _].
  destruct (lookup_lt_is_Some_2 _ _ Hj) as [c Hc]. rewrite Hc. eauto.
Qed.

(** Every call of the API but [ull_cp_rx] returns. *)
Lemma api_step_returns cfg call e :
  engine_inv cfg e -> is_rx call = false ->
  exists e', api_step cfg call e = Ok (tt, e').
Proof.
  intros Hinv Hcall. destruct call; try discriminate; simpl.
  - unfold ull_cp_init. unfold_m. eauto.
  - unfold ull_cp_conn_init. unfold_m. eauto.
  - apply (lane_connect_disconnect_returns cfg e Hinv).
  - apply (lane_connect_disconnect_returns cfg e Hinv).
  - unfold ull_cp_run.
    destruct (rr_run_returns cfg e Hinv) as (e1 & Hrun & Hinv1 & _).
    rewrite (bind_ok _ _ _ _ _ Hrun). apply lr_run_returns, Hinv1.
  - unfold ull_cp_version_exchange.
    destruct (create_procedure_returns cfg e Hinv) as (r & e1 & Hcp & _).
    unfold mbind at 1, M_bind at 1.
    rewrite (bind_ok _ _ _ _ _ Hcp).
    destruct r; unfold lr_enqueue; unfold_m; eauto.
Qed.

(** [rr_new] stops only on an opcode it does not know, or on the protocol
    error of the remote procedure. *)
Lemma rr_new_stops cfg rx e :
  engine_inv cfg e ->
  returns_or_asserts (rr_new cfg rx e)
    (llctrl_opcode rx <> PDU_DATA_LLCTRL_TYPE_VERSION_IND \/
     sent (vex (conn e)) <> 0).
Proof.
  intros Hinv. unfold rr_new.
  destruct (Z.eqb_spec (llctrl_opcode rx) PDU_DATA_LLCTRL_TYPE_VERSION_IND)
    as [Hop|Hop]; [|simpl; auto].
  unfold mbind at 1, M_bind at 1, mret at 1, M_ret at 1.
  destruct (create_procedure_returns cfg e Hinv) as (r & e1 & Hcp & Hconn).
  rewrite (bind_ok _ _ _ _ _ Hcp).
  destruct r as [i|]; [|exact I].
  destruct (create_procedure_inv _ _ _ _ Hinv Hcp)
    as [(Hlen & Hf & Hl & Hr & Hls & Hrs) Hi].
  unfold rr_enqueue. unfold mbind at 1, M_bind at 1, modify at 1.
  set (e2 := upd_conn _ e1).
  assert (Hinv2 : engine_inv cfg e2).
  { unfold engine_inv, queue_good. simpl. repeat split; try assumption; try lia.
    apply Forall_app. split; [exact Hr | repeat constructor; exact Hi]. }
  destruct (rr_run_returns cfg e2 Hinv2) as (e3 & Hrun & Hinv3 & Hq3 & Hvex3).
  rewrite (bind_ok _ _ _ _ _ Hrun).
  unfold rr_peek. unfold mbind at 1, M_bind at 1, gets at 1.
  assert (Hhead : exists h, head (pend_proc_list (remote (conn e3))) = Some h /\
                            exists c, mem_ctx_pool e3 !! h = Some c /\ ctx_good c).
  { destruct Hinv3 as (_ & _ & _ & Hr3 & _). unfold queue_good in Hr3.
    destruct (pend_proc_list (remote (conn e3))) as [|h t].
    - exfalso. unfold e2 in Hq3. simpl in Hq3. symmetry in Hq3.
      apply app_eq_nil in Hq3 as [_ Hq3]. discriminate.
    - apply Forall_cons in Hr3 as [Hh _]. eauto. }
  destruct Hhead as (h & Hh & c & Hc & Hg). rewrite Hh. simpl.
  unfold mbind at 1, M_bind at 1, mret at 1, M_ret at 1. unfold rr_rx.
  eapply returns_or_asserts_weaken;
    [|eapply (rp_comm_execute_fsm_stops cfg e3 h c RP_COMMON_EVT_REQUEST (Some rx));
      [exact Hinv3 | exact Hc | exact Hg | right; eauto]].
  intros [(pdu & Hp & Hne) | Hs].
  - left. congruence.
  - right. rewrite Hvex3 in Hs. simpl in Hs. rewrite Hconn in Hs. exact Hs.
Qed.

(** [ull_cp_rx] stops only in an LL_ASSERT, and only on a PDU that is not an
    LL_VERSION_IND or after our own LL_VERSION_IND went out. *)
Lemma ull_cp_rx_stops cfg rx e :
  engine_inv cfg e ->
  returns_or_asserts (ull_cp_rx cfg rx e)
    (llctrl_opcode rx <> PDU_DATA_LLCTRL_TYPE_VERSION_IND \/
     sent (vex (conn e)) <> 0).
Proof.
  intros Hinv. rewrite (ull_cp_rx_route cfg rx e (engine_inv_wf cfg e Hinv)).
  pose proof Hinv as (_ & _ & Hl & Hr & _). unfold queue_good in Hl, Hr.
  match goal with
  | |- returns_or_asserts (if _ then _ else ?r) ?C =>
      assert (Hrem : returns_or_asserts r C)
  end.
  { unfold awaited.
    destruct (pend_proc_list (remote (conn e))) as [|j rq]; simpl.
    - apply rr_new_stops, Hinv.
    - apply Forall_cons in Hr as [(c & Hc & Hg) _].
      destruct (bool_decide (opcode <$> mem_ctx_pool e !! j = _));
        [|apply rr_new_stops, Hinv].
      unfold rr_rx.
      eapply (rp_comm_execute_fsm_stops cfg e j c RP_COMMON_EVT_REQUEST (Some rx)) in Hg;
        [|exact Hinv | exact Hc | right; eauto].
      eapply returns_or_asserts_weaken; [|exact Hg].
      intros [(pdu & Hp & Hne) | Hs]; [left; congruence | right; exact Hs]. }
  unfold awaited.
  destruct (pend_proc_list (local (conn e))) as [|i lq]; simpl; [exact Hrem|].
  apply Forall_cons in Hl as [(c & Hc & Hg) _].
  destruct (bool_decide (opcode <$> mem_ctx_pool e !! i = _)); [|exact Hrem].
  unfold lr_rx.
  eapply (lp_comm_execute_fsm_stops cfg e i c LP_COMMON_EVT_RESPONSE (Some rx)) in Hg;
    [|exact Hinv | exact Hc | right; eauto].
  eapply returns_or_asserts_weaken; [|exact Hg].
  intros (pdu & Hp & Hne). left. congruence.
Qed.

Lemma api_run_returns cfg calls e :
  engine_inv cfg e ->
  Forall (fun call => is_rx call = false) calls ->
  exists e', api_run cfg calls e = Ok (tt, e').
Proof.
  intros Hinv Hcalls. revert e Hinv.
  induction Hcalls as [|call calls Hcall _ IH]; intros e Hinv; simpl.
  - unfold_m. eauto.
  - destruct (api_step_returns cfg call e Hinv Hcall) as [e1 He1].
    rewrite (bind_ok _ _ _ _ _ He1). apply IH.
    exact (api_step_inv cfg call _ _ _ He1 Hinv).
Qed.

(** X11. Only [ull_cp_rx] can stop the engine.  In a build with at least
    one block in each pool, once the pools and the connection have been
    initialised and whatever calls without another [ull_cp_init] have been
    made since, every further sequence of calls of [ull_cp_conn_init],
    [ull_cp_connect], [ull_cp_disconnect], [ull_cp_run] and
    [ull_cp_version_exchange] returns: none of them hits an LL_ASSERT or
    reads a NULL pointer. *)
Theorem calls_other_than_rx_return cfg pre e calls :
  build_ok cfg ->
  Forall (fun call => call <> Init) pre ->
  api_run cfg (Init :: Conn_init :: pre) (engine_boot cfg) = Ok (tt, e) ->
  Forall (fun call => is_rx call = false /\ call <> Init) calls ->
  exists e', api_run cfg calls e = Ok (tt, e').
Proof.
  intros _ _ Hpre Hcalls. apply api_run_returns.
  - exact (api_run_inv cfg _ _ _ (engine_boot_inv cfg) Hpre).
  - eapply Forall_impl; [exact Hcalls|]. intros call [Hrx _]. exact Hrx.
Qed.

Lemma calls_other_than_rx_return_witness :
  exists e',
    api_run (cfg_sample 1) [Run; Disconnect; Version_exchange; Connect; Run]
      engine_requested = Ok (tt, e').
Proof.
  apply (calls_other_than_rx_return (cfg_sample 1)
           [Connect; Version_exchange; Run] engine_requested
           [Run; Disconnect; Version_exchange; Connect; Run]).
  - exact build_ok_sample.
  - repeat constructor; discriminate.
  - exact engine_requested_reached.
  - repeat constructor; discriminate.
Defined.

(** X12. In a build with at least one block in each pool, once the pools
    and the connection have been initialised and whatever calls without
    another [ull_cp_init] have been made since: until our own
    LL_VERSION_IND has been queued ([vex.sent] = 0), [ull_cp_rx] returns on
    every LL_VERSION_IND, whichever of its three ways the PDU takes and
    whatever the pools have left. *)
Theorem ull_cp_rx_version_ind_returns cfg pre e rx :
  build_ok cfg ->
  Forall (fun call => call <> Init) pre ->
  api_run cfg (Init :: Conn_init :: pre) (engine_boot cfg) = Ok (tt, e) ->
  llctrl_opcode rx = PDU_DATA_LLCTRL_TYPE_VERSION_IND ->
  sent (vex (conn e)) = 0 ->
  exists e', ull_cp_rx cfg rx e = Ok (tt, e').
Proof.
  intros _ _ Hpre Hop Hsent.
  eapply returns_or_asserts_returns;
    [|apply ull_cp_rx_stops;
      exact (api_run_inv cfg _ _ _ (engine_boot_inv cfg) Hpre)].
  intros [H|H]; contradiction.
Qed.

Lemma ull_cp_rx_version_ind_returns_witness :
  exists e', ull_cp_rx (cfg_sample 1) peer_version_ind engine_submitted = Ok (tt, e').
Proof.
  apply (ull_cp_rx_version_ind_returns (cfg_sample 1)
           [Connect; Version_exchange] engine_submitted peer_version_ind).
  - exact build_ok_sample.
  - repeat constructor; discriminate.
  - exact engine_submitted_reached.
  - reflexivity.
  - reflexivity.
Defined.

Lemma api_run_stops cfg calls e0 f :
  engine_inv cfg e0 ->
  api_run cfg calls e0 = Fatal f ->
  f = LL_ASSERT_failed /\
  exists before rx after e,
    calls = before ++ Rx rx :: after /\
    api_run cfg before e0 = Ok (tt, e) /\
    ull_cp_rx cfg rx e = Fatal LL_ASSERT_failed /\
    (llctrl_opcode rx <> PDU_DATA_LLCTRL_TYPE_VERSION_IND \/
     sent (vex (conn e)) <> 0).
Proof.
  revert e0. induction calls as [|call calls IH]; intros e0 Hinv; simpl.
  - unfold_m. discriminate.
  - destruct (api_step cfg call e0) as [[[] e1]|f1] eqn:Hstep.
    + rewrite (bind_ok _ _ _ _ _ Hstep). intros Hrun.
      destruct (IH e1 (api_step_inv cfg call _ _ _ Hstep Hinv) Hrun)
        as (Hf & before & rx & after & e & -> & Hb & Hrx & Hcause).
      split; [exact Hf|].
      exists (call :: before), rx, after, e. repeat split; try assumption.
      simpl. rewrite (bind_ok _ _ _ _ _ Hstep). exact Hb.
    + unfold mbind, M_bind. rewrite Hstep. intros [= <-].
      destruct call as [| | | | | |rx];
        try (match type of Hstep with
             | api_step cfg ?c e0 = _ =>
                 destruct (api_step_returns cfg c e0 Hinv eq_refl) as [e' He']
             end;
             rewrite He' in Hstep; discriminate).
      simpl in Hstep. pose proof (ull_cp_rx_stops cfg rx e0 Hinv) as Hs.
      rewrite Hstep in Hs. destruct Hs as [-> Hcause].
      split; [reflexivity|].
      exists [], rx, calls, e0. repeat split; try assumption.
Qed.

(** X13. In a build with at least one block in each pool, a run of the
    engine that initialises the pools and the connection and then makes
    any calls without another [ull_cp_init] never reads a NULL or dangling
    pointer and never reaches an unbound forward declaration: if the
    sequence of API calls does not return, it stopped in an LL_ASSERT inside
    a call of [ull_cp_rx], all calls before that one returned, and the PDU
    of that call was not an LL_VERSION_IND or arrived after our own
    LL_VERSION_IND had been queued. *)
Theorem engine_stops_only_by_assert cfg calls f :
  build_ok cfg ->
  Forall (fun call => call <> Init) calls ->
  api_run cfg (Init :: Conn_init :: calls) (engine_boot cfg) = Fatal f ->
  f = LL_ASSERT_failed /\
  exists before rx after e,
    calls = before ++ Rx rx :: after /\
    api_run cfg (Init :: Conn_init :: before) (engine_boot cfg) = Ok (tt, e) /\
    ull_cp_rx cfg rx e = Fatal LL_ASSERT_failed /\
    (llctrl_opcode rx <> PDU_DATA_LLCTRL_TYPE_VERSION_IND \/
     sent (vex (conn e)) <> 0).
Proof.
  intros _ _. rewrite api_run_started. intros Hrun.
  destruct (api_run_stops cfg calls _ f (api_final_started_inv cfg) Hrun)
    as (Hf & before & rx & after & e & Hcalls & Hb & Hrx & Hcause).
  split; [exact Hf|]. exists before, rx, after, e.
  rewrite api_run_started. repeat split; assumption.
Qed.

Lemma engine_stops_only_by_assert_witness :
  exists before rx after e,
    [Connect; Rx peer_feature_req; Run] = before ++ Rx rx :: after /\
    api_run (cfg_sample 1) (Init :: Conn_init :: before) (engine_boot (cfg_sample 1)) =
      Ok (tt, e) /\
    ull_cp_rx (cfg_sample 1) rx e = Fatal LL_ASSERT_failed /\
    (llctrl_opcode rx <> PDU_DATA_LLCTRL_TYPE_VERSION_IND \/
     sent (vex (conn e)) <> 0).
Proof.
  apply (engine_stops_only_by_assert (cfg_sample 1)
           [Connect; Rx peer_feature_req; Run] LL_ASSERT_failed).
  - exact build_ok_sample.
  - repeat constructor; discriminate.
  - vm_compute. reflexivity.
Defined.

(** ** A disconnected link *)

(** X14. While both lanes are Disconnected, [ull_cp_run] and
    [ull_cp_disconnect] return and change nothing, whatever the queues
    hold; [ull_cp_connect] makes both lanes Idle and touches nothing else,
    so what was queued while the link was down is still queued, and it does
    nothing at all on a link whose lanes are Idle or Active. *)
Theorem disconnected_link cfg e :
  (lane_state (local (conn e)) = LR_STATE_DISCONNECT ->
   lane_state (remote (conn e)) = RR_STATE_DISCONNECT ->
   ull_cp_run cfg e = Ok (tt, e) /\
   ull_cp_disconnect cfg e = Ok (tt, e) /\
   ull_cp_connect cfg e =
     Ok (tt, upd_conn (fun c => upd_local (set_lane_state LR_STATE_IDLE)
                                  (upd_remote (set_lane_state RR_STATE_IDLE) c)) e)) /\
  ((lane_state (local (conn e)) = LR_STATE_IDLE \/
    lane_state (local (conn e)) = LR_STATE_ACTIVE) ->
   (lane_state (remote (conn e)) = RR_STATE_IDLE \/
    lane_state (remote (conn e)) = RR_STATE_ACTIVE) ->
   ull_cp_connect cfg e = Ok (tt, e)).
Proof.
  destruct e as [pool free ntx nntf rxq [[ls lq] [rs rq] vx txq]]. simpl.
  unfold ull_cp_run, ull_cp_connect, ull_cp_disconnect, rr_run, lr_run, rr_connect,
    lr_connect, rr_disconnect, lr_disconnect, rr_execute_fsm, lr_execute_fsm,
    rr_st_disconnect, lr_st_disconnect, rr_st_idle, lr_st_idle, rr_st_active,
    lr_st_active, rr_act_connect, lr_act_connect, rr_set_state, lr_set_state.
  unfold_m. simpl. split.
  - intros -> ->. simpl. repeat split.
  - intros [-> | ->] [-> | ->]; reflexivity.
Qed.

Lemma disconnected_link_witness :
  ull_cp_run (cfg_sample 1) (api_final (cfg_sample 1) [Init; Conn_init]) =
    Ok (tt, api_final (cfg_sample 1) [Init; Conn_init]) /\
  ull_cp_connect (cfg_sample 1) engine_connected = Ok (tt, engine_connected).
Proof.
  split.
  - apply (disconnected_link (cfg_sample 1) (api_final (cfg_sample 1) [Init; Conn_init]));
      vm_compute; reflexivity.
  - apply (disconnected_link (cfg_sample 1) engine_connected); left; vm_compute; reflexivity.
Defined.
